(** * JSON Pointer (RFC 6901) and Relative JSON Pointer: a shallow embedding

    The development follows [pointer.ts] (class [JsonPointer]) and
    [relativePointer.ts] (class [JsonRelativePointer]).

    Modelling conventions.
    - A JavaScript [number] used as a segment, an index or a length is the
      integer it denotes, in [Z].  Digit strings are read exactly; the
      rounding of integers beyond [2^53] to the nearest double is not
      modelled.  Non-integral numbers are outside the model.
    - [parseInt] returning [NaN] (no leading digit) is rendered as [0]; every
      call site passes a string that went through a [\d+] gate.
    - Exceptions are values: [Throw e] carries the error class and message.
    - The JSON tree is a tree (no sharing).  In-place mutation of a
      sub-structure is rendered by rebuilding the root with the mutated
      sub-structure written back at its location ([writeBack]).
    - An array is the list of its slots; an empty slot (hole, [undefined]) is
      [JUndefined].  An object is the list of its own properties, in order.
    - Every object of a tree has [Object.prototype] as its prototype, as the
      engine provides it (ECMAScript with Annex B, as in Node.js and the
      browsers): the operator [in] and a property read see its twelve
      properties.  What a read finds there is a value too: a built-in
      function ([JFunction]) or, through the accessor [__proto__],
      [Object.prototype] itself ([JObjectPrototype]).
    - A tree holds own properties only.  A call that changes a prototype
      (an assignment that runs the setter of [__proto__], an assignment to or
      a deletion from [Object.prototype]) leaves the own properties of the
      tree as they are, and that is what the model returns; what the objects
      inherit after such a call is outside the model. *)

From Stdlib Require Import ZArith NArith List String Ascii Bool Lia.
From Stdlib Require Import DecimalString DecimalN DecimalZ.
Import ListNotations.

Local Open Scope string_scope.
Local Open Scope Z_scope.
Local Open Scope list_scope.

(** ** Errors and results *)

Inductive ErrorClass : Type :=
| PlainError
| JsonPointerError
| InvalidSyntaxError
| InvalidReferenceError
| TypeError.

Record Error : Type := mkError { errorClass : ErrorClass; errorMessage : string }.

Inductive Result (A : Type) : Type :=
| Ok (a : A)
| Throw (e : Error).

Arguments Ok {A} a.
Arguments Throw {A} e.

Definition bind {A B : Type} (r : Result A) (k : A -> Result B) : Result B :=
  match r with
  | Ok a => k a
  | Throw e => Throw e
  end.

Notation "x <- r ;; k" := (bind r (fun x => k))
  (at level 61, r at next level, right associativity).

(** [try { body } catch { handler }] *)
Definition tryCatch {A : Type} (body : Result A) (handler : Error -> Result A) : Result A :=
  match body with
  | Ok a => Ok a
  | Throw e => handler e
  end.

Definition throw {A : Type} (c : ErrorClass) (message : string) : Result A :=
  Throw (mkError c message).

(** ** JavaScript string and number primitives used by the library *)

Module Js.

Definition quote : string := String (ascii_of_nat 34) EmptyString.

Definition isDigit (c : ascii) : bool :=
  ((48 <=? nat_of_ascii c) && (nat_of_ascii c <=? 57))%nat.

Definition isSign (c : ascii) : bool := Ascii.eqb c "+" || Ascii.eqb c "-".

Fixpoint allDigitChars (s : string) : bool :=
  match s with
  | EmptyString => true
  | String c r => isDigit c && allDigitChars r
  end.

(** [/^\d+$/.test(s)] *)
Definition isDigits (s : string) : bool :=
  match s with
  | EmptyString => false
  | String _ _ => allDigitChars s
  end.

Fixpoint digitPrefix (s : string) : string :=
  match s with
  | EmptyString => EmptyString
  | String c r => if isDigit c then String c (digitPrefix r) else EmptyString
  end.

Fixpoint dropDigits (s : string) : string :=
  match s with
  | EmptyString => EmptyString
  | String c r => if isDigit c then dropDigits r else s
  end.

Definition startsWithDigit (s : string) : bool :=
  match s with
  | String c _ => isDigit c
  | EmptyString => false
  end.

Definition digitsValue (s : string) : Z :=
  match NilEmpty.uint_of_string s with
  | Some d => Z.of_N (N.of_uint d)
  | None => 0
  end.

(** [Number.parseInt(s, 10)]: optional sign, then the longest digit prefix. *)
Definition parseInt (s : string) : Z :=
  match s with
  | String c r =>
      if Ascii.eqb c "-" then - digitsValue (digitPrefix r)
      else if Ascii.eqb c "+" then digitsValue (digitPrefix r)
      else digitsValue (digitPrefix s)
  | EmptyString => 0
  end.

(** [`${n}`] for an integer [n]. *)
Definition numberToString (n : Z) : string := NilZero.string_of_int (Z.to_int n).

(** [/~(?![0-1])/.test(s)] *)
Fixpoint hasInvalidEscape (s : string) : bool :=
  match s with
  | EmptyString => false
  | String c r =>
      if Ascii.eqb c "~" then
        match r with
        | String d _ =>
            if Ascii.eqb d "0" || Ascii.eqb d "1" then hasInvalidEscape r else true
        | EmptyString => true
        end
      else hasInvalidEscape r
  end.

(** [s.split(sep)] for a one-character separator. *)
Fixpoint split (sep : ascii) (s : string) : list string :=
  match s with
  | EmptyString => [EmptyString]
  | String c r =>
      if Ascii.eqb c sep then EmptyString :: split sep r
      else match split sep r with
           | h :: t => String c h :: t
           | [] => [String c EmptyString]
           end
  end.

(** [l.join(sep)] *)
Definition join (sep : string) (l : list string) : string := String.concat sep l.

(** [s.replace(c, by)] with a string pattern of one character: only the
    first occurrence is replaced. *)
Fixpoint replaceFirst (c : ascii) (by_ : string) (s : string) : string :=
  match s with
  | EmptyString => EmptyString
  | String d r =>
      if Ascii.eqb d c then (by_ ++ r)%string else String d (replaceFirst c by_ r)
  end.

(** [s.replace(/~d/g, by)]: every occurrence, scanning left to right. *)
Fixpoint replaceEscape (d by_ : ascii) (s : string) : string :=
  match s with
  | EmptyString => EmptyString
  | String c r =>
      if Ascii.eqb c "~" then
        match r with
        | String e r' =>
            if Ascii.eqb e d then String by_ (replaceEscape d by_ r')
            else String c (replaceEscape d by_ r)
        | EmptyString => String c EmptyString
        end
      else String c (replaceEscape d by_ r)
  end.

(** [s.endsWith(c)] *)
Fixpoint endsWith (c : ascii) (s : string) : bool :=
  match s with
  | EmptyString => false
  | String d EmptyString => Ascii.eqb d c
  | String _ r => endsWith c r
  end.

(** The optional group [([+-]\d+)?] at the head of [s]: what follows it. *)
Definition skipOffset (s : string) : string :=
  match s with
  | String c r => if isSign c && startsWithDigit r then dropDigits r else s
  | EmptyString => s
  end.

(** The optional [#?] at the head of [s]: what follows it. *)
Definition skipHash (s : string) : string :=
  match s with
  | String c r => if Ascii.eqb c "#" then r else s
  | EmptyString => s
  end.

(** [/^\d+([+-]\d+)?#?$/.test(s)] *)
Definition matchesOrigin (s : string) : bool :=
  startsWithDigit s &&
  match skipHash (skipOffset (dropDigits s)) with
  | EmptyString => true
  | String _ _ => false
  end.

(** [/^\d+([+-]\d+)?#?(\/|$)/.test(s)] *)
Definition matchesOriginPrefix (s : string) : bool :=
  startsWithDigit s &&
  match skipHash (skipOffset (dropDigits s)) with
  | EmptyString => true
  | String c _ => Ascii.eqb c "/"
  end.

(** A match of [([+-]\d+)#?$] starting exactly at the head of [s]: group 1. *)
Definition offsetMatchAt (s : string) : option string :=
  match s with
  | String c r =>
      if isSign c && startsWithDigit r then
        match skipHash (dropDigits r) with
        | EmptyString => Some (String c (digitPrefix r))
        | String _ _ => None
        end
      else None
  | EmptyString => None
  end.

(** [/([+-]\d+)#?$/.exec(s)]: group 1 of the leftmost match, if any. *)
Fixpoint execOffset (s : string) : option string :=
  match offsetMatchAt s with
  | Some m => Some m
  | None =>
      match s with
      | String _ r => execOffset r
      | EmptyString => None
      end
  end.

End Js.

(** ** JSON values *)

#[local] Set Warnings "-register-all".

Inductive JsonValue : Type :=
| JUndefined
| JNull
| JBool (b : bool)
| JNumber (n : Z)
| JString (s : string)
| JArray (elements : list JsonValue)
| JObject (properties : list (string * JsonValue))
| JFunction (name : string)
| JObjectPrototype.

Module Json.

(** [typeof v === 'object' && v !== null] *)
Definition isStructure (v : JsonValue) : bool :=
  match v with
  | JArray _ | JObject _ | JObjectPrototype => true
  | _ => false
  end.

Definition lengthOf (elements : list JsonValue) : Z := Z.of_nat (List.length elements).

(** [elements[n]] *)
Definition arrayGet (elements : list JsonValue) (n : Z) : JsonValue :=
  if n <? 0 then JUndefined else nth (Z.to_nat n) elements JUndefined.

Fixpoint replaceNth (elements : list JsonValue) (n : nat) (v : JsonValue) : list JsonValue :=
  match elements, n with
  | [], _ => []
  | _ :: t, O => v :: t
  | h :: t, S m => h :: replaceNth t m v
  end.

(** [elements[n] = v]: an index past the end extends the array, leaving
    holes in between. *)
Definition arrayAssign (elements : list JsonValue) (n : Z) (v : JsonValue) : list JsonValue :=
  if n <? 0 then elements
  else if n <? lengthOf elements then replaceNth elements (Z.to_nat n) v
  else elements ++ repeat JUndefined (Z.to_nat n - List.length elements) ++ [v].

(** [elements.splice(n, 1)] for [0 <= n] *)
Definition arraySplice (elements : list JsonValue) (n : Z) : list JsonValue :=
  firstn (Z.to_nat n) elements ++ skipn (S (Z.to_nat n)) elements.

(** The names of the properties of [Object.prototype]. *)
Definition prototypeKeys : list string :=
  ["constructor"; "__defineGetter__"; "__defineSetter__"; "hasOwnProperty";
   "__lookupGetter__"; "__lookupSetter__"; "isPrototypeOf"; "propertyIsEnumerable";
   "toString"; "valueOf"; "__proto__"; "toLocaleString"].

(** [key in Object.prototype] *)
Definition inPrototype (key : string) : bool := existsb (String.eqb key) prototypeKeys.

(** [Object.prototype[key]]: the accessor [__proto__] reads the prototype of
    [Object.prototype], which is [null]; the other properties are the
    built-in functions. *)
Definition prototypeGet (key : string) : JsonValue :=
  if String.eqb key "__proto__" then JNull
  else if inPrototype key then JFunction key
  else JUndefined.

(** [Object.prototype.hasOwnProperty.call(properties, key)] *)
Fixpoint hasOwnProperty (properties : list (string * JsonValue)) (key : string) : bool :=
  match properties with
  | [] => false
  | (k, _) :: t => String.eqb k key || hasOwnProperty t key
  end.

(** The value of the own property [key]. *)
Fixpoint getOwnProperty (properties : list (string * JsonValue)) (key : string) : JsonValue :=
  match properties with
  | [] => JUndefined
  | (k, v) :: t => if String.eqb k key then v else getOwnProperty t key
  end.

(** [key in properties]: an own property, or one of [Object.prototype]. *)
Definition hasProperty (properties : list (string * JsonValue)) (key : string) : bool :=
  hasOwnProperty properties key || inPrototype key.

(** [properties[key]]: the own property, else what [Object.prototype]
    gives; there the accessor [__proto__] reads the prototype of the object,
    [Object.prototype]. *)
Definition getProperty (properties : list (string * JsonValue)) (key : string) : JsonValue :=
  if hasOwnProperty properties key then getOwnProperty properties key
  else if String.eqb key "__proto__" then JObjectPrototype
  else prototypeGet key.

(** The own property [key] created, or given the value [v]. *)
Fixpoint defineProperty (properties : list (string * JsonValue)) (key : string) (v : JsonValue)
  : list (string * JsonValue) :=
  match properties with
  | [] => [(key, v)]
  | (k, w) :: t =>
      if String.eqb k key then (k, v) :: t else (k, w) :: defineProperty t key v
  end.

(** [properties[key] = v]: the own properties after the assignment.  The
    data properties of [Object.prototype] are writable, so the assignment
    creates or updates an own property; but an inherited [__proto__] is an
    accessor, whose setter runs instead and creates none (it makes [v] the
    prototype of the object when [v] is an object or [null]). *)
Definition setProperty (properties : list (string * JsonValue)) (key : string) (v : JsonValue)
  : list (string * JsonValue) :=
  if String.eqb key "__proto__" && negb (hasOwnProperty properties key) then properties
  else defineProperty properties key v.

(** [delete properties[key]] *)
Fixpoint deleteProperty (properties : list (string * JsonValue)) (key : string)
  : list (string * JsonValue) :=
  match properties with
  | [] => []
  | (k, w) :: t =>
      if String.eqb k key then deleteProperty t key else (k, w) :: deleteProperty t key
  end.

(** [v] is an object in the sense of the language (a function is one): what
    the setter of [__proto__] accepts as a prototype, besides [null]. *)
Definition isObjectValue (v : JsonValue) : bool :=
  match v with
  | JArray _ | JObject _ | JFunction _ | JObjectPrototype => true
  | _ => false
  end.

End Json.

(** ** Segments *)

Inductive JsonPointerSegment : Type :=
| SegNum (n : Z)
| SegStr (s : string).

(** [`${segment}`] *)
Definition segmentToString (segment : JsonPointerSegment) : string :=
  match segment with
  | SegNum n => Js.numberToString n
  | SegStr s => s
  end.

(** [a === b] on segments *)
Definition segmentEqb (a b : JsonPointerSegment) : bool :=
  match a, b with
  | SegNum n, SegNum m => n =? m
  | SegStr s, SegStr t => String.eqb s t
  | _, _ => false
  end.

(** A segment as a plain JavaScript value. *)
Definition segmentValue (segment : JsonPointerSegment) : JsonValue :=
  match segment with
  | SegNum n => JNumber n
  | SegStr s => JString s
  end.

Definition Entry : Type := (option JsonPointerSegment * JsonValue)%type.

(** ** Class [JsonPointer] *)

Record JsonPointer : Type := mkPointer { segments : list JsonPointerSegment }.

Inductive JsonPointerLike : Type :=
| LikePointer (p : JsonPointer)
| LikeNumber (n : Z)
| LikeString (s : string)
| LikeSegments (l : list JsonPointerSegment).

Module Pointer.

Definition MAX_SAFE_INTEGER : Z := 9007199254740991.

(** [Number.isSafeInteger(n)] on integers *)
Definition isSafeInteger (n : Z) : bool :=
  (- MAX_SAFE_INTEGER <=? n) && (n <=? MAX_SAFE_INTEGER).

Definition root : JsonPointer := mkPointer [].

Definition normalizeSegment (segment : JsonPointerSegment) : JsonPointerSegment :=
  if Js.isDigits (segmentToString segment)
  then SegNum (Js.parseInt (segmentToString segment))
  else segment.

Definition unescapeSegment (segment : string) : JsonPointerSegment :=
  match normalizeSegment (SegStr segment) with
  | SegNum n => SegNum n
  | SegStr normalizedSegment =>
      SegStr (Js.replaceEscape "0" "~" (Js.replaceEscape "1" "/" normalizedSegment))
  end.

Definition escapeSegment (segment : JsonPointerSegment) : string :=
  match segment with
  | SegNum n => Js.numberToString n
  | SegStr s => Js.replaceFirst "/" "~1" (Js.replaceFirst "~" "~0" s)
  end.

Definition isRoot (this : JsonPointer) : bool :=
  (List.length (segments this) =? 0)%nat.

Definition toString (this : JsonPointer) : string :=
  if isRoot this then ""
  else ("/" ++ Js.join "/" (map escapeSegment (segments this)))%string.

Definition toJSON (this : JsonPointer) : string := toString this.

Fixpoint checkSegments (l : list JsonPointerSegment) : Result unit :=
  match l with
  | [] => Ok tt
  | SegNum n :: rest =>
      if (n <? 0) || negb (isSafeInteger n)
      then throw InvalidSyntaxError
             ("Invalid integer segment " ++ Js.quote ++ Js.numberToString n ++ Js.quote ++ ".")
      else checkSegments rest
  | SegStr _ :: rest => checkSegments rest
  end.

Definition fromSegments (l : list JsonPointerSegment) : Result JsonPointer :=
  _ <- checkSegments l ;;
  Ok (mkPointer l).

Definition parse (path : string) : Result JsonPointer :=
  match path with
  | EmptyString => Ok root
  | String first rest =>
      if Js.hasInvalidEscape path then
        throw InvalidSyntaxError
          ("Invalid escape sequence in " ++ Js.quote ++ path ++ Js.quote ++ ".")
      else if negb (Ascii.eqb first "/") then
        throw InvalidSyntaxError
          ("A non-root pointer must start with a slash, actual "
             ++ Js.quote ++ path ++ Js.quote ++ ".")
      else Ok (mkPointer (map unescapeSegment (Js.split "/" rest)))
  end.

Definition from (path : JsonPointerLike) : Result JsonPointer :=
  match path with
  | LikePointer p => Ok p
  | LikeSegments l => fromSegments (map normalizeSegment l)
  | LikeNumber n => fromSegments [SegNum n]
  | LikeString s => parse s
  end.

Definition isIndex (this : JsonPointer) : bool :=
  match last (map Some (segments this)) None with
  | Some (SegNum _) => true
  | _ => false
  end.

Definition getDepth (this : JsonPointer) : Z := Z.of_nat (List.length (segments this)).

Definition getParent (this : JsonPointer) : Result JsonPointer :=
  if (List.length (segments this) =? 0)%nat
  then throw JsonPointerError "Cannot get parent of root pointer."
  else Ok (mkPointer (removelast (segments this))).

Definition getSegments (this : JsonPointer) : list JsonPointerSegment := segments this.

Definition truncatedAt (this : JsonPointer) (depth : Z) : Result JsonPointer :=
  if depth =? 0 then Ok root
  else if (depth <? 0) || (depth >? getDepth this) then
    throw JsonPointerError ("Depth " ++ Js.numberToString depth ++ " is out of bounds.")
  else Ok (mkPointer (firstn (Z.to_nat depth) (segments this))).

Definition joinedWith (this : JsonPointer) (other : JsonPointerLike) : Result JsonPointer :=
  normalizedPointer <- from other ;;
  if isRoot normalizedPointer then Ok this
  else fromSegments (segments this ++ segments normalizedPointer).

(** [`<prefix>"${this.truncatedAt(i)}"<suffix>`] thrown as a reference error *)
Definition referenceErrorAt (this : JsonPointer) (i : nat) (prefix suffix : string)
  : option Error :=
  match truncatedAt this (Z.of_nat i) with
  | Ok location =>
      Some (mkError InvalidReferenceError
              (prefix ++ Js.quote ++ toString location ++ Js.quote ++ suffix))
  | Throw e => Some e
  end.

(** The [for] loop of [traverse], entered at index [i] with [rest] the
    segments from [i] on: the entries yielded, and the error thrown if the
    loop does not run to completion. *)
Fixpoint traverseLoop (this : JsonPointer) (i : nat) (rest : list JsonPointerSegment)
  (current : JsonValue) : list Entry * option Error :=
  match rest with
  | [] => ([], None)
  | segment :: rest' =>
      match current with
      | JArray elements =>
          match segment with
          | SegStr s =>
              if String.eqb s "-" then
                ([], referenceErrorAt this i
                       ("Index " ++ Js.numberToString (Json.lengthOf elements)
                          ++ " is out of bounds at ") ".")
              else
                ([], referenceErrorAt this i "Expected an object at " ", got an array.")
          | SegNum n =>
              if n >=? Json.lengthOf elements then
                ([], referenceErrorAt this i
                       ("Index " ++ Js.numberToString n ++ " is out of bounds at ") ".")
              else
                let next := Json.arrayGet elements n in
                let (entries, e) := traverseLoop this (S i) rest' next in
                ((Some segment, next) :: entries, e)
          end
      | JObject properties =>
          match segment with
          | SegNum _ =>
              ([], referenceErrorAt this i "Expected array at " ", got object.")
          | SegStr s =>
              if negb (Json.hasProperty properties s) then
                ([], referenceErrorAt this i
                       ("Property " ++ Js.quote ++ s ++ Js.quote ++ " does not exist at ")
                       ".")
              else
                let next := Json.getProperty properties s in
                let (entries, e) := traverseLoop this (S i) rest' next in
                ((Some segment, next) :: entries, e)
          end
      | JObjectPrototype =>
          match segment with
          | SegNum _ =>
              ([], referenceErrorAt this i "Expected array at " ", got object.")
          | SegStr s =>
              if negb (Json.inPrototype s) then
                ([], referenceErrorAt this i
                       ("Property " ++ Js.quote ++ s ++ Js.quote ++ " does not exist at ")
                       ".")
              else
                let next := Json.prototypeGet s in
                let (entries, e) := traverseLoop this (S i) rest' next in
                ((Some segment, next) :: entries, e)
          end
      | _ => ([], referenceErrorAt this i "Cannot read value at " ".")
      end
  end.

(** The generator [traverse], run to exhaustion. *)
Definition traverse (this : JsonPointer) (root : JsonValue) : list Entry * option Error :=
  let (entries, e) := traverseLoop this 0 (segments this) root in
  ((None, root) :: entries, e).

Definition get (this : JsonPointer) (value : JsonValue) : Result JsonValue :=
  match traverse this value with
  | (_, Some e) => Throw e
  | (entries, None) => Ok (snd (last entries (None, value)))
  end.

Definition has (this : JsonPointer) (root : JsonValue) : Result bool :=
  tryCatch (_ <- get this root ;; Ok true) (fun _ => Ok false).

(** The structure rooted at [root] after the sub-structure found along
    [path] was mutated into [replacement].  What is found through a property
    of [Object.prototype] is no part of the tree: the tree is then as it
    was. *)
Fixpoint writeBack (root : JsonValue) (path : list JsonPointerSegment)
  (replacement : JsonValue) : JsonValue :=
  match path with
  | [] => replacement
  | segment :: rest =>
      match root, segment with
      | JArray elements, SegNum n =>
          JArray (Json.arrayAssign elements n
                    (writeBack (Json.arrayGet elements n) rest replacement))
      | JObject properties, SegStr s =>
          if Json.hasOwnProperty properties s then
            JObject (Json.defineProperty properties s
                       (writeBack (Json.getOwnProperty properties s) rest replacement))
          else root
      | _, _ => root
      end
  end.

Definition lastSegment (this : JsonPointer) : JsonPointerSegment :=
  last (segments this) (SegStr "undefined").

(** [set]: the root as it is after the call.  The tests on [parent] and on
    [segment] are those of the source, arranged as one case analysis. *)
Definition set (this : JsonPointer) (root : JsonValue) (value : JsonValue) : Result JsonValue :=
  if isRoot this then throw JsonPointerError "Cannot set root value."
  else
    parentPointer <- getParent this ;;
    parent <- get parentPointer root ;;
    let location := (Js.quote ++ toString parentPointer ++ Js.quote)%string in
    match parent with
    | JArray elements =>
        match lastSegment this with
        | SegNum n =>
            if n >? Json.lengthOf elements then
              throw InvalidReferenceError
                ("Index " ++ Js.numberToString n ++ " is out of bounds at " ++ location ++ ".")
            else
              Ok (writeBack root (segments parentPointer)
                    (JArray (Json.arrayAssign elements n value)))
        | SegStr key =>
            if String.eqb key "-" then
              Ok (writeBack root (segments parentPointer) (JArray (elements ++ [value])))
            else
              throw PlainError ("Expected an object at " ++ location ++ ", got an array.")
        end
    | JObject properties =>
        match lastSegment this with
        | SegNum _ =>
            throw PlainError ("Expected array at " ++ location ++ ", got object.")
        | SegStr key =>
            if String.eqb key "-" then
              throw PlainError ("Expected array at " ++ location ++ ", got object.")
            else
              Ok (writeBack root (segments parentPointer)
                    (JObject (Json.setProperty properties key value)))
        end
    | JObjectPrototype =>
        (* the assignment is to [Object.prototype]: the tree stays as it is;
           the setter of [__proto__] refuses to give [Object.prototype] a
           prototype (the message is that of V8) *)
        match lastSegment this with
        | SegNum _ =>
            throw PlainError ("Expected array at " ++ location ++ ", got object.")
        | SegStr key =>
            if String.eqb key "-" then
              throw PlainError ("Expected array at " ++ location ++ ", got object.")
            else if String.eqb key "__proto__" && Json.isObjectValue value then
              throw TypeError
                "Immutable prototype object 'Object.prototype' cannot have their prototype set"
            else Ok root
        end
    | _ => throw JsonPointerError ("Cannot set value at " ++ location ++ ".")
    end.

(** [unset]: the value returned ([JUndefined] for [undefined]) and the root
    as it is after the call. *)
Definition unset (this : JsonPointer) (root : JsonValue) : Result (JsonValue * JsonValue) :=
  if isRoot this then throw InvalidReferenceError "Cannot unset the root value."
  else
    resolved <- tryCatch (parentPointer <- getParent this ;;
                          parent <- get parentPointer root ;;
                          Ok (Some (parentPointer, parent)))
                         (fun _ => Ok None) ;;
    match resolved with
    | None => Ok (JUndefined, root)
    | Some (parentPointer, JArray elements) =>
        match lastSegment this with
        | SegNum n =>
            if n >=? Json.lengthOf elements then Ok (JUndefined, root)
            else
              Ok (Json.arrayGet elements n,
                  writeBack root (segments parentPointer)
                    (JArray (Json.arraySplice elements n)))
        | SegStr _ => Ok (JUndefined, root)
        end
    | Some (parentPointer, JObject properties) =>
        match lastSegment this with
        | SegNum _ => Ok (JUndefined, root)
        | SegStr key =>
            if negb (Json.hasProperty properties key) then Ok (JUndefined, root)
            else
              Ok (Json.getProperty properties key,
                  writeBack root (segments parentPointer)
                    (JObject (Json.deleteProperty properties key)))
        end
    | Some (parentPointer, JObjectPrototype) =>
        (* the deletion is from [Object.prototype]: the tree stays as it is *)
        match lastSegment this with
        | SegNum _ => Ok (JUndefined, root)
        | SegStr key =>
            if negb (Json.inPrototype key) then Ok (JUndefined, root)
            else Ok (Json.prototypeGet key, root)
        end
    | Some _ => Ok (JUndefined, root)
    end.

Fixpoint segmentsEqb (a b : list JsonPointerSegment) : bool :=
  match a, b with
  | [], [] => true
  | x :: a', y :: b' => segmentEqb x y && segmentsEqb a' b'
  | _, _ => false
  end.

Definition equals (this other : JsonPointer) : bool :=
  segmentsEqb (segments this) (segments other).

End Pointer.

(** ** The earlier revision of [pointer.ts]

    The earlier revision reads the value in a loop of its own ([traverse]
    does not exist yet), and its [from] takes a list of segments as it is;
    [fromSegments] is the same in both revisions. *)

Module Legacy.

(** [throw new InvalidReferenceError(`<prefix>"${this.truncatedAt(i)}"<suffix>`)] *)
Definition throwReferenceErrorAt (this : JsonPointer) (i : nat) (prefix suffix : string)
  : Result JsonValue :=
  location <- Pointer.truncatedAt this (Z.of_nat i) ;;
  throw InvalidReferenceError
    (prefix ++ Js.quote ++ Pointer.toString location ++ Js.quote ++ suffix).

(** The [for] loop of [get], entered at index [i] with [rest] the segments
    from [i] on. *)
Fixpoint getLoop (this : JsonPointer) (i : nat) (rest : list JsonPointerSegment)
  (current : JsonValue) : Result JsonValue :=
  match rest with
  | [] => Ok current
  | segment :: rest' =>
      match current with
      | JArray elements =>
          match segment with
          | SegStr s =>
              if String.eqb s "-" then
                throwReferenceErrorAt this i
                  ("Index " ++ Js.numberToString (Json.lengthOf elements)
                     ++ " is out of bounds at ") "."
              else
                throwReferenceErrorAt this i "Expected an object at " ", got an array."
          | SegNum n =>
              if n >=? Json.lengthOf elements then
                throwReferenceErrorAt this i
                  ("Index " ++ Js.numberToString n ++ " is out of bounds at ") "."
              else getLoop this (S i) rest' (Json.arrayGet elements n)
          end
      | JObject properties =>
          match segment with
          | SegNum _ => throwReferenceErrorAt this i "Expected array at " ", got object."
          | SegStr s =>
              if negb (Json.hasProperty properties s) then
                throwReferenceErrorAt this i
                  ("Property " ++ Js.quote ++ s ++ Js.quote ++ " does not exist at ") "."
              else getLoop this (S i) rest' (Json.getProperty properties s)
          end
      | JObjectPrototype =>
          match segment with
          | SegNum _ => throwReferenceErrorAt this i "Expected array at " ", got object."
          | SegStr s =>
              if negb (Json.inPrototype s) then
                throwReferenceErrorAt this i
                  ("Property " ++ Js.quote ++ s ++ Js.quote ++ " does not exist at ") "."
              else getLoop this (S i) rest' (Json.prototypeGet s)
          end
      | _ => throwReferenceErrorAt this i "Cannot read value at " "."
      end
  end.

Definition get (this : JsonPointer) (structure : JsonValue) : Result JsonValue :=
  getLoop this 0 (segments this) structure.

Definition unescapeSegment (segment : string) : JsonPointerSegment :=
  if Js.isDigits segment then SegNum (Js.parseInt segment)
  else SegStr (Js.replaceEscape "0" "~" (Js.replaceEscape "1" "/" segment)).

Definition parse (path : string) : Result JsonPointer :=
  match path with
  | EmptyString => Ok Pointer.root
  | String first rest =>
      if Js.hasInvalidEscape path then
        throw InvalidSyntaxError
          ("Invalid escape sequence in " ++ Js.quote ++ path ++ Js.quote ++ ".")
      else if negb (Ascii.eqb first "/") then
        throw InvalidSyntaxError
          ("A non-root pointer must start with a slash, actual "
             ++ Js.quote ++ path ++ Js.quote ++ ".")
      else Ok (mkPointer (map unescapeSegment (Js.split "/" rest)))
  end.

(** [from] of the earlier revision: the segments of a list are taken as
    they are. *)
Definition from (path : JsonPointerLike) : Result JsonPointer :=
  match path with
  | LikePointer p => Ok p
  | LikeSegments l => Pointer.fromSegments l
  | LikeNumber n => Pointer.fromSegments [SegNum n]
  | LikeString s => parse s
  end.

End Legacy.

(** ** Class [JsonRelativePointer] *)

Record JsonRelativePointer : Type := mkRelative { relativeSegments : list JsonPointerSegment }.

Inductive JsonRelativePointerLike : Type :=
| LikeRelative (p : JsonRelativePointer)
| RelativeNumber (n : Z)
| RelativeString (s : string)
| RelativeSegments (l : list JsonPointerSegment).

Module RelativePointer.

Definition originError : string :=
  "A relative JSON pointer must start with a non-negative "
  ++ "integer optionally followed by a hash character.".

Definition fromSegments (l : list JsonPointerSegment) : Result JsonRelativePointer :=
  if (List.length l =? 0)%nat then
    throw InvalidSyntaxError "A relative pointer must have at least one segment."
  else
    pointer <- Pointer.from (LikeSegments l) ;;
    Ok (mkRelative (Pointer.getSegments pointer)).

Definition parse (path : string) : Result JsonRelativePointer :=
  if negb (Js.matchesOriginPrefix path) then throw InvalidSyntaxError originError
  else
    pointer <- Pointer.parse ("/" ++ path) ;;
    fromSegments (Pointer.getSegments pointer).

Definition from (path : JsonRelativePointerLike) : Result JsonRelativePointer :=
  match path with
  | LikeRelative p => Ok p
  | RelativeSegments l =>
      match l with
      | first :: _ =>
          if negb (Js.matchesOrigin (segmentToString first))
          then throw InvalidSyntaxError originError
          else fromSegments l
      | [] => fromSegments l
      end
  | RelativeNumber n => fromSegments [SegNum n]
  | RelativeString s => parse s
  end.

(** [`${this.segments[0]}`] *)
Definition origin (this : JsonRelativePointer) : string :=
  match relativeSegments this with
  | first :: _ => segmentToString first
  | [] => "undefined"
  end.

Definition isKeyPointer (this : JsonRelativePointer) : bool := Js.endsWith "#" (origin this).

Definition getParentIndex (this : JsonRelativePointer) : Z := Js.parseInt (origin this).

Definition getParentIndexOffset (this : JsonRelativePointer) : Z :=
  match Js.execOffset (origin this) with
  | None => 0
  | Some group => Js.parseInt group
  end.

Definition getParent (this : JsonRelativePointer) : Result JsonRelativePointer :=
  if (List.length (relativeSegments this) <? 2)%nat
  then throw JsonPointerError "Cannot get the parent of a unresolved segment."
  else Ok (mkRelative (removelast (relativeSegments this))).

Definition getRemainderPointer (this : JsonRelativePointer) : Result JsonPointer :=
  Pointer.from (LikeSegments (tl (relativeSegments this))).

Definition getSegments (this : JsonRelativePointer) : list JsonPointerSegment :=
  relativeSegments this.

Definition joinedWith (this : JsonRelativePointer) (other : JsonPointerLike)
  : Result JsonRelativePointer :=
  if isKeyPointer this then throw JsonPointerError "Cannot join a key pointer."
  else
    normalizedPointer <- Pointer.from other ;;
    if Pointer.isRoot normalizedPointer then Ok this
    else fromSegments (relativeSegments this ++ Pointer.getSegments normalizedPointer).

Definition resolve (this : JsonRelativePointer) (pointer : JsonPointerLike) : Result JsonPointer :=
  if isKeyPointer this then
    throw JsonPointerError "A key pointer cannot be resolved to an absolute pointer."
  else if negb (getParentIndexOffset this =? 0) then
    throw JsonPointerError "A pointer with an offset cannot be resolved to an absolute pointer."
  else
    let parentIndex := getParentIndex this in
    base <- Pointer.from pointer ;;
    let segments := Pointer.getSegments base in
    if parentIndex >? Z.of_nat (List.length segments) then
      throw JsonPointerError "The relative pointer is out of bounds."
    else
      Pointer.from
        (LikeSegments
           ((if parentIndex >? 0
             then firstn (List.length segments - Z.to_nat parentIndex) segments
             else segments)
              ++ tl (relativeSegments this))).

Definition equals (this other : JsonRelativePointer) : bool :=
  Pointer.segmentsEqb (relativeSegments this) (relativeSegments other).

(** [toString].  On a pointer without segments [this.segments[0].toString()]
    is a [TypeError] of the engine; no constructor builds such a pointer. *)
Definition toString (this : JsonRelativePointer) : Result string :=
  match relativeSegments this with
  | parentSegment :: rest =>
      remainingSegments <- Pointer.from (LikeSegments rest) ;;
      Ok (segmentToString parentSegment ++ Pointer.toString remainingSegments)%string
  | [] => throw TypeError "Cannot read properties of undefined (reading 'toString')"
  end.

Definition toJSON (this : JsonRelativePointer) : Result string := toString this.

(** [stack[i]] and [stack[stack.length - 1]] *)
Definition entryAt (stack : list Entry) (i : Z) : Entry :=
  if i <? 0 then (None, JUndefined) else nth (Z.to_nat i) stack (None, JUndefined).

Definition top (stack : list Entry) : Entry := last stack (None, JUndefined).

(** [getReferenceStack], with the class of the two offset errors left open:
    the revisions of the file differ on it. *)
Definition referenceStack (offsetErrorClass : ErrorClass) (this : JsonRelativePointer)
  (root : JsonValue) (pointer : JsonPointer) : Result (list Entry) :=
  match Pointer.traverse pointer root with
  | (_, Some e) => Throw e
  | (stack, None) =>
      let parentIndex := getParentIndex this in
      if parentIndex >=? Z.of_nat (List.length stack) then
        throw JsonPointerError "The relative pointer is out of bounds."
      else
        let stackIndex := Z.of_nat (List.length stack) - parentIndex - 1 in
        let offset := getParentIndexOffset this in
        if negb (offset =? 0) then
          match (if stackIndex - 1 <? 0 then JUndefined else snd (entryAt stack (stackIndex - 1))),
                fst (entryAt stack stackIndex) with
          | JArray elements, Some (SegNum index) =>
              let offsetIndex := index + offset in
              if (offsetIndex <? 0) || (offsetIndex >=? Json.lengthOf elements) then
                throw offsetErrorClass "The element index is out of bounds."
              else
                Ok (firstn (Z.to_nat stackIndex) stack
                      ++ [(Some (SegNum offsetIndex), Json.arrayGet elements offsetIndex)])
          | _, _ =>
              throw offsetErrorClass "An offset can only be applied to array elements."
          end
        else Ok (firstn (Z.to_nat (stackIndex + 1)) stack)
  end.

(** The location of the top entry of a stack, as a path from the root. *)
Fixpoint stackPath (stack : list Entry) : list JsonPointerSegment :=
  match stack with
  | [] => []
  | (Some segment, _) :: rest => segment :: stackPath rest
  | (None, _) :: rest => stackPath rest
  end.

(** The body shared by the revisions of [set] once the stack is known and
    the remainder pointer is the root: assign through the parent entry. *)
Definition setThroughParent (root : JsonValue) (stack : list Entry) (value : JsonValue)
  : Result JsonValue :=
  match fst (top stack) with
  | Some segment =>
      let structure := snd (entryAt stack (Z.of_nat (List.length stack) - 2)) in
      pointer <- Pointer.from (LikeSegments [segment]) ;;
      structure' <- Pointer.set pointer structure value ;;
      Ok (Pointer.writeBack root (stackPath (removelast stack)) structure')
  | None => Ok root
  end.

(** [remainderPointer.set(stack[stack.length - 1][1], value)] *)
Definition setThroughRemainder (root : JsonValue) (stack : list Entry)
  (remainderPointer : JsonPointer) (value : JsonValue) : Result JsonValue :=
  target' <- Pointer.set remainderPointer (snd (top stack)) value ;;
  Ok (Pointer.writeBack root (stackPath stack) target').

(** [JsonPointer.from([segment]).unset(structure)] on the parent entry: the
    value returned and the root as it is after the call.  Only the first
    entry of a stack has no segment, and the callers come here with a stack
    of two entries at least. *)
Definition unsetThroughParent (root : JsonValue) (stack : list Entry)
  : Result (JsonValue * JsonValue) :=
  match fst (top stack) with
  | Some segment =>
      let structure := snd (entryAt stack (Z.of_nat (List.length stack) - 2)) in
      pointer <- Pointer.from (LikeSegments [segment]) ;;
      result <- Pointer.unset pointer structure ;;
      Ok (fst result, Pointer.writeBack root (stackPath (removelast stack)) (snd result))
  | None => Ok (JUndefined, root)
  end.

(** [remainderPointer.unset(stack[stack.length - 1][1])] *)
Definition unsetThroughRemainder (root : JsonValue) (stack : list Entry)
  (remainderPointer : JsonPointer) : Result (JsonValue * JsonValue) :=
  result <- Pointer.unset remainderPointer (snd (top stack)) ;;
  Ok (fst result, Pointer.writeBack root (stackPath stack) (snd result)).

(** First revision of the file (lines 1-483). *)
Module V1.

Definition getReferenceStack := referenceStack InvalidReferenceError.

Definition get (this : JsonRelativePointer) (root : JsonValue) (pointer : JsonPointer)
  : Result JsonValue :=
  stack <- getReferenceStack this root pointer ;;
  let (segment, value) := top stack in
  if isKeyPointer this then
    match segment with
    | None => throw InvalidReferenceError "The root value has no key."
    | Some key => Ok (segmentValue key)
    end
  else
    remainderPointer <- getRemainderPointer this ;;
    Pointer.get remainderPointer value.

Definition has (this : JsonRelativePointer) (root : JsonValue) (pointer : JsonPointer)
  : Result bool :=
  tryCatch (_ <- get this root pointer ;; Ok true) (fun _ => Ok false).

Definition set (this : JsonRelativePointer) (root value : JsonValue) (pointer : JsonPointer)
  : Result JsonValue :=
  if isKeyPointer this then throw JsonPointerError "Cannot write to a key."
  else
    stack <- getReferenceStack this root pointer ;;
    remainderPointer <- getRemainderPointer this ;;
    if negb (Pointer.isRoot remainderPointer) then
      setThroughRemainder root stack remainderPointer value
    else if (List.length stack <? 2)%nat then
      throw JsonPointerError "Cannot set the root value."
    else setThroughParent root stack value.

(** [unset]: the value returned and the root as it is after the call. *)
Definition unset (this : JsonRelativePointer) (root : JsonValue) (pointer : JsonPointer)
  : Result (JsonValue * JsonValue) :=
  if isKeyPointer this then throw JsonPointerError "Cannot write to a key."
  else
    stack <- getReferenceStack this root pointer ;;
    remainderPointer <- getRemainderPointer this ;;
    if negb (Pointer.isRoot remainderPointer) then
      unsetThroughRemainder root stack remainderPointer
    else if (List.length stack <? 2)%nat then
      throw JsonPointerError "Cannot unset the root value."
    else unsetThroughParent root stack.

End V1.

(** Second revision (lines 484-930). *)
Module V2.

Definition getReferenceStack := referenceStack InvalidReferenceError.

Definition set (this : JsonRelativePointer) (root value : JsonValue) (pointer : JsonPointer)
  : Result JsonValue :=
  if isKeyPointer this then throw JsonPointerError "Cannot write to a key."
  else
    stack <- getReferenceStack this root pointer ;;
    remainderPointer <- getRemainderPointer this ;;
    if negb (Pointer.isRoot remainderPointer) then
      setThroughRemainder root stack remainderPointer value
    else if (List.length stack <? 2)%nat then
      throw JsonPointerError "Cannot set the root value."
    else setThroughParent root stack value.

End V2.

(** Third revision (lines 931-1307). *)
Module V3.

Definition getReferenceStack := referenceStack JsonPointerError.

Definition set (this : JsonRelativePointer) (root value : JsonValue) (pointer : JsonPointer)
  : Result JsonValue :=
  if isKeyPointer this then throw JsonPointerError "Cannot write to a key."
  else
    stack <- getReferenceStack this root pointer ;;
    if (List.length stack <? 2)%nat then
      throw JsonPointerError "Cannot set the root value."
    else
      remainderPointer <- getRemainderPointer this ;;
      if negb (Pointer.isRoot remainderPointer) then
        setThroughRemainder root stack remainderPointer value
      else setThroughParent root stack value.

Definition get (this : JsonRelativePointer) (root : JsonValue) (pointer : JsonPointer)
  : Result JsonValue :=
  stack <- getReferenceStack this root pointer ;;
  let (segment, value) := top stack in
  if isKeyPointer this then
    match segment with
    | None => throw JsonPointerError "The root value has no key."
    | Some key => Ok (segmentValue key)
    end
  else
    remainderPointer <- getRemainderPointer this ;;
    Pointer.get remainderPointer value.

(** [unset] returns nothing in this revision: the root as it is after the
    call. *)
Definition unset (this : JsonRelativePointer) (root : JsonValue) (pointer : JsonPointer)
  : Result JsonValue :=
  if isKeyPointer this then throw JsonPointerError "Cannot write to a key pointer."
  else
    stack <- getReferenceStack this root pointer ;;
    if (List.length stack <? 2)%nat then
      throw JsonPointerError "Cannot unset the root value."
    else
      remainderPointer <- getRemainderPointer this ;;
      if negb (Pointer.isRoot remainderPointer) then
        result <- unsetThroughRemainder root stack remainderPointer ;;
        Ok (snd result)
      else
        result <- unsetThroughParent root stack ;;
        Ok (snd result).

End V3.

End RelativePointer.

(** ** Notions used to state the properties *)

(** The value a path leads to, when every step of the traversal succeeds. *)
Fixpoint lookup (path : list JsonPointerSegment) (current : JsonValue) : option JsonValue :=
  match path with
  | [] => Some current
  | segment :: rest =>
      match current, segment with
      | JArray elements, SegNum n =>
          if n >=? Json.lengthOf elements then None
          else lookup rest (Json.arrayGet elements n)
      | JObject properties, SegStr s =>
          if Json.hasProperty properties s then lookup rest (Json.getProperty properties s)
          else None
      | JObjectPrototype, SegStr s =>
          if Json.inPrototype s then lookup rest (Json.prototypeGet s) else None
      | _, _ => None
      end
  end.

(** The value of the last entry yielded, [current] when there is none. *)
Definition finalValue (current : JsonValue) (entries : list Entry) : JsonValue :=
  snd (last entries (None, current)).

Definition isDefined (v : JsonValue) : bool :=
  match v with
  | JUndefined => false
  | _ => true
  end.

(** Every array of the tree is dense: no slot between [0] and [length - 1]
    is empty. *)
Fixpoint dense (v : JsonValue) : bool :=
  match v with
  | JArray elements => forallb (fun e => isDefined e && dense e) elements
  | JObject properties => forallb (fun kv => dense (snd kv)) properties
  | _ => true
  end.

(** A slot of a dense array: filled, with a dense value. *)
Definition denseSlot (e : JsonValue) : bool := isDefined e && dense e.

(** The invariant of the segments of a pointer: an index is a non-negative
    safe integer, a key is not a string of digits (it would be an index). *)
Definition validSegment (segment : JsonPointerSegment) : bool :=
  match segment with
  | SegNum n => (0 <=? n) && Pointer.isSafeInteger n
  | SegStr s => negb (Js.isDigits s)
  end.

Definition nonNegativeSegment (segment : JsonPointerSegment) : bool :=
  match segment with
  | SegNum n => 0 <=? n
  | SegStr _ => true
  end.

Definition validPointer (p : JsonPointer) : bool := forallb validSegment (segments p).

(** What every constructor, [parse] included, guarantees of a segment: an
    index is non-negative, a key is not a string of digits. *)
Definition shapedSegment (segment : JsonPointerSegment) : bool :=
  match segment with
  | SegNum n => 0 <=? n
  | SegStr s => negb (Js.isDigits s)
  end.

(** The length of every array of the tree is at most [bound].  (A JavaScript
    array holds at most [2^32 - 1] elements.) *)
Fixpoint arraysWithin (bound : Z) (v : JsonValue) : bool :=
  match v with
  | JArray elements =>
      (Json.lengthOf elements <=? bound) && forallb (arraysWithin bound) elements
  | JObject properties => forallb (fun kv => arraysWithin bound (snd kv)) properties
  | _ => true
  end.

(** The invariant of a relative pointer: the origin token matches the
    grammar, the segments are those of a pointer. *)
Definition validRelative (p : JsonRelativePointer) : bool :=
  match relativeSegments p with
  | first :: rest =>
      Js.matchesOrigin (segmentToString first) && forallb validSegment (first :: rest)
  | [] => false
  end.

(** An array or an object of the tree: what a write can happen in. *)
Definition ownStructure (v : JsonValue) : bool :=
  match v with
  | JArray _ | JObject _ => true
  | _ => false
  end.

(** The assignment [parent[segment] = value] creates or updates an own
    property of an object of the tree, or an element of an array: [parent]
    is not [Object.prototype], and the assignment does not run the setter of
    an inherited [__proto__]. *)
Definition assignsOwnProperty (parent : JsonValue) (segment : JsonPointerSegment) : bool :=
  match parent, segment with
  | JObjectPrototype, _ => false
  | JObject properties, SegStr key =>
      negb (String.eqb key "__proto__" && negb (Json.hasOwnProperty properties key))
  | _, _ => true
  end.

(** An error with the message of one of the two errors that
    [getReferenceStack] throws when it applies an offset. *)
Definition isOffsetError (e : Error) : bool :=
  String.eqb (errorMessage e) "An offset can only be applied to array elements."
  || String.eqb (errorMessage e) "The element index is out of bounds.".

(** [c] occurs in [s]. *)
Fixpoint occurs (c : ascii) (s : string) : bool :=
  match s with
  | EmptyString => false
  | String d r => Ascii.eqb d c || occurs c r
  end.

(** The number of occurrences of [c] in [s]. *)
Fixpoint count (c : ascii) (s : string) : nat :=
  match s with
  | EmptyString => 0
  | String d r => (if Ascii.eqb d c then 1 else 0) + count c r
  end.

(** [s] with every occurrence of [c] replaced by [by_]. *)
Fixpoint substAll (c : ascii) (by_ : string) (s : string) : string :=
  match s with
  | EmptyString => EmptyString
  | String d r =>
      if Ascii.eqb d c then (by_ ++ substAll c by_ r)%string
      else String d (substAll c by_ r)
  end.

(** A segment in which neither [~] nor [/] occurs twice. *)
Definition reservedAtMostOnce (segment : JsonPointerSegment) : bool :=
  match segment with
  | SegNum _ => true
  | SegStr s => ((count "~" s <=? 1) && (count "/" s <=? 1))%nat
  end.

(** The part of [s] after its last [/], [s] itself when it has none. *)
Fixpoint afterLastSlash (s : string) : string :=
  match s with
  | EmptyString => EmptyString
  | String c r => if occurs "/" s then afterLastSlash r else s
  end.

(** The part of [s] before its first [/]: the head of [s.split('/')]. *)
Fixpoint beforeSlash (s : string) : string :=
  match s with
  | EmptyString => EmptyString
  | String c r => if Ascii.eqb c "/" then EmptyString else String c (beforeSlash r)
  end.

(** ** Traversal *)

Lemma referenceErrorAt_some this i prefix suffix :
  exists e, Pointer.referenceErrorAt this i prefix suffix = Some e.
Proof.
  unfold Pointer.referenceErrorAt.
  destruct (Pointer.truncatedAt this (Z.of_nat i)); eauto.
Qed.

Lemma last_default_irrelevant {A : Type} (a : A) (l : list A) (d d' : A) :
  last (a :: l) d = last (a :: l) d'.
Proof.
  revert a. induction l as [|b l IH]; intros a.
  - reflexivity.
  - change (last (b :: l) d = last (b :: l) d'). apply IH.
Qed.

Lemma finalValue_cons current entry entries :
  finalValue current (entry :: entries) = finalValue (snd entry) entries.
Proof.
  unfold finalValue. destruct entries as [|e es].
  - reflexivity.
  - change (last (entry :: e :: es) (None, current)) with (last (e :: es) (None, current)).
    f_equal. apply last_default_irrelevant.
Qed.

Ltac name_reference_error :=
  match goal with
  | |- context [Pointer.referenceErrorAt ?this ?i ?prefix ?suffix] =>
      let e := fresh "e" in
      destruct (referenceErrorAt_some this i prefix suffix) as [e ->]
  end.

(** The loop succeeds exactly when every step of [lookup] does, and then
    yields one entry per segment, the last one holding the value found. *)
Lemma traverseLoop_lookup rest :
  forall this i current,
    match Pointer.traverseLoop this i rest current with
    | (entries, None) =>
        lookup rest current = Some (finalValue current entries)
        /\ List.length entries = List.length rest
    | (_, Some _) => lookup rest current = None
    end.
Proof.
  induction rest as [|segment rest IH]; intros this i current.
  - simpl. split; reflexivity.
  - cbn [Pointer.traverseLoop lookup].
    destruct current as [| | b | n | s | elements | properties | name |];
      try (name_reference_error; destruct segment; reflexivity).
    + destruct segment as [n | s].
      * destruct (n >=? Json.lengthOf elements).
        -- name_reference_error. reflexivity.
        -- specialize (IH this (S i) (Json.arrayGet elements n)).
           destruct (Pointer.traverseLoop this (S i) rest (Json.arrayGet elements n))
             as [entries [e|]].
           ++ exact IH.
           ++ destruct IH as [IH1 IH2]. rewrite finalValue_cons. simpl.
              split; [exact IH1 | now rewrite IH2].
      * destruct (String.eqb s "-"); name_reference_error; reflexivity.
    + destruct segment as [n | s].
      * name_reference_error. reflexivity.
      * destruct (Json.hasProperty properties s); cbn [negb].
        -- specialize (IH this (S i) (Json.getProperty properties s)).
           destruct (Pointer.traverseLoop this (S i) rest (Json.getProperty properties s))
             as [entries [e|]].
           ++ exact IH.
           ++ destruct IH as [IH1 IH2]. rewrite finalValue_cons. simpl.
              split; [exact IH1 | now rewrite IH2].
        -- name_reference_error. reflexivity.
    + destruct segment as [n | s].
      * name_reference_error. reflexivity.
      * destruct (Json.inPrototype s); cbn [negb].
        -- specialize (IH this (S i) (Json.prototypeGet s)).
           destruct (Pointer.traverseLoop this (S i) rest (Json.prototypeGet s))
             as [entries [e|]].
           ++ exact IH.
           ++ destruct IH as [IH1 IH2]. rewrite finalValue_cons. simpl.
              split; [exact IH1 | now rewrite IH2].
        -- name_reference_error. reflexivity.
Qed.

Lemma get_lookup this root v :
  Pointer.get this root = Ok v <-> lookup (segments this) root = Some v.
Proof.
  unfold Pointer.get, Pointer.traverse.
  pose proof (traverseLoop_lookup (segments this) this 0%nat root) as H.
  destruct (Pointer.traverseLoop this 0 (segments this) root) as [entries [e|]].
  - rewrite H. split; discriminate.
  - destruct H as [H _]. rewrite H.
    change (snd (last ((None, root) :: entries) (None, root)))
      with (finalValue root ((None, root) :: entries)).
    rewrite finalValue_cons. simpl.
    split; intros E; inversion E; reflexivity.
Qed.

Lemma get_throws_lookup this root :
  (exists e, Pointer.get this root = Throw e) <-> lookup (segments this) root = None.
Proof.
  unfold Pointer.get, Pointer.traverse.
  pose proof (traverseLoop_lookup (segments this) this 0%nat root) as H.
  destruct (Pointer.traverseLoop this 0 (segments this) root) as [entries [e|]].
  - rewrite H. split; eauto.
  - destruct H as [H _]. rewrite H. split; [intros [e E]; discriminate | discriminate].
Qed.

Lemma getParent_nonroot this :
  Pointer.isRoot this = false ->
  Pointer.getParent this = Ok (mkPointer (removelast (segments this))).
Proof.
  unfold Pointer.isRoot, Pointer.getParent. intros ->. reflexivity.
Qed.

(** ** Existence *)

(** C7. [has] never throws: it always returns a boolean, and that boolean is
    [true] exactly when [get] on the same pointer and value returns. *)
Theorem has_true_iff_get_succeeds (this : JsonPointer) (root : JsonValue) :
  (exists b, Pointer.has this root = Ok b)
  /\ (Pointer.has this root = Ok true <-> exists v, Pointer.get this root = Ok v)
  /\ (Pointer.has this root = Ok false <-> exists e, Pointer.get this root = Throw e).
Proof.
  unfold Pointer.has, tryCatch, bind.
  destruct (Pointer.get this root) as [v | e].
  - split; [eauto|]. split; split; try discriminate; eauto.
    intros [e E]; discriminate.
  - split; [eauto|]. split; split; try discriminate; eauto.
    intros [v E]; discriminate.
Qed.

(** ** Own and inherited properties *)

Lemma getProperty_own properties key :
  Json.hasOwnProperty properties key = true ->
  Json.hasProperty properties key = true
  /\ Json.getProperty properties key = Json.getOwnProperty properties key.
Proof.
  intros H. unfold Json.hasProperty, Json.getProperty. rewrite H. split; reflexivity.
Qed.


Lemma hasProperty_false properties key :
  Json.hasProperty properties key = false ->
  Json.hasOwnProperty properties key = false /\ Json.inPrototype key = false.
Proof.
  unfold Json.hasProperty. intros H. apply orb_false_iff in H. exact H.
Qed.

Lemma deleteProperty_absent properties key :
  Json.hasOwnProperty properties key = false -> Json.deleteProperty properties key = properties.
Proof.
  induction properties as [|[k w] t IH]; [reflexivity|].
  cbn [Json.hasOwnProperty Json.deleteProperty]. destruct (String.eqb k key); [discriminate|].
  cbn [orb]. intros H. rewrite IH by exact H. reflexivity.
Qed.

Lemma replaceNth_nth elements : forall n,
  Json.replaceNth elements n (nth n elements JUndefined) = elements.
Proof.
  induction elements as [|a l IH]; intros [|n]; cbn [Json.replaceNth nth]; try reflexivity.
  rewrite IH. reflexivity.
Qed.

Lemma arrayAssign_same elements n :
  n < Json.lengthOf elements ->
  Json.arrayAssign elements n (Json.arrayGet elements n) = elements.
Proof.
  intros Hn. unfold Json.arrayAssign, Json.arrayGet.
  destruct (n <? 0) eqn:Hneg; [reflexivity|].
  replace (n <? Json.lengthOf elements) with true by (symmetry; apply Z.ltb_lt; lia).
  apply replaceNth_nth.
Qed.

Lemma defineProperty_same properties key :
  Json.hasOwnProperty properties key = true ->
  Json.defineProperty properties key (Json.getOwnProperty properties key) = properties.
Proof.
  induction properties as [|[k w] t IH]; [discriminate|].
  cbn [Json.hasOwnProperty Json.defineProperty Json.getOwnProperty].
  destruct (String.eqb k key); [reflexivity|].
  cbn [orb]. intros H. rewrite IH by exact H. reflexivity.
Qed.

(** Writing back what is there changes nothing. *)
Lemma writeBack_same pre : forall root target,
  lookup pre root = Some target -> Pointer.writeBack root pre target = root.
Proof.
  induction pre as [|segment pre IH]; intros root target H.
  - simpl in H. inversion H; subst. reflexivity.
  - cbn [lookup Pointer.writeBack] in *.
    destruct root as [| | b | m | s | elements | properties | name |]; try discriminate;
      destruct segment as [n | key]; try discriminate; try reflexivity.
    + destruct (n >=? Json.lengthOf elements) eqn:Hn; [discriminate|].
      rewrite Z.geb_leb in Hn. apply Z.leb_gt in Hn.
      rewrite (IH _ _ H), arrayAssign_same by exact Hn. reflexivity.
    + destruct (Json.hasOwnProperty properties key) eqn:Hown; [|reflexivity].
      destruct (getProperty_own _ _ Hown) as [Hhas Hget]. rewrite Hhas, Hget in H.
      rewrite (IH _ _ H), defineProperty_same by exact Hown. reflexivity.
Qed.

(** ** Deletion *)




(** ** Arrays and objects *)

Lemma replaceNth_length elements : forall n v,
  List.length (Json.replaceNth elements n v) = List.length elements.
Proof.
  induction elements as [|h t IH]; intros [|n] v; simpl; auto.
Qed.

Lemma nth_replaceNth elements : forall n v d,
  (n < List.length elements)%nat -> nth n (Json.replaceNth elements n v) d = v.
Proof.
  induction elements as [|h t IH]; intros [|n] v d H; simpl in *; try lia; auto.
  apply IH. lia.
Qed.


Lemma arrayAssign_in_range elements n v :
  0 <= n < Json.lengthOf elements ->
  Json.arrayAssign elements n v = Json.replaceNth elements (Z.to_nat n) v.
Proof.
  intros H. unfold Json.arrayAssign.
  destruct (n <? 0) eqn:E1; [apply Z.ltb_lt in E1; lia|].
  destruct (n <? Json.lengthOf elements) eqn:E2; [reflexivity|].
  apply Z.ltb_ge in E2. lia.
Qed.

Lemma arrayAssign_at_length elements v :
  Json.arrayAssign elements (Json.lengthOf elements) v = elements ++ [v].
Proof.
  unfold Json.arrayAssign, Json.lengthOf.
  destruct (Z.of_nat (List.length elements) <? 0) eqn:E1; [apply Z.ltb_lt in E1; lia|].
  rewrite Z.ltb_irrefl, Nat2Z.id, Nat.sub_diag. reflexivity.
Qed.

Lemma arrayGet_nth elements n :
  0 <= n -> Json.arrayGet elements n = nth (Z.to_nat n) elements JUndefined.
Proof.
  intros H. unfold Json.arrayGet.
  destruct (n <? 0) eqn:E; [apply Z.ltb_lt in E; lia | reflexivity].
Qed.

Lemma arrayGet_arrayAssign elements n v :
  0 <= n < Json.lengthOf elements ->
  Json.arrayGet (Json.arrayAssign elements n v) n = v
  /\ Json.lengthOf (Json.arrayAssign elements n v) = Json.lengthOf elements.
Proof.
  intros H. rewrite arrayAssign_in_range by exact H.
  unfold Json.lengthOf in *. rewrite replaceNth_length. split; [|reflexivity].
  rewrite arrayGet_nth by lia. apply nth_replaceNth. lia.
Qed.

Lemma defineProperty_spec properties key v :
  Json.hasOwnProperty (Json.defineProperty properties key v) key = true
  /\ Json.getOwnProperty (Json.defineProperty properties key v) key = v.
Proof.
  induction properties as [|[k w] t IH]; simpl.
  - rewrite String.eqb_refl. auto.
  - destruct (String.eqb k key) eqn:E; simpl; rewrite E; simpl; auto.
Qed.

Lemma defineProperty_read properties key v :
  Json.hasProperty (Json.defineProperty properties key v) key = true
  /\ Json.getProperty (Json.defineProperty properties key v) key = v.
Proof.
  destruct (defineProperty_spec properties key v) as [Hown Hvalue].
  destruct (getProperty_own _ _ Hown) as [-> ->]. split; [reflexivity | exact Hvalue].
Qed.

(** An assignment that does not run the setter of [__proto__] leaves an own
    property with the value assigned. *)
Lemma setProperty_spec properties key v :
  String.eqb key "__proto__" && negb (Json.hasOwnProperty properties key) = false ->
  Json.hasOwnProperty (Json.setProperty properties key v) key = true
  /\ Json.hasProperty (Json.setProperty properties key v) key = true
  /\ Json.getProperty (Json.setProperty properties key v) key = v.
Proof.
  intros Hsetter. unfold Json.setProperty. rewrite Hsetter.
  destruct (defineProperty_spec properties key v) as [Hown _].
  destruct (defineProperty_read properties key v) as [Hhas Hvalue].
  split; [exact Hown|]. split; [exact Hhas | exact Hvalue].
Qed.

(** Nothing of the tree is found through what an object inherits, nor in
    [Object.prototype]. *)
Lemma lookup_outside_tree rest : forall start v,
  ownStructure start = false ->
  lookup rest start = Some v -> ownStructure v = false.
Proof.
  intros start v Hstart Hlookup.
  destruct rest as [|segment rest]; [inversion Hlookup; subst; exact Hstart|].
  cbn [lookup] in Hlookup.
  destruct start as [| | b | m | s | elements | properties | name |]; try discriminate.
  destruct segment as [n | key]; [discriminate|].
  destruct (Json.inPrototype key) eqn:Hin; [|discriminate].
  unfold Json.prototypeGet in Hlookup. rewrite Hin in Hlookup.
  destruct (String.eqb key "__proto__");
    (destruct rest as [|segment' rest];
     [inversion Hlookup; reflexivity | cbn [lookup] in Hlookup; discriminate]).
Qed.

Lemma prototypeGet_outside_tree key : ownStructure (Json.prototypeGet key) = false.
Proof.
  unfold Json.prototypeGet. destruct (String.eqb key "__proto__"); [reflexivity|].
  destruct (Json.inPrototype key); reflexivity.
Qed.

Lemma inherited_outside_tree properties key :
  Json.hasOwnProperty properties key = false ->
  ownStructure (Json.getProperty properties key) = false.
Proof.
  intros Hown. unfold Json.getProperty, Json.prototypeGet. rewrite Hown.
  destruct (String.eqb key "__proto__"); [reflexivity|].
  destruct (Json.inPrototype key); reflexivity.
Qed.

Lemma validSegment_nonNegative segment :
  validSegment segment = true -> nonNegativeSegment segment = true.
Proof.
  destruct segment as [n | s]; simpl; [|reflexivity].
  intros H. apply andb_true_iff in H. tauto.
Qed.

(** After the write-back, the path leads to the replacement. *)
Lemma lookup_writeBack path : forall root old replacement,
  forallb nonNegativeSegment path = true ->
  lookup path root = Some old ->
  ownStructure old = true ->
  lookup path (Pointer.writeBack root path replacement) = Some replacement.
Proof.
  induction path as [|segment rest IH]; intros root old replacement Hvalid Hold Hown.
  - reflexivity.
  - simpl in Hvalid. apply andb_true_iff in Hvalid as [Hseg Hrest].
    cbn [lookup Pointer.writeBack] in *.
    destruct root as [| | b | m | s | elements | properties | name |]; try discriminate;
      destruct segment as [n | key]; try discriminate;
      try (destruct (Json.inPrototype key); [|discriminate];
           rewrite (lookup_outside_tree _ _ _ (prototypeGet_outside_tree key) Hold) in Hown;
           discriminate).
    + destruct (n >=? Json.lengthOf elements) eqn:E; [discriminate|].
      rewrite Z.geb_leb in E. apply Z.leb_gt in E.
      simpl in Hseg. apply Z.leb_le in Hseg.
      cbn [lookup].
      destruct (arrayGet_arrayAssign elements n
                  (Pointer.writeBack (Json.arrayGet elements n) rest replacement))
        as [-> ->]; [lia|].
      replace (n >=? Json.lengthOf elements) with false
        by (symmetry; rewrite Z.geb_leb; apply Z.leb_gt; lia).
      eapply IH; eauto.
    + destruct (Json.hasProperty properties key) eqn:E; [|discriminate].
      destruct (Json.hasOwnProperty properties key) eqn:Hkey.
      * destruct (getProperty_own _ _ Hkey) as [_ Hget]. rewrite Hget in Hold.
        cbn [lookup].
        destruct (defineProperty_read properties key
                    (Pointer.writeBack (Json.getOwnProperty properties key) rest replacement))
          as [-> ->].
        eapply IH; eauto.
      * rewrite (lookup_outside_tree _ _ _ (inherited_outside_tree _ _ Hkey) Hold) in Hown.
        discriminate.
Qed.

Lemma forallb_removelast {A : Type} (f : A -> bool) (l : list A) :
  forallb f l = true -> forallb f (removelast l) = true.
Proof.
  induction l as [|a l IH]; [reflexivity|].
  intros H. simpl in H. apply andb_true_iff in H as [Ha Hl].
  destruct l as [|b l]; [reflexivity|].
  change (removelast (a :: b :: l)) with (a :: removelast (b :: l)).
  simpl forallb. rewrite Ha. apply IH. exact Hl.
Qed.

Lemma forallb_last {A : Type} (f : A -> bool) (l : list A) (d : A) :
  l <> [] -> forallb f l = true -> f (last l d) = true.
Proof.
  induction l as [|a l IH]; [congruence|].
  intros _ H. simpl in H. apply andb_true_iff in H as [Ha Hl].
  destruct l as [|b l]; [exact Ha|].
  change (last (a :: b :: l) d) with (last (b :: l) d).
  apply IH; [discriminate | exact Hl].
Qed.

Lemma isRoot_false_nonempty this :
  Pointer.isRoot this = false -> segments this <> [].
Proof.
  unfold Pointer.isRoot. destruct (segments this); [discriminate | discriminate].
Qed.

Lemma get_writeBack parentPointer root old replacement :
  forallb nonNegativeSegment (segments parentPointer) = true ->
  Pointer.get parentPointer root = Ok old ->
  ownStructure old = true ->
  Pointer.get parentPointer (Pointer.writeBack root (segments parentPointer) replacement)
  = Ok replacement.
Proof.
  intros Hvalid Hget Hown. apply get_lookup. apply get_lookup in Hget.
  eapply lookup_writeBack; eauto.
Qed.

(** ** Assignment *)

(** C5. [set] when the parent of the location is an array [elements]: the
    segment [-] appends the value; an index equal to the length appends it;
    a larger index fails with an out-of-bounds reference error; a smaller
    index overwrites the element at that index.  The array is read back from
    the tree after the call. *)
Theorem set_into_array (this : JsonPointer) (root value : JsonValue)
  (elements : list JsonValue) :
  Pointer.isRoot this = false ->
  forallb nonNegativeSegment (segments this) = true ->
  Pointer.get (mkPointer (removelast (segments this))) root = Ok (JArray elements) ->
  let parentPointer := mkPointer (removelast (segments this)) in
  let leaves (array : list JsonValue) :=
    exists root',
      Pointer.set this root value = Ok root'
      /\ root' = Pointer.writeBack root (segments parentPointer) (JArray array)
      /\ Pointer.get parentPointer root' = Ok (JArray array) in
  match Pointer.lastSegment this with
  | SegStr key => key = "-" -> leaves (elements ++ [value])
  | SegNum n =>
      (n = Json.lengthOf elements -> leaves (elements ++ [value]))
      /\ (n > Json.lengthOf elements ->
          Pointer.set this root value
          = Throw (mkError InvalidReferenceError
                     ("Index " ++ Js.numberToString n ++ " is out of bounds at "
                        ++ (Js.quote ++ Pointer.toString parentPointer ++ Js.quote)
                        ++ ".")))
      /\ (n < Json.lengthOf elements ->
          leaves (Json.replaceNth elements (Z.to_nat n) value))
  end.
Proof.
  intros Hroot Hvalid Hget parentPointer leaves.
  pose proof (forallb_removelast _ _ Hvalid) as Hparent.
  assert (Hlast : nonNegativeSegment (Pointer.lastSegment this) = true).
  { apply forallb_last; [apply isRoot_false_nonempty; exact Hroot | exact Hvalid]. }
  assert (Hleaves : forall array,
             Pointer.set this root value
             = Ok (Pointer.writeBack root (segments parentPointer) (JArray array)) ->
             leaves array).
  { intros array Hset. eexists. split; [exact Hset|]. split; [reflexivity|].
    eapply get_writeBack; eauto. }
  unfold Pointer.set. rewrite Hroot, (getParent_nonroot this Hroot).
  cbn [bind]. fold parentPointer. fold parentPointer in Hget. rewrite Hget. cbn [bind].
  destruct (Pointer.lastSegment this) as [n | key] eqn:Hseg.
  - cbn [nonNegativeSegment] in Hlast. apply Z.leb_le in Hlast.
    split; [|split].
    + intros ->. apply Hleaves. unfold Pointer.set.
      rewrite Hroot, (getParent_nonroot this Hroot). cbn [bind].
      fold parentPointer. rewrite Hget. cbn [bind]. rewrite Hseg.
      rewrite Z.gtb_ltb, Z.ltb_irrefl, arrayAssign_at_length. reflexivity.
    + intros H. rewrite Z.gtb_ltb.
      replace (Json.lengthOf elements <? n) with true by (symmetry; apply Z.ltb_lt; lia).
      reflexivity.
    + intros H. apply Hleaves. unfold Pointer.set.
      rewrite Hroot, (getParent_nonroot this Hroot). cbn [bind].
      fold parentPointer. rewrite Hget. cbn [bind]. rewrite Hseg.
      rewrite Z.gtb_ltb.
      replace (Json.lengthOf elements <? n) with false by (symmetry; apply Z.ltb_ge; lia).
      rewrite arrayAssign_in_range by lia. reflexivity.
  - intros ->. apply Hleaves. unfold Pointer.set.
    rewrite Hroot, (getParent_nonroot this Hroot). cbn [bind].
    fold parentPointer. rewrite Hget. cbn [bind]. rewrite Hseg.
    rewrite String.eqb_refl. reflexivity.
Qed.

Lemma set_into_array_witness :
  Pointer.isRoot (mkPointer [SegStr "foo"; SegNum 2]) = false
  /\ forallb nonNegativeSegment (segments (mkPointer [SegStr "foo"; SegNum 2])) = true
  /\ Pointer.get (mkPointer [SegStr "foo"]) (JObject [("foo", JArray [JString "bar"])])
     = Ok (JArray [JString "bar"])
  /\ Pointer.set (mkPointer [SegStr "foo"; SegNum 2])
       (JObject [("foo", JArray [JString "bar"])]) (JString "baz")
     = Throw (mkError InvalidReferenceError
                ("Index 2 is out of bounds at " ++ (Js.quote ++ "/foo" ++ Js.quote) ++ ".")).
Proof.
  split; [reflexivity|]. split; [reflexivity|]. split; [reflexivity|].
  apply (set_into_array (mkPointer [SegStr "foo"; SegNum 2])
           (JObject [("foo", JArray [JString "bar"])]) (JString "baz")
           [JString "bar"]); try reflexivity.
Defined.

(** ** Density *)




Lemma arrayGet_defined elements n :
  forallb denseSlot elements = true -> 0 <= n < Json.lengthOf elements ->
  isDefined (Json.arrayGet elements n) = true.
Proof.
  intros H Hn. rewrite arrayGet_nth by lia.
  rewrite forallb_forall in H.
  assert (Hin : In (nth (Z.to_nat n) elements JUndefined) elements).
  { apply nth_In. unfold Json.lengthOf in Hn. lia. }
  specialize (H _ Hin). apply andb_true_iff in H. tauto.
Qed.







Lemma forallb_firstn {A : Type} (f : A -> bool) (l : list A) : forall n,
  forallb f l = true -> forallb f (firstn n l) = true.
Proof.
  induction l as [|a l IH]; intros [|n] H; simpl in *; auto.
  apply andb_true_iff in H as [Ha Hl]. rewrite Ha. simpl. auto.
Qed.











(** ** Traversal, step by step *)



Lemma truncatedAt_within this i :
  (i <= List.length (segments this))%nat ->
  Pointer.truncatedAt this (Z.of_nat i) = Ok (mkPointer (firstn i (segments this))).
Proof.
  intros H. unfold Pointer.truncatedAt, Pointer.getDepth.
  destruct i as [|i]; [reflexivity|].
  replace (Z.of_nat (S i) =? 0) with false by (symmetry; apply Z.eqb_neq; lia).
  replace (Z.of_nat (S i) <? 0) with false by (symmetry; apply Z.ltb_ge; lia).
  rewrite Z.gtb_ltb.
  replace (Z.of_nat (List.length (segments this)) <? Z.of_nat (S i)) with false
    by (symmetry; apply Z.ltb_ge; lia).
  cbn [orb]. rewrite Nat2Z.id. reflexivity.
Qed.

Lemma referenceErrorAt_within this i prefix suffix :
  (i <= List.length (segments this))%nat ->
  Pointer.referenceErrorAt this i prefix suffix
  = Some (mkError InvalidReferenceError
            (prefix ++ Js.quote
               ++ Pointer.toString (mkPointer (firstn i (segments this)))
               ++ Js.quote ++ suffix)).
Proof.
  intros H. unfold Pointer.referenceErrorAt. rewrite truncatedAt_within by exact H.
  reflexivity.
Qed.






(** ** Serialization and parsing *)

(** C1. The round trip [parse(toString(P))] does not hold for every pointer
    built from unescaped segments: [escapeSegment] escapes only the first [~]
    and the first [/] of a segment.  With the segment [~~] the serialized
    pointer is rejected by [parse]; with the segment [a/b/c] it parses into two
    segments, a pointer that is not equal to the original. *)
Theorem roundtrip_fails_on_repeated_reserved_character :
  Pointer.from (LikeSegments [SegStr "~~"]) = Ok (mkPointer [SegStr "~~"])
  /\ Pointer.toString (mkPointer [SegStr "~~"]) = "/~0~"
  /\ Pointer.parse (Pointer.toString (mkPointer [SegStr "~~"]))
     = Throw (mkError InvalidSyntaxError
                ("Invalid escape sequence in " ++ Js.quote ++ "/~0~" ++ Js.quote ++ "."))
  /\ Pointer.from (LikeSegments [SegStr "a/b/c"]) = Ok (mkPointer [SegStr "a/b/c"])
  /\ Pointer.toString (mkPointer [SegStr "a/b/c"]) = "/a~1b/c"
  /\ Pointer.parse (Pointer.toString (mkPointer [SegStr "a/b/c"]))
     = Ok (mkPointer [SegStr "a/b"; SegStr "c"])
  /\ Pointer.equals (mkPointer [SegStr "a/b"; SegStr "c"]) (mkPointer [SegStr "a/b/c"])
     = false.
Proof.
  repeat split; reflexivity.
Qed.

(** ** Construction *)

(** C2. [parse] does not range-check integer segments: it builds the pointer
    with the constructor, not with [fromSegments].  The digits of [2^53], one
    past the largest safe integer, parse into a pointer carrying that integer,
    which [from] rejects as a number and as a segment list. *)
Theorem parse_accepts_unsafe_integer_segment :
  Pointer.parse "/9007199254740992" = Ok (mkPointer [SegNum 9007199254740992])
  /\ Pointer.isSafeInteger 9007199254740992 = false
  /\ Pointer.from (LikeString "/9007199254740992")
     = Ok (mkPointer [SegNum 9007199254740992])
  /\ Pointer.from (LikeNumber 9007199254740992)
     = Throw (mkError InvalidSyntaxError
                ("Invalid integer segment " ++ Js.quote ++ "9007199254740992"
                   ++ Js.quote ++ "."))
  /\ Pointer.from (LikeSegments [SegNum 9007199254740992])
     = Throw (mkError InvalidSyntaxError
                ("Invalid integer segment " ++ Js.quote ++ "9007199254740992"
                   ++ Js.quote ++ ".")).
Proof.
  repeat split; vm_compute; reflexivity.
Qed.

(** ** Decimal notation of integers *)

Lemma string_of_uint_digits d : Js.allDigitChars (NilEmpty.string_of_uint d) = true.
Proof.
  induction d; simpl; auto.
Qed.

Lemma digitPrefix_allDigits s : Js.allDigitChars s = true -> Js.digitPrefix s = s.
Proof.
  induction s as [|c s IH]; simpl; [reflexivity|].
  intros H. apply andb_true_iff in H as [Hc Hs]. rewrite Hc, IH by exact Hs. reflexivity.
Qed.

Lemma digit_not_sign c :
  Js.isDigit c = true -> Ascii.eqb c "-" = false /\ Ascii.eqb c "+" = false.
Proof.
  destruct c as [[] [] [] [] [] [] [] []]; vm_compute; intros H;
    (discriminate || (split; reflexivity)).
Qed.

(** The decimal notation of a non-negative integer is a string of digits
    that [parseInt] reads back. *)
Lemma numberToString_parseInt n :
  0 <= n ->
  Js.isDigits (Js.numberToString n) = true /\ Js.parseInt (Js.numberToString n) = n.
Proof.
  intros Hn.
  assert (H : exists d, d <> Decimal.Nil
                        /\ Js.numberToString n = NilEmpty.string_of_uint d
                        /\ Z.of_N (N.of_uint d) = n).
  { destruct n as [|p|p]; [| |lia].
    - exists (Decimal.D0 Decimal.Nil). repeat split. discriminate.
    - exists (Pos.to_uint p). split; [apply DecimalPos.Unsigned.to_uint_nonnil|].
      split.
      + unfold Js.numberToString. cbn [Z.to_int NilZero.string_of_int].
        unfold NilZero.string_of_uint.
        pose proof (DecimalPos.Unsigned.to_uint_nonnil p) as Hnil.
        destruct (Pos.to_uint p); [congruence | reflexivity ..].
      + unfold N.of_uint. rewrite DecimalPos.Unsigned.of_to. reflexivity. }
  destruct H as [d [Hnil [-> Hvalue]]].
  pose proof (string_of_uint_digits d) as Hdigits.
  assert (Hshape : exists c r, NilEmpty.string_of_uint d = String c r).
  { destruct d; [congruence | simpl; eauto ..]. }
  destruct Hshape as [c [r Hshape]].
  split.
  - unfold Js.isDigits. rewrite Hshape. rewrite <- Hshape. exact Hdigits.
  - unfold Js.parseInt. rewrite Hshape.
    assert (Hc : Js.isDigit c = true).
    { rewrite Hshape in Hdigits. simpl in Hdigits. apply andb_true_iff in Hdigits. tauto. }
    destruct (digit_not_sign c Hc) as [-> ->].
    rewrite <- Hshape. rewrite digitPrefix_allDigits by exact Hdigits.
    unfold Js.digitsValue. rewrite NilEmpty.usu. exact Hvalue.
Qed.

Lemma normalizeSegment_valid segment :
  validSegment segment = true -> Pointer.normalizeSegment segment = segment.
Proof.
  unfold Pointer.normalizeSegment. destruct segment as [n | s]; cbn [validSegment segmentToString].
  - intros H. apply andb_true_iff in H as [Hn _]. apply Z.leb_le in Hn.
    destruct (numberToString_parseInt n Hn) as [-> ->]. reflexivity.
  - intros H. apply negb_true_iff in H. rewrite H. reflexivity.
Qed.

Lemma checkSegments_valid l :
  forallb validSegment l = true -> Pointer.checkSegments l = Ok tt.
Proof.
  induction l as [|segment l IH]; [reflexivity|].
  cbn [forallb]. intros H. apply andb_true_iff in H as [Hs Hl].
  destruct segment as [n | s]; cbn [Pointer.checkSegments]; [|auto].
  cbn [validSegment] in Hs. apply andb_true_iff in Hs as [Hn Hsafe].
  apply Z.leb_le in Hn.
  replace (n <? 0) with false by (symmetry; apply Z.ltb_ge; lia).
  rewrite Hsafe. cbn [negb orb]. auto.
Qed.

(** [from] on a list of segments that already satisfies the invariant
    returns the pointer made of exactly these segments. *)
Lemma from_valid_segments l :
  forallb validSegment l = true -> Pointer.from (LikeSegments l) = Ok (mkPointer l).
Proof.
  intros H. cbn [Pointer.from].
  assert (Hmap : map Pointer.normalizeSegment l = l).
  { induction l as [|segment l IH]; [reflexivity|].
    cbn [forallb] in H. apply andb_true_iff in H as [Hs Hl].
    cbn [map]. rewrite normalizeSegment_valid by exact Hs. now rewrite IH. }
  rewrite Hmap. unfold Pointer.fromSegments. rewrite checkSegments_valid by exact H.
  reflexivity.
Qed.

(** What [fromSegments] accepts has every index in range. *)
Lemma fromSegments_in_range l p :
  Pointer.fromSegments l = Ok p ->
  segments p = l
  /\ forall n, In (SegNum n) l -> 0 <= n <= Pointer.MAX_SAFE_INTEGER.
Proof.
  unfold Pointer.fromSegments.
  destruct (Pointer.checkSegments l) as [[]|e] eqn:Hcheck; cbn [bind]; [|discriminate].
  intros H. inversion H; subst p. split; [reflexivity|].
  induction l as [|segment l IH]; intros n Hin; [destruct Hin|].
  cbn [Pointer.checkSegments] in Hcheck.
  destruct segment as [m | s].
  - destruct ((m <? 0) || negb (Pointer.isSafeInteger m)) eqn:E; [discriminate|].
    destruct Hin as [Heq | Hin]; [|apply IH; auto].
    inversion Heq; subst m.
    apply orb_false_iff in E as [E1 E2]. apply Z.ltb_ge in E1.
    apply negb_false_iff in E2. unfold Pointer.isSafeInteger in E2.
    apply andb_true_iff in E2 as [_ E2]. apply Z.leb_le in E2. lia.
  - destruct Hin as [Heq | Hin]; [discriminate | apply IH; auto].
Qed.

Lemma checkSegments_rejects l n :
  In (SegNum n) l -> n < 0 \/ Pointer.MAX_SAFE_INTEGER < n ->
  exists m,
    In (SegNum m) l
    /\ (m < 0 \/ Pointer.MAX_SAFE_INTEGER < m)
    /\ Pointer.checkSegments l
       = Throw (mkError InvalidSyntaxError
                  ("Invalid integer segment " ++ Js.quote ++ Js.numberToString m
                     ++ Js.quote ++ ".")).
Proof.
  induction l as [|segment l IH]; intros Hin Hout; [destruct Hin|].
  cbn [Pointer.checkSegments].
  destruct segment as [m | key].
  - destruct ((m <? 0) || negb (Pointer.isSafeInteger m)) eqn:E.
    + exists m. split; [left; reflexivity|]. split; [|reflexivity].
      apply orb_true_iff in E as [E | E]; [left; apply Z.ltb_lt; exact E|].
      apply negb_true_iff in E. unfold Pointer.isSafeInteger in E.
      apply andb_false_iff in E as [E | E]; apply Z.leb_gt in E;
        unfold Pointer.MAX_SAFE_INTEGER in *; lia.
    + destruct Hin as [Heq | Hin].
      * inversion Heq; subst m. exfalso.
        apply orb_false_iff in E as [E1 E2]. apply Z.ltb_ge in E1.
        apply negb_false_iff in E2. unfold Pointer.isSafeInteger in E2.
        apply andb_true_iff in E2 as [_ E2]. apply Z.leb_le in E2. lia.
      * destruct (IH Hin Hout) as [m' [Hin' [Hout' Hthrow]]].
        exists m'. split; [right; exact Hin'|]. split; [exact Hout' | exact Hthrow].
  - destruct Hin as [Heq | Hin]; [discriminate|].
    destruct (IH Hin Hout) as [m' [Hin' [Hout' Hthrow]]].
    exists m'. split; [right; exact Hin'|]. split; [exact Hout' | exact Hthrow].
Qed.

(** What [fromSegments] rejects: a list with an index out of range, with a
    syntax error naming the first such index. *)
Lemma fromSegments_rejects l n :
  In (SegNum n) l -> n < 0 \/ Pointer.MAX_SAFE_INTEGER < n ->
  exists m,
    In (SegNum m) l
    /\ (m < 0 \/ Pointer.MAX_SAFE_INTEGER < m)
    /\ Pointer.fromSegments l
       = Throw (mkError InvalidSyntaxError
                  ("Invalid integer segment " ++ Js.quote ++ Js.numberToString m
                     ++ Js.quote ++ ".")).
Proof.
  intros Hin Hout.
  destruct (checkSegments_rejects l n Hin Hout) as [m [Hin' [Hout' Hthrow]]].
  exists m. split; [exact Hin'|]. split; [exact Hout'|].
  unfold Pointer.fromSegments. rewrite Hthrow. reflexivity.
Qed.

(** ** What the constructors establish *)

Lemma digitsValue_nonneg s : 0 <= Js.digitsValue s.
Proof.
  unfold Js.digitsValue. destruct (NilEmpty.uint_of_string s); lia.
Qed.

Lemma isDigits_starts_with_digit s : Js.isDigits s = true -> Js.startsWithDigit s = true.
Proof.
  destruct s as [|c r]; [discriminate|]. simpl.
  intros H. apply andb_true_iff in H. tauto.
Qed.

Lemma parseInt_nonneg s : Js.startsWithDigit s = true -> 0 <= Js.parseInt s.
Proof.
  destruct s as [|c r]; [discriminate|]. cbn [Js.startsWithDigit]. intros Hc.
  unfold Js.parseInt. destruct (digit_not_sign c Hc) as [-> ->].
  apply digitsValue_nonneg.
Qed.

(** A key left by [normalizeSegment] is not a string of digits. *)
Lemma normalizeSegment_key segment key :
  Pointer.normalizeSegment segment = SegStr key -> Js.isDigits key = false.
Proof.
  unfold Pointer.normalizeSegment.
  destruct (Js.isDigits (segmentToString segment)) eqn:E; [discriminate|].
  intros ->. exact E.
Qed.

(** [from] on a segment list returns only pointers that satisfy the
    invariant. *)
Lemma from_segments_establishes_invariant l p :
  Pointer.from (LikeSegments l) = Ok p -> validPointer p = true.
Proof.
  cbn [Pointer.from]. intros H.
  destruct (fromSegments_in_range _ _ H) as [Hseg Hrange].
  unfold validPointer. rewrite Hseg. apply forallb_forall.
  intros segment Hin. destruct segment as [n | key]; cbn [validSegment].
  - specialize (Hrange n Hin). unfold Pointer.isSafeInteger, Pointer.MAX_SAFE_INTEGER in *.
    apply andb_true_iff. split; [apply Z.leb_le; lia|].
    apply andb_true_iff. split; apply Z.leb_le; lia.
  - apply in_map_iff in Hin as [original [Hnorm _]].
    rewrite (normalizeSegment_key _ _ Hnorm). reflexivity.
Qed.

Lemma from_number_establishes_invariant n p :
  Pointer.from (LikeNumber n) = Ok p -> validPointer p = true.
Proof.
  cbn [Pointer.from]. intros H.
  destruct (fromSegments_in_range _ _ H) as [Hseg Hrange].
  unfold validPointer. rewrite Hseg. cbn [forallb validSegment].
  specialize (Hrange n (or_introl eq_refl)).
  unfold Pointer.isSafeInteger, Pointer.MAX_SAFE_INTEGER in *.
  rewrite andb_true_r. apply andb_true_iff. split; [apply Z.leb_le; lia|].
  apply andb_true_iff. split; apply Z.leb_le; lia.
Qed.

(** Joining with a non-root pointer range-checks every index of the result. *)
Lemma joinedWith_in_range this other normalized p :
  Pointer.from other = Ok normalized ->
  Pointer.isRoot normalized = false ->
  Pointer.joinedWith this other = Ok p ->
  segments p = segments this ++ segments normalized
  /\ forall n, In (SegNum n) (segments p) -> 0 <= n <= Pointer.MAX_SAFE_INTEGER.
Proof.
  intros Hfrom Hroot. unfold Pointer.joinedWith. rewrite Hfrom. cbn [bind].
  rewrite Hroot. intros H. destruct (fromSegments_in_range _ _ H) as [Hseg Hrange].
  split; [exact Hseg|]. rewrite Hseg. exact Hrange.
Qed.

Lemma replaceEscape_digits d by_ s :
  Js.isDigit "~" = false -> Js.isDigit by_ = false ->
  Js.isDigits (Js.replaceEscape d by_ s) = true -> Js.isDigits s = true.
Proof.
  intros Htilde Hby.
  assert (Hall : forall t, Js.allDigitChars (Js.replaceEscape d by_ t) = true ->
                           Js.allDigitChars t = true).
  { induction t as [|c r IH]; [reflexivity|].
    cbn [Js.replaceEscape].
    destruct (Ascii.eqb c "~") eqn:Ec.
    - apply Ascii.eqb_eq in Ec. subst c.
      destruct r as [|e r'].
      + cbn [Js.allDigitChars]. rewrite Htilde. discriminate.
      + destruct (Ascii.eqb e d); cbn [Js.allDigitChars];
          rewrite ?Hby, ?Htilde; discriminate.
    - cbn [Js.allDigitChars]. intros H. apply andb_true_iff in H as [Hc Hr].
      rewrite Hc, IH by exact Hr. reflexivity. }
  destruct s as [|c r]; [discriminate|].
  unfold Js.isDigits at 1.
  destruct (Js.replaceEscape d by_ (String c r)) eqn:E; [discriminate|].
  rewrite <- E. intros H. apply Hall in H. exact H.
Qed.

(** What [unescapeSegment] returns: a non-negative index, or a key that is
    not a string of digits. *)
Lemma unescapeSegment_shape raw :
  nonNegativeSegment (Pointer.unescapeSegment raw) = true
  /\ match Pointer.unescapeSegment raw with
     | SegNum _ => True
     | SegStr key => Js.isDigits key = false
     end.
Proof.
  unfold Pointer.unescapeSegment, Pointer.normalizeSegment. cbn [segmentToString].
  destruct (Js.isDigits raw) eqn:E.
  - split; [|exact I]. cbn [nonNegativeSegment]. apply Z.leb_le.
    apply parseInt_nonneg, isDigits_starts_with_digit, E.
  - split; [reflexivity|].
    destruct (Js.isDigits (Js.replaceEscape "0" "~" (Js.replaceEscape "1" "/" raw)))
      eqn:E'; [|reflexivity].
    apply replaceEscape_digits in E'; [|reflexivity|reflexivity].
    apply replaceEscape_digits in E'; [|reflexivity|reflexivity].
    congruence.
Qed.

(** [parse] returns pointers that satisfy the invariant but for the upper
    bound of the indices. *)
Lemma parse_establishes_all_but_range path p :
  Pointer.parse path = Ok p ->
  forall segment, In segment (segments p) ->
    match segment with
    | SegNum n => 0 <= n
    | SegStr key => Js.isDigits key = false
    end.
Proof.
  unfold Pointer.parse. destruct path as [|first rest].
  - intros H. inversion H; subst. intros segment [].
  - destruct (Js.hasInvalidEscape (String first rest)); [discriminate|].
    destruct (negb (Ascii.eqb first "/")); [discriminate|].
    intros H. inversion H; subst. cbn [segments]. intros segment Hin.
    apply in_map_iff in Hin as [raw [Hraw _]]. subst segment.
    destruct (unescapeSegment_shape raw) as [Hnonneg Hkey].
    destruct (Pointer.unescapeSegment raw) as [n | key]; [|exact Hkey].
    cbn [nonNegativeSegment] in Hnonneg. apply Z.leb_le. exact Hnonneg.
Qed.

(** Every pointer the constructors return has shaped segments. *)
Lemma parse_establishes_shape path p :
  Pointer.parse path = Ok p -> forallb shapedSegment (segments p) = true.
Proof.
  intros H. apply forallb_forall. intros segment Hin.
  pose proof (parse_establishes_all_but_range _ _ H segment Hin) as Hshape.
  destruct segment as [n | key]; cbn [shapedSegment].
  - apply Z.leb_le. exact Hshape.
  - rewrite Hshape. reflexivity.
Qed.

Lemma validPointer_shaped p :
  validPointer p = true -> forallb shapedSegment (segments p) = true.
Proof.
  unfold validPointer. rewrite !forallb_forall.
  intros H segment Hin. specialize (H segment Hin).
  destruct segment as [n | key]; cbn [validSegment shapedSegment] in *; [|exact H].
  apply andb_true_iff in H. tauto.
Qed.

(** Every pointer the constructors return has non-negative indices. *)
Lemma parse_establishes_nonNegative path p :
  Pointer.parse path = Ok p -> forallb nonNegativeSegment (segments p) = true.
Proof.
  intros H. apply forallb_forall. intros segment Hin.
  pose proof (parse_establishes_all_but_range _ _ H segment Hin) as Hshape.
  destruct segment as [n | key]; [|reflexivity].
  cbn [nonNegativeSegment]. apply Z.leb_le. exact Hshape.
Qed.

Lemma validPointer_nonNegative p :
  validPointer p = true -> forallb nonNegativeSegment (segments p) = true.
Proof.
  unfold validPointer. rewrite !forallb_forall.
  intros H segment Hin. apply validSegment_nonNegative. auto.
Qed.

Lemma isDigits_matchesOrigin s : Js.isDigits s = true -> Js.matchesOrigin s = true.
Proof.
  intros H. unfold Js.matchesOrigin. rewrite (isDigits_starts_with_digit s H).
  assert (Hdrop : forall t, Js.allDigitChars t = true -> Js.dropDigits t = EmptyString).
  { induction t as [|c r IH]; [reflexivity|].
    cbn [Js.allDigitChars Js.dropDigits]. intros Ht.
    apply andb_true_iff in Ht as [Hc Hr]. rewrite Hc. auto. }
  destruct s as [|c r]; [discriminate|].
  rewrite Hdrop by exact H. reflexivity.
Qed.

(** [from] on a segment list or a number returns only relative pointers that
    satisfy the invariant. *)
Lemma relative_from_segments_establishes_invariant l rp :
  RelativePointer.from (RelativeSegments l) = Ok rp -> validRelative rp = true.
Proof.
  cbn [RelativePointer.from]. destruct l as [|first rest].
  - discriminate.
  - destruct (negb (Js.matchesOrigin (segmentToString first))) eqn:Horigin;
      [discriminate|].
    apply negb_false_iff in Horigin.
    unfold RelativePointer.fromSegments. cbn [List.length Nat.eqb].
    destruct (Pointer.from (LikeSegments (first :: rest))) as [pointer|e] eqn:Hfrom;
      [|discriminate].
    cbn [bind]. intros H. inversion H; subst rp. clear H.
    pose proof (from_segments_establishes_invariant _ _ Hfrom) as Hvalid.
    cbn [Pointer.from] in Hfrom.
    destruct (fromSegments_in_range _ _ Hfrom) as [Hseg _].
    unfold validRelative, Pointer.getSegments. cbn [relativeSegments].
    unfold validPointer in Hvalid. rewrite Hseg in *. cbn [map] in *.
    rewrite Hvalid, andb_true_r.
    unfold Pointer.normalizeSegment.
    destruct (Js.isDigits (segmentToString first)) eqn:Hdigits; [|exact Horigin].
    cbn [segmentToString]. apply isDigits_matchesOrigin.
    apply numberToString_parseInt, parseInt_nonneg, isDigits_starts_with_digit, Hdigits.
Qed.

Lemma relative_from_number_establishes_invariant n rp :
  RelativePointer.from (RelativeNumber n) = Ok rp -> validRelative rp = true.
Proof.
  cbn [RelativePointer.from]. unfold RelativePointer.fromSegments.
  cbn [List.length Nat.eqb].
  destruct (Pointer.from (LikeSegments [SegNum n])) as [pointer|e] eqn:Hfrom;
    [|discriminate].
  cbn [bind]. intros H. inversion H; subst rp. clear H.
  pose proof (from_segments_establishes_invariant _ _ Hfrom) as Hvalid.
  cbn [Pointer.from] in Hfrom.
  destruct (fromSegments_in_range _ _ Hfrom) as [Hseg Hrange].
  unfold validRelative, Pointer.getSegments. cbn [relativeSegments].
  unfold validPointer in Hvalid. rewrite Hseg in *. cbn [map] in *.
  rewrite Hvalid, andb_true_r.
  destruct (Pointer.normalizeSegment (SegNum n)) as [m | key] eqn:Hnorm.
  - cbn [segmentToString]. apply isDigits_matchesOrigin.
    apply numberToString_parseInt. apply (Hrange m). left. reflexivity.
  - unfold Pointer.normalizeSegment in Hnorm.
    destruct (Js.isDigits (segmentToString (SegNum n))); discriminate.
Qed.

Lemma split_head s : exists rest, Js.split "/" s = beforeSlash s :: rest.
Proof.
  induction s as [|c r [rest IH]]; cbn [Js.split beforeSlash]; [eauto|].
  destruct (Ascii.eqb c "/"); [eauto|]. rewrite IH. eauto.
Qed.

Lemma digit_not_slash c : Js.isDigit c = true -> Ascii.eqb c "/" = false.
Proof.
  destruct c as [[] [] [] [] [] [] [] []]; vm_compute; intros H;
    (discriminate || reflexivity).
Qed.

Lemma digit_not_tilde c : Js.isDigit c = true -> Ascii.eqb c "~" = false.
Proof.
  destruct c as [[] [] [] [] [] [] [] []]; vm_compute; intros H;
    (discriminate || reflexivity).
Qed.

Lemma sign_not_slash c :
  Js.isSign c = true -> Ascii.eqb c "/" = false /\ Ascii.eqb c "~" = false.
Proof.
  unfold Js.isSign. intros H. apply orb_true_iff in H as [H | H];
    apply Ascii.eqb_eq in H; subst c; split; reflexivity.
Qed.

Lemma startsWithDigit_beforeSlash s :
  Js.startsWithDigit (beforeSlash s) = Js.startsWithDigit s.
Proof.
  destruct s as [|c r]; [reflexivity|]. cbn [beforeSlash Js.startsWithDigit].
  destruct (Ascii.eqb c "/") eqn:E; [|reflexivity].
  apply Ascii.eqb_eq in E. subst c. reflexivity.
Qed.

(** The three scanners of the origin grammar never step over a [/]. *)
Lemma dropDigits_beforeSlash s :
  Js.dropDigits (beforeSlash s) = beforeSlash (Js.dropDigits s).
Proof.
  induction s as [|c r IH]; [reflexivity|].
  cbn [beforeSlash Js.dropDigits].
  destruct (Js.isDigit c) eqn:Hc.
  - rewrite (digit_not_slash c Hc). cbn [Js.dropDigits]. rewrite Hc. exact IH.
  - cbn [beforeSlash]. destruct (Ascii.eqb c "/"); [reflexivity|].
    cbn [Js.dropDigits]. rewrite Hc. reflexivity.
Qed.

Lemma skipOffset_beforeSlash s :
  Js.skipOffset (beforeSlash s) = beforeSlash (Js.skipOffset s).
Proof.
  destruct s as [|c r]; [reflexivity|].
  cbn [beforeSlash Js.skipOffset].
  destruct (Js.isSign c) eqn:Hc.
  - destruct (sign_not_slash c Hc) as [-> _]. cbn [Js.skipOffset].
    rewrite Hc, startsWithDigit_beforeSlash.
    destruct (Js.startsWithDigit r); cbn [andb].
    + apply dropDigits_beforeSlash.
    + cbn [beforeSlash]. destruct (sign_not_slash c Hc) as [-> _]. reflexivity.
  - cbn [andb beforeSlash]. destruct (Ascii.eqb c "/"); [reflexivity|].
    cbn [Js.skipOffset]. rewrite Hc. reflexivity.
Qed.

Lemma skipHash_beforeSlash s :
  Js.skipHash (beforeSlash s) = beforeSlash (Js.skipHash s).
Proof.
  destruct s as [|c r]; [reflexivity|].
  cbn [beforeSlash Js.skipHash].
  destruct (Ascii.eqb c "#") eqn:Hc.
  - apply Ascii.eqb_eq in Hc. subst c. reflexivity.
  - cbn [beforeSlash]. destruct (Ascii.eqb c "/"); [reflexivity|].
    cbn [Js.skipHash]. rewrite Hc. reflexivity.
Qed.

Lemma matchesOriginPrefix_head s :
  Js.matchesOriginPrefix s = true -> Js.matchesOrigin (beforeSlash s) = true.
Proof.
  unfold Js.matchesOriginPrefix, Js.matchesOrigin.
  intros H. apply andb_true_iff in H as [Hdigit Hrest].
  rewrite startsWithDigit_beforeSlash, Hdigit.
  rewrite dropDigits_beforeSlash, skipOffset_beforeSlash, skipHash_beforeSlash.
  destruct (Js.skipHash (Js.skipOffset (Js.dropDigits s))) as [|c r]; [reflexivity|].
  cbn [beforeSlash]. rewrite Hrest. reflexivity.
Qed.

(** A string of the origin grammar holds no [~]. *)
Lemma dropDigits_occurs s :
  occurs "~" (Js.dropDigits s) = false -> occurs "~" s = false.
Proof.
  induction s as [|c r IH]; [reflexivity|].
  cbn [Js.dropDigits]. destruct (Js.isDigit c) eqn:Hc; [|auto].
  intros H. cbn [occurs]. rewrite (digit_not_tilde c Hc). auto.
Qed.

Lemma matchesOrigin_no_tilde s : Js.matchesOrigin s = true -> occurs "~" s = false.
Proof.
  unfold Js.matchesOrigin. intros H. apply andb_true_iff in H as [_ H].
  apply dropDigits_occurs.
  destruct (Js.dropDigits s) as [|c r]; [reflexivity|].
  assert (Hhash : forall t, Js.skipHash t = EmptyString -> occurs "~" t = false).
  { intros [|d [|d' t']]; cbn [Js.skipHash]; try reflexivity.
    - destruct (Ascii.eqb d "#") eqn:E; [|discriminate].
      apply Ascii.eqb_eq in E. subst d. reflexivity.
    - destruct (Ascii.eqb d "#"); discriminate. }
  unfold Js.skipOffset in H.
  destruct (Js.isSign c && Js.startsWithDigit r) eqn:E.
  - apply andb_true_iff in E as [Hc _]. cbn [occurs].
    destruct (sign_not_slash c Hc) as [_ ->]. cbn [orb].
    apply dropDigits_occurs. apply Hhash.
    destruct (Js.skipHash (Js.dropDigits r)); [reflexivity | discriminate].
  - apply Hhash. destruct (Js.skipHash (String c r)); [reflexivity | discriminate].
Qed.

Lemma replaceEscape_no_tilde d by_ s :
  occurs "~" s = false -> Js.replaceEscape d by_ s = s.
Proof.
  induction s as [|c r IH]; [reflexivity|].
  cbn [occurs Js.replaceEscape]. intros H. apply orb_false_iff in H as [Hc Hr].
  rewrite Hc, IH by exact Hr. reflexivity.
Qed.

(** [parse] returns only relative pointers that satisfy the invariant. *)
Lemma relative_parse_establishes_invariant path rp :
  RelativePointer.parse path = Ok rp -> validRelative rp = true.
Proof.
  unfold RelativePointer.parse.
  destruct (Js.matchesOriginPrefix path) eqn:Hprefix; cbn [negb]; [|discriminate].
  change ("/" ++ path)%string with (String "/" path).
  unfold Pointer.parse.
  destruct (Js.hasInvalidEscape (String "/" path)); [discriminate|].
  cbn [Ascii.eqb Bool.eqb negb bind Pointer.getSegments segments].
  destruct (split_head path) as [rest Hsplit]. rewrite Hsplit. cbn [map].
  unfold RelativePointer.fromSegments. cbn [List.length Nat.eqb].
  destruct (Pointer.from (LikeSegments
              (Pointer.unescapeSegment (beforeSlash path)
                 :: map Pointer.unescapeSegment rest))) as [pointer|e] eqn:Hfrom;
    [|discriminate].
  cbn [bind]. intros H. inversion H; subst rp. clear H.
  pose proof (from_segments_establishes_invariant _ _ Hfrom) as Hvalid.
  cbn [Pointer.from] in Hfrom.
  destruct (fromSegments_in_range _ _ Hfrom) as [Hseg _].
  unfold validRelative, Pointer.getSegments. cbn [relativeSegments].
  unfold validPointer in Hvalid. rewrite Hseg in *. cbn [map] in *.
  rewrite Hvalid, andb_true_r.
  pose proof (matchesOriginPrefix_head path Hprefix) as Horigin.
  pose proof (matchesOrigin_no_tilde _ Horigin) as Htilde.
  unfold Pointer.unescapeSegment, Pointer.normalizeSegment at 2.
  cbn [segmentToString].
  destruct (Js.isDigits (beforeSlash path)) eqn:Hdigits.
  - assert (Hn : 0 <= Js.parseInt (beforeSlash path))
      by (apply parseInt_nonneg, isDigits_starts_with_digit, Hdigits).
    unfold Pointer.normalizeSegment. cbn [segmentToString].
    destruct (numberToString_parseInt _ Hn) as [-> ->].
    cbn [segmentToString]. apply isDigits_matchesOrigin.
    apply numberToString_parseInt. exact Hn.
  - rewrite !replaceEscape_no_tilde by (rewrite ?replaceEscape_no_tilde; exact Htilde).
    unfold Pointer.normalizeSegment. cbn [segmentToString]. rewrite Hdigits.
    exact Horigin.
Qed.

(** ** Relative pointers *)

Lemma validRelative_shape rp :
  validRelative rp = true ->
  exists first rest,
    relativeSegments rp = first :: rest
    /\ Js.matchesOrigin (segmentToString first) = true
    /\ forallb validSegment rest = true.
Proof.
  unfold validRelative. destruct (relativeSegments rp) as [|first rest]; [discriminate|].
  intros H. apply andb_true_iff in H as [Horigin Hvalid].
  cbn [forallb] in Hvalid. apply andb_true_iff in Hvalid as [_ Hrest].
  eauto.
Qed.

Lemma getParentIndex_nonneg rp :
  validRelative rp = true -> 0 <= RelativePointer.getParentIndex rp.
Proof.
  intros H. destruct (validRelative_shape rp H) as [first [rest [Hseg [Horigin _]]]].
  unfold RelativePointer.getParentIndex, RelativePointer.origin. rewrite Hseg.
  unfold Js.matchesOrigin in Horigin. apply andb_true_iff in Horigin as [Hdigit _].
  destruct (segmentToString first) as [|c r]; [discriminate|].
  cbn [Js.startsWithDigit] in Hdigit.
  unfold Js.parseInt. destruct (digit_not_sign c Hdigit) as [-> ->].
  apply digitsValue_nonneg.
Qed.

Lemma getRemainderPointer_valid rp :
  validRelative rp = true ->
  RelativePointer.getRemainderPointer rp = Ok (mkPointer (tl (relativeSegments rp))).
Proof.
  intros H. destruct (validRelative_shape rp H) as [first [rest [Hseg [_ Hrest]]]].
  unfold RelativePointer.getRemainderPointer. rewrite Hseg. cbn [tl].
  apply from_valid_segments. exact Hrest.
Qed.

Lemma resolve_within_bounds (rp : JsonRelativePointer) (base : JsonPointer) :
  validRelative rp = true ->
  forallb validSegment
    (firstn (Z.to_nat (Pointer.getDepth base - RelativePointer.getParentIndex rp))
       (segments base)) = true ->
  RelativePointer.isKeyPointer rp = false ->
  RelativePointer.getParentIndexOffset rp = 0 ->
  RelativePointer.getParentIndex rp <= Pointer.getDepth base ->
  RelativePointer.resolve rp (LikePointer base)
  = Ok (mkPointer
          (firstn (Z.to_nat (Pointer.getDepth base - RelativePointer.getParentIndex rp))
             (segments base)
             ++ tl (relativeSegments rp))).
Proof.
  intros Hrp Hbase Hkey Hoffset Hle.
  pose proof (getParentIndex_nonneg rp Hrp) as HN.
  destruct (validRelative_shape rp Hrp) as [first [rest [Hseg [_ Hrest]]]].
  unfold Pointer.getDepth in *.
  unfold RelativePointer.resolve, Pointer.getSegments.
  rewrite Hkey, Hoffset. change (Pointer.from (LikePointer base)) with (Ok base).
  cbn [Z.eqb negb bind].
  set (n := RelativePointer.getParentIndex rp) in *.
  rewrite (Z.gtb_ltb n (Z.of_nat _)).
  replace (Z.of_nat (List.length (segments base)) <? n) with false
    by (symmetry; apply Z.ltb_ge; lia).
  assert (Hprefix :
            (if n >? 0
             then firstn (List.length (segments base) - Z.to_nat n) (segments base)
             else segments base)
            = firstn (Z.to_nat (Z.of_nat (List.length (segments base)) - n))
                (segments base)).
  { rewrite Z.gtb_ltb.
    destruct (Z.ltb_spec 0 n) as [Hpos | Hzero].
    - f_equal. lia.
    - replace n with 0 by lia. rewrite Z.sub_0_r, Nat2Z.id, firstn_all. reflexivity. }
  rewrite Hprefix. apply from_valid_segments.
  rewrite forallb_app. rewrite Hseg. cbn [tl]. rewrite Hrest, andb_true_r.
  exact Hbase.
Qed.

Lemma normalizeSegment_shaped segment :
  shapedSegment segment = true -> Pointer.normalizeSegment segment = segment.
Proof.
  unfold Pointer.normalizeSegment.
  destruct segment as [n | s]; cbn [shapedSegment segmentToString].
  - intros Hn. apply Z.leb_le in Hn.
    destruct (numberToString_parseInt n Hn) as [-> ->]. reflexivity.
  - intros H. apply negb_true_iff in H. rewrite H. reflexivity.
Qed.

Lemma normalizeSegments_shaped l :
  forallb shapedSegment l = true -> map Pointer.normalizeSegment l = l.
Proof.
  induction l as [|segment l IH]; [reflexivity|].
  cbn [forallb]. intros H. apply andb_true_iff in H as [Hs Hl].
  cbn [map]. rewrite normalizeSegment_shaped by exact Hs. now rewrite IH.
Qed.

(** A shaped list that breaks the invariant holds an index above the
    largest safe integer. *)
Lemma shaped_not_valid l :
  forallb shapedSegment l = true -> forallb validSegment l = false ->
  exists n, In (SegNum n) l /\ Pointer.MAX_SAFE_INTEGER < n.
Proof.
  induction l as [|segment l IH]; [discriminate|].
  cbn [forallb]. intros Hshape Hvalid.
  apply andb_true_iff in Hshape as [Hs Hl].
  destruct (validSegment segment) eqn:Hsegment.
  - cbn [andb] in Hvalid. destruct (IH Hl Hvalid) as [n [Hin Hn]].
    exists n. split; [right; exact Hin | exact Hn].
  - destruct segment as [n | key]; cbn [shapedSegment validSegment] in *;
      [|rewrite Hs in Hsegment; discriminate].
    rewrite Hs in Hsegment. cbn [andb] in Hsegment.
    unfold Pointer.isSafeInteger in Hsegment. apply Z.leb_le in Hs.
    apply andb_false_iff in Hsegment as [H | H]; apply Z.leb_gt in H.
    + unfold Pointer.MAX_SAFE_INTEGER in H. lia.
    + exists n. split; [left; reflexivity | exact H].
Qed.

(** [from] on a list of shaped segments followed by segments that satisfy
    the invariant: the pointer made of these segments, unless an index of
    the first part is above the largest safe integer. *)
Lemma from_shaped_segments l rest :
  forallb shapedSegment l = true -> forallb validSegment rest = true ->
  (forallb validSegment l = true ->
   Pointer.from (LikeSegments (l ++ rest)) = Ok (mkPointer (l ++ rest)))
  /\ (forallb validSegment l = false ->
      exists n,
        In (SegNum n) l /\ Pointer.MAX_SAFE_INTEGER < n
        /\ Pointer.from (LikeSegments (l ++ rest))
           = Throw (mkError InvalidSyntaxError
                      ("Invalid integer segment " ++ Js.quote ++ Js.numberToString n
                         ++ Js.quote ++ "."))).
Proof.
  intros Hshape Hrest. split.
  - intros Hvalid. apply from_valid_segments. rewrite forallb_app, Hvalid, Hrest.
    reflexivity.
  - intros Hvalid. destruct (shaped_not_valid l Hshape Hvalid) as [n [Hin Hn]].
    assert (Hall : forallb shapedSegment (l ++ rest) = true)
      by (rewrite forallb_app, Hshape; cbn [andb];
          exact (validPointer_shaped (mkPointer rest) Hrest)).
    destruct (checkSegments_rejects (l ++ rest) n) as [m [Hm [Hout Hcheck]]];
      [apply in_or_app; left; exact Hin | right; exact Hn|].
    assert (Hnonneg : 0 <= m).
    { rewrite forallb_forall in Hall. specialize (Hall _ Hm).
      cbn [shapedSegment] in Hall. apply Z.leb_le in Hall. exact Hall. }
    exists m. split; [|split; [lia|]].
    + apply in_app_or in Hm. destruct Hm as [Hm | Hm]; [exact Hm|].
      rewrite forallb_forall in Hrest. specialize (Hrest _ Hm).
      cbn [validSegment] in Hrest. apply andb_true_iff in Hrest as [_ Hsafe].
      unfold Pointer.isSafeInteger in Hsafe. apply andb_true_iff in Hsafe as [_ Hsafe].
      apply Z.leb_le in Hsafe. lia.
    + cbn [Pointer.from]. rewrite (normalizeSegments_shaped _ Hall).
      unfold Pointer.fromSegments. rewrite Hcheck. reflexivity.
Qed.

(** C8, amended. A relative pointer that is not a key pointer and has no
    offset, resolved against a base pointer of depth [D] with parent index
    [N], both as the constructors build them (the base has non-negative
    indices and no key made of digits, which [parse] guarantees too): the
    call fails as out of bounds exactly when [N > D].  Otherwise,
    when the segments of the base that are kept (all but the last [N])
    satisfy the invariant, it returns them followed by the segments after the
    origin token; when one of them is an index above the largest safe
    integer, which a pointer returned by [parse] may hold, it throws a syntax
    error that names such an index.  With [N = 0] the base is kept whole, and
    [parse("0").resolve(parse("/foo/bar"))] equals [parse("/foo/bar")]. *)
Theorem resolve_truncates_and_appends (rp : JsonRelativePointer) (base : JsonPointer) :
  validRelative rp = true ->
  forallb shapedSegment (segments base) = true ->
  RelativePointer.isKeyPointer rp = false ->
  RelativePointer.getParentIndexOffset rp = 0 ->
  let N := RelativePointer.getParentIndex rp in
  let D := Pointer.getDepth base in
  let kept := firstn (Z.to_nat (D - N)) (segments base) in
  (N > D <->
   RelativePointer.resolve rp (LikePointer base)
   = Throw (mkError JsonPointerError "The relative pointer is out of bounds."))
  /\ (N <= D -> forallb validSegment kept = true ->
      RelativePointer.resolve rp (LikePointer base)
      = Ok (mkPointer (kept ++ tl (relativeSegments rp))))
  /\ (N <= D -> forallb validSegment kept = false ->
      exists n,
        In (SegNum n) kept /\ Pointer.MAX_SAFE_INTEGER < n
        /\ RelativePointer.resolve rp (LikePointer base)
           = Throw (mkError InvalidSyntaxError
                      ("Invalid integer segment " ++ Js.quote ++ Js.numberToString n
                         ++ Js.quote ++ ".")))
  /\ (N = 0 -> validPointer base = true ->
      RelativePointer.resolve rp (LikePointer base)
      = Ok (mkPointer (segments base ++ tl (relativeSegments rp))))
  /\ (relative <- RelativePointer.parse "0" ;;
      absolute <- Pointer.parse "/foo/bar" ;;
      resolved <- RelativePointer.resolve relative (LikePointer absolute) ;;
      Ok (Pointer.equals resolved absolute)) = Ok true.
Proof.
  intros Hrp Hbase Hkey Hoffset N D kept.
  pose proof (getParentIndex_nonneg rp Hrp) as HN. fold N in HN.
  destruct (validRelative_shape rp Hrp) as [first [rest [Hseg [_ Hrest]]]].
  assert (Hkept : forallb shapedSegment kept = true)
    by (apply forallb_firstn; exact Hbase).
  assert (Hresolve : N <= D ->
            RelativePointer.resolve rp (LikePointer base)
            = Pointer.from (LikeSegments (kept ++ tl (relativeSegments rp)))).
  { intros Hle. unfold RelativePointer.resolve, Pointer.getSegments.
    rewrite Hkey, Hoffset. change (Pointer.from (LikePointer base)) with (Ok base).
    cbn [Z.eqb negb bind]. fold N. unfold kept, D, Pointer.getDepth in *.
    rewrite (Z.gtb_ltb N (Z.of_nat _)).
    replace (Z.of_nat (List.length (segments base)) <? N) with false
      by (symmetry; apply Z.ltb_ge; lia).
    rewrite Z.gtb_ltb.
    destruct (Z.ltb_spec 0 N) as [Hpos | Hzero].
    - replace (List.length (segments base) - Z.to_nat N)%nat
        with (Z.to_nat (Z.of_nat (List.length (segments base)) - N)) by lia.
      reflexivity.
    - replace N with 0 by lia. rewrite Z.sub_0_r, Nat2Z.id, firstn_all. reflexivity. }
  rewrite Hseg in *. cbn [tl] in *.
  destruct (from_shaped_segments kept rest Hkept Hrest) as [Hvalid Hunsafe].
  split; [|split; [|split; [|split]]].
  - split.
    + intros Hgt. unfold RelativePointer.resolve, Pointer.getSegments.
      rewrite Hkey, Hoffset. change (Pointer.from (LikePointer base)) with (Ok base).
      cbn [Z.eqb negb bind].
      fold N. unfold D, Pointer.getDepth in Hgt.
      replace (N >? Z.of_nat (List.length (segments base))) with true
        by (symmetry; apply Z.gtb_lt; lia).
      reflexivity.
    + intros Hthrow. destruct (Z.le_gt_cases N D) as [Hle | Hgt]; [|lia].
      rewrite (Hresolve Hle) in Hthrow.
      destruct (forallb validSegment kept) eqn:E.
      * rewrite (Hvalid eq_refl) in Hthrow. discriminate.
      * destruct (Hunsafe eq_refl) as [n [_ [_ Hn]]]. rewrite Hn in Hthrow.
        discriminate.
  - intros Hle Hall. rewrite (Hresolve Hle). apply Hvalid. exact Hall.
  - intros Hle Hall. rewrite (Hresolve Hle). apply Hunsafe. exact Hall.
  - intros Hzero Hall.
    assert (Hk : kept = segments base).
    { unfold kept, D, Pointer.getDepth. rewrite Hzero.
      rewrite Z.sub_0_r, Nat2Z.id, firstn_all. reflexivity. }
    rewrite Hresolve by (unfold D, Pointer.getDepth; lia).
    rewrite <- Hk. apply Hvalid. rewrite Hk. exact Hall.
  - reflexivity.
Qed.

(** C8, the counterexample: [parse] returns a pointer with the index
    [2^53]; resolving the relative pointer [0] against it is within bounds and
    yet does not return the base. *)
Lemma resolve_rejects_unsafe_base :
  let rp := mkRelative [SegNum 0] in
  let base := mkPointer [SegNum 9007199254740992] in
  RelativePointer.parse "0" = Ok rp
  /\ Pointer.parse "/9007199254740992" = Ok base
  /\ RelativePointer.isKeyPointer rp = false
  /\ RelativePointer.getParentIndexOffset rp = 0
  /\ RelativePointer.getParentIndex rp = 0
  /\ Pointer.getDepth base = 1
  /\ RelativePointer.resolve rp (LikePointer base)
     = Throw (mkError InvalidSyntaxError
                ("Invalid integer segment " ++ Js.quote ++ "9007199254740992"
                   ++ Js.quote ++ "."))
  /\ RelativePointer.resolve rp (LikePointer base)
     <> Ok (mkPointer (segments base ++ tl (relativeSegments rp))).
Proof.
  intros rp base. split; [vm_compute; reflexivity|]. split; [vm_compute; reflexivity|].
  split; [reflexivity|]. split; [reflexivity|]. split; [reflexivity|].
  split; [reflexivity|]. split; [vm_compute; reflexivity|].
  vm_compute. discriminate.
Qed.

Lemma resolve_truncates_and_appends_witness :
  let rp := mkRelative [SegNum 2; SegStr "qux"] in
  let base := mkPointer [SegStr "foo"; SegStr "bar"; SegStr "quz"] in
  validRelative rp = true
  /\ forallb shapedSegment (segments base) = true
  /\ RelativePointer.isKeyPointer rp = false
  /\ RelativePointer.getParentIndexOffset rp = 0
  /\ RelativePointer.resolve rp (LikePointer base)
     = Ok (mkPointer [SegStr "foo"; SegStr "qux"]).
Proof.
  intros rp base.
  split; [reflexivity|]. split; [reflexivity|]. split; [reflexivity|].
  split; [reflexivity|].
  apply (proj1 (proj2 (resolve_truncates_and_appends rp base
                         eq_refl eq_refl eq_refl eq_refl)));
    [discriminate | reflexivity].
Defined.

(** ** Reading through a relative pointer *)

Lemma lookup_app pre : forall post root middle,
  lookup pre root = Some middle -> lookup (pre ++ post) root = lookup post middle.
Proof.
  induction pre as [|segment pre IH]; intros post root middle H.
  - simpl in H. inversion H; subst. reflexivity.
  - cbn [lookup app] in *.
    destruct root as [| | b | m | s | elements | properties | name |]; try discriminate;
      destruct segment as [n | key]; try discriminate.
    + destruct (n >=? Json.lengthOf elements); [discriminate | auto].
    + destruct (Json.hasProperty properties key); [auto | discriminate].
    + destruct (Json.inPrototype key); [auto | discriminate].
Qed.

(** The value held by the [k]-th entry of a completed loop is the one the
    first [k] segments lead to. *)
Lemma traverseLoop_prefix_lookup rest : forall this i current entries k,
  Pointer.traverseLoop this i rest current = (entries, None) ->
  lookup (firstn k rest) current = Some (finalValue current (firstn k entries)).
Proof.
  induction rest as [|segment rest IH]; intros this i current entries k H.
  - simpl in H. inversion H; subst. destruct k; reflexivity.
  - destruct k as [|k].
    + reflexivity.
    + cbn [Pointer.traverseLoop firstn lookup] in *.
      destruct current as [| | b | m | s | elements | properties | name |];
        try (revert H; name_reference_error; discriminate).
      * destruct segment as [n | s].
        -- destruct (n >=? Json.lengthOf elements);
             [revert H; name_reference_error; discriminate|].
           destruct (Pointer.traverseLoop this (S i) rest (Json.arrayGet elements n))
             as [es [e|]] eqn:E; [discriminate|].
           inversion H; subst. cbn [firstn]. rewrite finalValue_cons.
           eapply IH. exact E.
        -- destruct (String.eqb s "-"); revert H; name_reference_error; discriminate.
      * destruct segment as [n | s]; [revert H; name_reference_error; discriminate|].
        destruct (Json.hasProperty properties s); cbn [negb] in *;
          [|revert H; name_reference_error; discriminate].
        destruct (Pointer.traverseLoop this (S i) rest (Json.getProperty properties s))
          as [es [e|]] eqn:E; [discriminate|].
        inversion H; subst. cbn [firstn]. rewrite finalValue_cons.
        eapply IH. exact E.
      * destruct segment as [n | s]; [revert H; name_reference_error; discriminate|].
        destruct (Json.inPrototype s); cbn [negb] in *;
          [|revert H; name_reference_error; discriminate].
        destruct (Pointer.traverseLoop this (S i) rest (Json.prototypeGet s))
          as [es [e|]] eqn:E; [discriminate|].
        inversion H; subst. cbn [firstn]. rewrite finalValue_cons.
        eapply IH. exact E.
Qed.

Lemma arrayGet_within bound elements n :
  forallb (arraysWithin bound) elements = true ->
  arraysWithin bound (Json.arrayGet elements n) = true.
Proof.
  intros H. unfold Json.arrayGet. destruct (n <? 0); [reflexivity|].
  destruct (nth_in_or_default (Z.to_nat n) elements JUndefined) as [Hin | ->];
    [|reflexivity].
  rewrite forallb_forall in H. auto.
Qed.

Lemma prototypeGet_within bound key : arraysWithin bound (Json.prototypeGet key) = true.
Proof.
  unfold Json.prototypeGet. destruct (String.eqb key "__proto__"); [reflexivity|].
  destruct (Json.inPrototype key); reflexivity.
Qed.

Lemma getOwnProperty_within bound properties key :
  forallb (fun kv => arraysWithin bound (snd kv)) properties = true ->
  arraysWithin bound (Json.getOwnProperty properties key) = true.
Proof.
  induction properties as [|[k w] t IH]; simpl; [reflexivity|].
  intros H. apply andb_true_iff in H as [Hw Ht].
  destruct (String.eqb k key); auto.
Qed.

Lemma getProperty_within bound properties key :
  forallb (fun kv => arraysWithin bound (snd kv)) properties = true ->
  arraysWithin bound (Json.getProperty properties key) = true.
Proof.
  intros H. unfold Json.getProperty.
  destruct (Json.hasOwnProperty properties key); [apply getOwnProperty_within; exact H|].
  destruct (String.eqb key "__proto__"); [reflexivity | apply prototypeGet_within].
Qed.

(** A path that resolves in a tree whose arrays have a safe length has only
    safe indices. *)
Lemma lookup_shaped_valid path : forall root v,
  forallb shapedSegment path = true ->
  arraysWithin Pointer.MAX_SAFE_INTEGER root = true ->
  lookup path root = Some v ->
  forallb validSegment path = true.
Proof.
  induction path as [|segment rest IH]; intros root v Hshape Hroot Hv; [reflexivity|].
  cbn [forallb] in Hshape. apply andb_true_iff in Hshape as [Hseg Hrest].
  cbn [lookup] in Hv. cbn [forallb].
  destruct root as [| | b | m | s | elements | properties | name |]; try discriminate;
    destruct segment as [n | key]; try discriminate.
  - destruct (n >=? Json.lengthOf elements) eqn:E; [discriminate|].
    rewrite Z.geb_leb in E. apply Z.leb_gt in E.
    cbn [arraysWithin] in Hroot. apply andb_true_iff in Hroot as [Hlen Hall].
    apply Z.leb_le in Hlen. cbn [shapedSegment] in Hseg. apply Z.leb_le in Hseg.
    apply andb_true_iff. split.
    + cbn [validSegment]. unfold Pointer.isSafeInteger, Pointer.MAX_SAFE_INTEGER in *.
      apply andb_true_iff. split; [apply Z.leb_le; lia|].
      apply andb_true_iff. split; apply Z.leb_le; lia.
    + eapply IH; [exact Hrest | | exact Hv]. apply arrayGet_within. exact Hall.
  - destruct (Json.hasProperty properties key); [|discriminate].
    cbn [arraysWithin] in Hroot.
    apply andb_true_iff. split; [exact Hseg|].
    eapply IH; [exact Hrest | | exact Hv]. apply getProperty_within. exact Hroot.
  - destruct (Json.inPrototype key); [|discriminate].
    apply andb_true_iff. split; [exact Hseg|].
    eapply IH; [exact Hrest | | exact Hv]. apply prototypeGet_within.
Qed.

(** C10. For a relative pointer that is not a key pointer and has no
    offset: whenever [get] against a root and a base pointer returns a value,
    [resolve] against the base returns an absolute pointer, and [get] of the
    root at that pointer returns the same value. *)
Theorem relative_get_agrees_with_resolve (rp : JsonRelativePointer)
  (root : JsonValue) (base : JsonPointer) (v : JsonValue) :
  validRelative rp = true ->
  forallb shapedSegment (segments base) = true ->
  arraysWithin Pointer.MAX_SAFE_INTEGER root = true ->
  RelativePointer.isKeyPointer rp = false ->
  RelativePointer.getParentIndexOffset rp = 0 ->
  RelativePointer.V1.get rp root base = Ok v ->
  exists absolute,
    RelativePointer.resolve rp (LikePointer base) = Ok absolute
    /\ Pointer.get absolute root = Ok v.
Proof.
  intros Hrp Hbase Hroot Hkey Hoffset Hget.
  pose proof (getParentIndex_nonneg rp Hrp) as HN.
  unfold RelativePointer.V1.get, RelativePointer.V1.getReferenceStack,
    RelativePointer.referenceStack, Pointer.traverse in Hget.
  destruct (Pointer.traverseLoop base 0 (segments base) root) as [es [e|]] eqn:Hloop;
    [discriminate|].
  pose proof (traverseLoop_lookup (segments base) base 0%nat root) as Hlen.
  rewrite Hloop in Hlen. destruct Hlen as [_ Hlen].
  rewrite Hoffset, Hkey in Hget. cbn [Z.eqb negb List.length] in Hget.
  set (n := RelativePointer.getParentIndex rp) in *.
  destruct (n >=? Z.of_nat (S (List.length es))) eqn:Hbound; [discriminate|].
  rewrite Z.geb_leb in Hbound. apply Z.leb_gt in Hbound.
  cbn [bind] in Hget.
  rewrite (getRemainderPointer_valid rp Hrp) in Hget.
  replace (Z.to_nat (Z.of_nat (S (List.length es)) - n - 1 + 1))
    with (S (Z.to_nat (Z.of_nat (List.length (segments base)) - n))) in Hget by lia.
  cbn [firstn] in Hget.
  set (k := Z.to_nat (Z.of_nat (List.length (segments base)) - n)) in *.
  unfold RelativePointer.top in Hget.
  rewrite (@last_default_irrelevant Entry (None, root) (firstn k es)
             (None, JUndefined) (None, root)) in Hget.
  match type of Hget with
  | context [last ?l ?d] => destruct (last l d) as [segment value] eqn:Hlast
  end.
  cbn [bind] in Hget.
  assert (Hvalue : value = finalValue root (firstn k es)).
  { change value with (snd (segment, value)). rewrite <- Hlast.
    change (snd (last ((None, root) :: firstn k es) (None, root)))
      with (finalValue root ((None, root) :: firstn k es)).
    rewrite finalValue_cons. reflexivity. }
  pose proof (traverseLoop_prefix_lookup _ _ _ _ _ k Hloop) as Hprefix.
  rewrite <- Hvalue in Hprefix.
  apply get_lookup in Hget. cbn [segments] in Hget.
  eexists. split.
  - apply resolve_within_bounds; auto.
    + unfold Pointer.getDepth. fold n k.
      eapply lookup_shaped_valid; [|exact Hroot|exact Hprefix].
      apply forallb_firstn. exact Hbase.
    + unfold Pointer.getDepth. fold n. lia.
  - apply get_lookup. cbn [segments]. unfold Pointer.getDepth. fold n k.
    rewrite (lookup_app _ _ _ _ Hprefix). exact Hget.
Qed.

Lemma relative_get_agrees_with_resolve_witness :
  let rp := mkRelative [SegNum 1; SegNum 0] in
  let root := JObject [("foo", JArray [JString "bar"; JString "baz"])] in
  let base := mkPointer [SegStr "foo"; SegNum 1] in
  validRelative rp = true
  /\ forallb shapedSegment (segments base) = true
  /\ arraysWithin Pointer.MAX_SAFE_INTEGER root = true
  /\ RelativePointer.isKeyPointer rp = false
  /\ RelativePointer.getParentIndexOffset rp = 0
  /\ RelativePointer.V1.get rp root base = Ok (JString "bar")
  /\ exists absolute,
       RelativePointer.resolve rp (LikePointer base) = Ok absolute
       /\ Pointer.get absolute root = Ok (JString "bar").
Proof.
  intros rp root base.
  split; [reflexivity|]. split; [reflexivity|]. split; [reflexivity|].
  split; [reflexivity|]. split; [reflexivity|]. split; [reflexivity|].
  apply (relative_get_agrees_with_resolve rp root base (JString "bar")); reflexivity.
Defined.

(** ** The revisions of [JsonRelativePointer.set] *)

(** A stack that resolves does so whatever the class of the offset errors. *)
Lemma referenceStack_ok_any_class c c' rp root base stack :
  RelativePointer.referenceStack c rp root base = Ok stack ->
  RelativePointer.referenceStack c' rp root base = Ok stack.
Proof.
  unfold RelativePointer.referenceStack.
  destruct (Pointer.traverse base root) as [entries [e|]]; [discriminate|].
  destruct (RelativePointer.getParentIndex rp >=? Z.of_nat (List.length entries));
    [discriminate|].
  destruct (negb (RelativePointer.getParentIndexOffset rp =? 0)); [|auto].
  destruct (if Z.of_nat (List.length entries) - RelativePointer.getParentIndex rp - 1 - 1 <? 0
            then JUndefined
            else snd (RelativePointer.entryAt entries
                        (Z.of_nat (List.length entries)
                         - RelativePointer.getParentIndex rp - 1 - 1)));
    try discriminate.
  destruct (fst (RelativePointer.entryAt entries
                   (Z.of_nat (List.length entries)
                    - RelativePointer.getParentIndex rp - 1)))
    as [[index | key] |]; try discriminate.
  destruct ((index + RelativePointer.getParentIndexOffset rp <? 0)
            || (index + RelativePointer.getParentIndexOffset rp >=? Json.lengthOf elements));
    [discriminate | auto].
Qed.

(** C9, as the claim states it: the revisions are not extensionally equal.
    On the relative pointer [0/foo] against the empty object and the root
    base pointer, the first revision adds the property and the third throws. *)
Lemma set_revisions_disagree :
  let rp := mkRelative [SegNum 0; SegStr "foo"] in
  RelativePointer.parse "0/foo" = Ok rp
  /\ RelativePointer.V1.set rp (JObject []) (JBool true) Pointer.root
     = Ok (JObject [("foo", JBool true)])
  /\ RelativePointer.V3.set rp (JObject []) (JBool true) Pointer.root
     = Throw (mkError JsonPointerError "Cannot set the root value.")
  /\ ~ (forall this root value base,
          RelativePointer.V1.set this root value base
          = RelativePointer.V3.set this root value base).
Proof.
  intros rp. split; [reflexivity|]. split; [reflexivity|]. split; [reflexivity|].
  intros H. specialize (H rp (JObject []) (JBool true) Pointer.root).
  vm_compute in H. discriminate.
Qed.

(** A stack that does not resolve fails with the same message whatever the
    class of the offset errors. *)
Lemma referenceStack_throw_any_class c c' rp root base e :
  RelativePointer.referenceStack c rp root base = Throw e ->
  exists e',
    RelativePointer.referenceStack c' rp root base = Throw e'
    /\ errorMessage e' = errorMessage e.
Proof.
  unfold RelativePointer.referenceStack.
  destruct (Pointer.traverse base root) as [entries [failure|]].
  - intros H. inversion H; subst. eauto.
  - destruct (RelativePointer.getParentIndex rp >=? Z.of_nat (List.length entries)).
    + intros H. inversion H; subst. eexists. split; reflexivity.
    + destruct (negb (RelativePointer.getParentIndexOffset rp =? 0)); [|discriminate].
      destruct (if Z.of_nat (List.length entries)
                   - RelativePointer.getParentIndex rp - 1 - 1 <? 0
                then JUndefined
                else snd (RelativePointer.entryAt entries
                            (Z.of_nat (List.length entries)
                             - RelativePointer.getParentIndex rp - 1 - 1)));
        try (intros H; inversion H; subst; eexists; split; reflexivity).
      destruct (fst (RelativePointer.entryAt entries
                       (Z.of_nat (List.length entries)
                        - RelativePointer.getParentIndex rp - 1)))
        as [[index | key] |];
        try (intros H; inversion H; subst; eexists; split; reflexivity).
      destruct ((index + RelativePointer.getParentIndexOffset rp <? 0)
                || (index + RelativePointer.getParentIndexOffset rp
                    >=? Json.lengthOf elements)); [|discriminate].
      intros H; inversion H; subst; eexists; split; reflexivity.
Qed.

(** The message of an error of a traversal begins with none of the letters
    that the messages of the offset errors begin with. *)
Lemma traverseLoop_error_message rest : forall this i current entries e,
  Pointer.traverseLoop this i rest current = (entries, Some e) ->
  isOffsetError e = false.
Proof.
  induction rest as [|segment rest IH]; intros this i current entries e H;
    [discriminate|].
  cbn [Pointer.traverseLoop] in H.
  assert (Hmessage : forall c prefix suffix es,
             In c ["C"; "I"; "E"; "P"]%char ->
             (es, Pointer.referenceErrorAt this i (String c prefix) suffix)
             = (entries, Some e) ->
             isOffsetError e = false).
  { intros c prefix suffix es Hc Heq. unfold Pointer.referenceErrorAt in Heq.
    destruct (Pointer.truncatedAt this (Z.of_nat i)) as [location | failure] eqn:Hat.
    - inversion Heq; subst e. unfold isOffsetError. cbn [errorMessage].
      cbn [In] in Hc. destruct Hc as [<- | [<- | [<- | [<- | []]]]]; reflexivity.
    - inversion Heq; subst e. unfold Pointer.truncatedAt in Hat.
      destruct (Z.of_nat i =? 0); [discriminate|].
      destruct ((Z.of_nat i <? 0) || (Z.of_nat i >? Pointer.getDepth this));
        [|discriminate].
      inversion Hat. reflexivity. }
  destruct current as [| | b | m | s | elements | properties | name |];
    try (eapply (Hmessage "C"%char); [cbn [In]; tauto | exact H]).
  - destruct segment as [n | s].
    + destruct (n >=? Json.lengthOf elements);
        [eapply (Hmessage "I"%char); [cbn [In]; tauto | exact H]|].
      destruct (Pointer.traverseLoop this (S i) rest (Json.arrayGet elements n))
        as [es [e'|]] eqn:E; [|discriminate].
      inversion H; subst. eapply IH. exact E.
    + destruct (String.eqb s "-");
        [eapply (Hmessage "I"%char) | eapply (Hmessage "E"%char)];
        first [exact H | cbn [In]; tauto].
  - destruct segment as [n | s];
      [eapply (Hmessage "E"%char); [cbn [In]; tauto | exact H]|].
    destruct (negb (Json.hasProperty properties s));
      [eapply (Hmessage "P"%char); [cbn [In]; tauto | exact H]|].
    destruct (Pointer.traverseLoop this (S i) rest (Json.getProperty properties s))
      as [es [e'|]] eqn:E; [|discriminate].
    inversion H; subst. eapply IH. exact E.
  - destruct segment as [n | s];
      [eapply (Hmessage "E"%char); [cbn [In]; tauto | exact H]|].
    destruct (negb (Json.inPrototype s));
      [eapply (Hmessage "P"%char); [cbn [In]; tauto | exact H]|].
    destruct (Pointer.traverseLoop this (S i) rest (Json.prototypeGet s))
      as [es [e'|]] eqn:E; [|discriminate].
    inversion H; subst. eapply IH. exact E.
Qed.

(** A stack that does not resolve fails with the same error whatever the
    class of the offset errors, unless the error is one of these two: then
    it fails with that class and the same message. *)
Lemma referenceStack_throw_offset_class c rp root base e :
  RelativePointer.referenceStack InvalidReferenceError rp root base = Throw e ->
  RelativePointer.referenceStack c rp root base
  = Throw (if isOffsetError e then mkError c (errorMessage e) else e)
  /\ (isOffsetError e = true -> errorClass e = InvalidReferenceError).
Proof.
  unfold RelativePointer.referenceStack.
  destruct (Pointer.traverse base root) as [entries [failure|]] eqn:Htraverse.
  - intros H. inversion H; subst.
    assert (Hmessage : isOffsetError e = false).
    { unfold Pointer.traverse in Htraverse.
      destruct (Pointer.traverseLoop base 0 (segments base) root) as [es error] eqn:Hloop.
      inversion Htraverse; subst.
      exact (traverseLoop_error_message _ _ _ _ _ _ Hloop). }
    rewrite Hmessage. split; [reflexivity | discriminate].
  - destruct (RelativePointer.getParentIndex rp >=? Z.of_nat (List.length entries)).
    + intros H. inversion H; subst. split; [reflexivity | discriminate].
    + destruct (negb (RelativePointer.getParentIndexOffset rp =? 0)); [|discriminate].
      destruct (if Z.of_nat (List.length entries)
                   - RelativePointer.getParentIndex rp - 1 - 1 <? 0
                then JUndefined
                else snd (RelativePointer.entryAt entries
                            (Z.of_nat (List.length entries)
                             - RelativePointer.getParentIndex rp - 1 - 1)));
        try (intros H; inversion H; subst; split; reflexivity).
      destruct (fst (RelativePointer.entryAt entries
                       (Z.of_nat (List.length entries)
                        - RelativePointer.getParentIndex rp - 1)))
        as [[index | key] |];
        try (intros H; inversion H; subst; split; reflexivity).
      destruct ((index + RelativePointer.getParentIndexOffset rp <? 0)
                || (index + RelativePointer.getParentIndexOffset rp
                    >=? Json.lengthOf elements)); [|discriminate].
      intros H; inversion H; subst; split; reflexivity.
Qed.

(** C9, amended.  The first and second revisions are equal on every input.
    The third agrees with them on a key pointer; and, when the ancestor stack
    resolves, if the stack has at least two entries or the remainder pointer
    is the root.  When the stack resolves to a single entry and the remainder
    pointer is not the root, the first revision delegates to the remainder
    pointer's [set] against the stack-top value while the third throws
    "Cannot set the root value.".  When the stack does not resolve, the
    third revision throws the very error the first throws, of the same class
    and message, unless it is one of the two offset errors: these the first
    revision throws as [InvalidReferenceError] and the third as
    [JsonPointerError], with the same message. *)
Theorem set_revisions_agree_unless_single_entry (rp : JsonRelativePointer)
  (root value : JsonValue) (base : JsonPointer) :
  RelativePointer.V1.set rp root value base = RelativePointer.V2.set rp root value base
  /\ (RelativePointer.isKeyPointer rp = true ->
      RelativePointer.V3.set rp root value base = RelativePointer.V1.set rp root value base)
  /\ (forall stack,
        RelativePointer.V1.getReferenceStack rp root base = Ok stack ->
        ((2 <= List.length stack)%nat
         \/ (exists remainder,
               RelativePointer.getRemainderPointer rp = Ok remainder
               /\ Pointer.isRoot remainder = true) ->
         RelativePointer.V3.set rp root value base
         = RelativePointer.V1.set rp root value base)
        /\ (forall remainder,
              (List.length stack < 2)%nat ->
              RelativePointer.isKeyPointer rp = false ->
              RelativePointer.getRemainderPointer rp = Ok remainder ->
              Pointer.isRoot remainder = false ->
              RelativePointer.V1.set rp root value base
              = RelativePointer.setThroughRemainder root stack remainder value
              /\ RelativePointer.V3.set rp root value base
                 = Throw (mkError JsonPointerError "Cannot set the root value.")))
  /\ (forall e,
        RelativePointer.isKeyPointer rp = false ->
        RelativePointer.V1.getReferenceStack rp root base = Throw e ->
        RelativePointer.V1.set rp root value base = Throw e
        /\ RelativePointer.V3.set rp root value base
           = Throw (if isOffsetError e then mkError JsonPointerError (errorMessage e)
                    else e)
        /\ (isOffsetError e = true -> errorClass e = InvalidReferenceError)).
Proof.
  split; [reflexivity|]. split; [|split].
  - intros Hkey. unfold RelativePointer.V3.set, RelativePointer.V1.set.
    rewrite Hkey. reflexivity.
  - intros stack Hstack.
    pose proof (referenceStack_ok_any_class _ JsonPointerError _ _ _ _ Hstack) as Hstack3.
    unfold RelativePointer.V1.getReferenceStack in Hstack.
    split.
    + intros Hcase.
      unfold RelativePointer.V3.set, RelativePointer.V1.set,
        RelativePointer.V3.getReferenceStack, RelativePointer.V1.getReferenceStack.
      destruct (RelativePointer.isKeyPointer rp) eqn:Hkey; [reflexivity|].
      rewrite Hstack, Hstack3. cbn [bind].
      destruct Hcase as [Hlen | [remainder [Hrem Hisroot]]].
      * replace (List.length stack <? 2)%nat with false
          by (symmetry; apply Nat.ltb_ge; lia).
        destruct (RelativePointer.getRemainderPointer rp) as [remainder | e];
          cbn [bind]; reflexivity.
      * rewrite Hrem. cbn [bind]. rewrite Hisroot. cbn [negb].
        destruct (List.length stack <? 2)%nat; reflexivity.
    + intros remainder Hlen Hkey Hrem Hnonroot.
      unfold RelativePointer.V3.set, RelativePointer.V1.set,
        RelativePointer.V3.getReferenceStack, RelativePointer.V1.getReferenceStack.
      rewrite Hkey, Hstack, Hstack3. cbn [bind]. rewrite Hrem. cbn [bind].
      rewrite Hnonroot. cbn [negb].
      replace (List.length stack <? 2)%nat with true by (symmetry; apply Nat.ltb_lt; lia).
      split; reflexivity.
  - intros e Hkey Hstack.
    unfold RelativePointer.V1.getReferenceStack in Hstack.
    destruct (referenceStack_throw_offset_class JsonPointerError _ _ _ _ Hstack)
      as [Hstack3 Hclass].
    unfold RelativePointer.V3.set, RelativePointer.V1.set,
      RelativePointer.V3.getReferenceStack, RelativePointer.V1.getReferenceStack.
    rewrite Hkey, Hstack, Hstack3. cbn [bind].
    split; [reflexivity|]. split; [reflexivity | exact Hclass].
Qed.

Lemma set_revisions_agree_unless_single_entry_witness :
  let rp := mkRelative [SegNum 0; SegNum 1] in
  let root := JObject [("foo", JArray [JString "bar"; JString "baz"])] in
  let base := mkPointer [SegStr "foo"] in
  let stack : list Entry :=
    [(None, root); (Some (SegStr "foo"), JArray [JString "bar"; JString "baz"])] in
  RelativePointer.V1.getReferenceStack rp root base = Ok stack
  /\ (2 <= List.length stack)%nat
  /\ RelativePointer.V3.set rp root (JString "quz") base
     = RelativePointer.V1.set rp root (JString "quz") base
  /\ RelativePointer.V1.set rp root (JString "quz") base
     = Ok (JObject [("foo", JArray [JString "bar"; JString "quz"])]).
Proof.
  intros rp root base stack.
  split; [reflexivity|]. split; [apply le_n|]. split; [|reflexivity].
  exact (proj1 (proj1 (proj2 (proj2 (set_revisions_agree_unless_single_entry
                                       rp root (JString "quz") base)))
                  stack eq_refl)
           (or_introl (le_n 2))).
Defined.

(** ** The round trip, where it holds *)

Lemma substAll_absent c by_ s : count c s = 0%nat -> substAll c by_ s = s.
Proof.
  induction s as [|d r IH]; [reflexivity|].
  cbn [count substAll]. destruct (Ascii.eqb d c); [discriminate|].
  intros H. rewrite IH by exact H. reflexivity.
Qed.

(** Replacing the first occurrence replaces every occurrence when there is
    at most one. *)
Lemma replaceFirst_once c by_ s :
  (count c s <= 1)%nat -> Js.replaceFirst c by_ s = substAll c by_ s.
Proof.
  induction s as [|d r IH]; [reflexivity|].
  cbn [count Js.replaceFirst substAll]. destruct (Ascii.eqb d c).
  - intros H. rewrite substAll_absent by lia. reflexivity.
  - intros H. rewrite IH by exact H. reflexivity.
Qed.

Lemma count_slash_substAll_tilde s :
  count "/" (substAll "~" "~0" s) = count "/" s.
Proof.
  induction s as [|d r IH]; [reflexivity|].
  cbn [substAll]. destruct (Ascii.eqb d "~") eqn:E.
  - apply Ascii.eqb_eq in E. subst d. cbn. exact IH.
  - cbn [count]. rewrite IH. reflexivity.
Qed.

Lemma escapeSegment_once s :
  reservedAtMostOnce (SegStr s) = true ->
  Pointer.escapeSegment (SegStr s) = substAll "/" "~1" (substAll "~" "~0" s).
Proof.
  cbn [reservedAtMostOnce Pointer.escapeSegment]. intros H.
  apply andb_true_iff in H as [Htilde Hslash].
  apply Nat.leb_le in Htilde. apply Nat.leb_le in Hslash.
  rewrite (replaceFirst_once "~" "~0" s Htilde).
  apply replaceFirst_once. rewrite count_slash_substAll_tilde. exact Hslash.
Qed.

Ltac case_reserved c :=
  let E1 := fresh "Etilde" in
  let E2 := fresh "Eslash" in
  destruct (Ascii.eqb c "~") eqn:E1;
  [apply Ascii.eqb_eq in E1; subst c
  |destruct (Ascii.eqb c "/") eqn:E2;
   [apply Ascii.eqb_eq in E2; subst c|]].

(** The fully escaped form: its properties and its inverse. *)
Lemma escaped_unescape s :
  Js.replaceEscape "0" "~"
    (Js.replaceEscape "1" "/" (substAll "/" "~1" (substAll "~" "~0" s))) = s.
Proof.
  induction s as [|c r IH]; [reflexivity|].
  case_reserved c.
  - cbn. cbn in IH. rewrite IH. reflexivity.
  - cbn. cbn in IH. rewrite IH. reflexivity.
  - cbn [substAll]. rewrite Etilde. cbn [substAll]. rewrite Eslash.
    cbn [Js.replaceEscape]. rewrite Etilde. cbn [Js.replaceEscape]. rewrite Etilde.
    rewrite IH. reflexivity.
Qed.

Lemma escaped_no_slash s :
  occurs "/" (substAll "/" "~1" (substAll "~" "~0" s)) = false.
Proof.
  induction s as [|c r IH]; [reflexivity|].
  case_reserved c.
  - cbn. cbn in IH. exact IH.
  - cbn. cbn in IH. exact IH.
  - cbn [substAll]. rewrite Etilde. cbn [substAll]. rewrite Eslash.
    cbn [occurs]. rewrite Eslash. exact IH.
Qed.

Lemma escaped_valid_escapes s :
  Js.hasInvalidEscape (substAll "/" "~1" (substAll "~" "~0" s)) = false.
Proof.
  induction s as [|c r IH]; [reflexivity|].
  case_reserved c.
  - cbn. cbn in IH. exact IH.
  - cbn. cbn in IH. exact IH.
  - cbn [substAll]. rewrite Etilde. cbn [substAll]. rewrite Eslash.
    cbn [Js.hasInvalidEscape]. rewrite Etilde. exact IH.
Qed.

Lemma escaped_digits s :
  Js.isDigits (substAll "/" "~1" (substAll "~" "~0" s)) = true -> Js.isDigits s = true.
Proof.
  assert (Hall : forall t,
             Js.allDigitChars (substAll "/" "~1" (substAll "~" "~0" t)) = true ->
             Js.allDigitChars t = true).
  { induction t as [|c r IH]; [reflexivity|].
    case_reserved c.
    - cbn. discriminate.
    - cbn. discriminate.
    - cbn [substAll]. rewrite Etilde. cbn [substAll]. rewrite Eslash.
      cbn [Js.allDigitChars]. intros H. apply andb_true_iff in H as [Hc Hr].
      rewrite Hc, IH by exact Hr. reflexivity. }
  destruct s as [|c r]; [discriminate|].
  unfold Js.isDigits at 1.
  destruct (substAll "/" "~1" (substAll "~" "~0" (String c r))) eqn:E; [discriminate|].
  rewrite <- E. intros H. apply Hall in H. exact H.
Qed.

Lemma allDigits_no_reserved s :
  Js.allDigitChars s = true ->
  occurs "/" s = false /\ Js.hasInvalidEscape s = false.
Proof.
  induction s as [|c r IH]; [split; reflexivity|].
  cbn [Js.allDigitChars occurs Js.hasInvalidEscape]. intros H.
  apply andb_true_iff in H as [Hc Hr]. destruct (IH Hr) as [IH1 IH2].
  rewrite (digit_not_slash c Hc), (digit_not_tilde c Hc). split; assumption.
Qed.

(** What serializing one segment gives: no [/], only valid escapes, and a
    string that [unescapeSegment] turns back into the segment. *)
Lemma escapeSegment_inverse segment :
  validSegment segment = true -> reservedAtMostOnce segment = true ->
  occurs "/" (Pointer.escapeSegment segment) = false
  /\ Js.hasInvalidEscape (Pointer.escapeSegment segment) = false
  /\ Pointer.unescapeSegment (Pointer.escapeSegment segment) = segment.
Proof.
  destruct segment as [n | s]; intros Hvalid Honce.
  - cbn [validSegment] in Hvalid. apply andb_true_iff in Hvalid as [Hn _].
    apply Z.leb_le in Hn. cbn [Pointer.escapeSegment].
    destruct (numberToString_parseInt n Hn) as [Hdigits Hparse].
    assert (Hall : Js.allDigitChars (Js.numberToString n) = true).
    { unfold Js.isDigits in Hdigits.
      destruct (Js.numberToString n); [discriminate | exact Hdigits]. }
    destruct (allDigits_no_reserved _ Hall) as [H1 H2].
    split; [exact H1|]. split; [exact H2|].
    unfold Pointer.unescapeSegment, Pointer.normalizeSegment. cbn [segmentToString].
    rewrite Hdigits, Hparse. reflexivity.
  - rewrite (escapeSegment_once s Honce).
    split; [apply escaped_no_slash|]. split; [apply escaped_valid_escapes|].
    cbn [validSegment] in Hvalid. apply negb_true_iff in Hvalid.
    unfold Pointer.unescapeSegment, Pointer.normalizeSegment. cbn [segmentToString].
    destruct (Js.isDigits (substAll "/" "~1" (substAll "~" "~0" s))) eqn:E.
    + apply escaped_digits in E. congruence.
    + rewrite escaped_unescape. reflexivity.
Qed.

Lemma split_without_separator s : occurs "/" s = false -> Js.split "/" s = [s].
Proof.
  induction s as [|c r IH]; [reflexivity|].
  cbn [occurs Js.split]. intros H. apply orb_false_iff in H as [Hc Hr].
  rewrite Hc, IH by exact Hr. reflexivity.
Qed.

Lemma split_at_separator a b :
  occurs "/" a = false -> Js.split "/" (a ++ String "/" b) = a :: Js.split "/" b.
Proof.
  induction a as [|c r IH]; [reflexivity|].
  cbn [occurs]. intros H. apply orb_false_iff in H as [Hc Hr].
  change (String c r ++ String "/" b)%string with (String c (r ++ String "/" b)).
  cbn [Js.split]. rewrite Hc, IH by exact Hr. reflexivity.
Qed.

Lemma hasInvalidEscape_at_separator a b :
  Js.hasInvalidEscape a = false ->
  Js.hasInvalidEscape (a ++ String "/" b) = Js.hasInvalidEscape b.
Proof.
  induction a as [|c r IH]; [reflexivity|].
  intros H.
  change (String c r ++ String "/" b)%string with (String c (r ++ String "/" b)).
  cbn [Js.hasInvalidEscape] in *.
  destruct (Ascii.eqb c "~"); [|exact (IH H)].
  destruct r as [|d r']; [discriminate|].
  change (String d r' ++ String "/" b)%string with (String d (r' ++ String "/" b)) in *.
  cbv iota beta in *.
  destruct (Ascii.eqb d "0" || Ascii.eqb d "1"); [exact (IH H) | discriminate].
Qed.

(** Splitting the joined serialized segments gives them back, and the
    joined string holds only valid escapes. *)
Lemma split_join l :
  l <> [] ->
  (forall e, In e l -> occurs "/" e = false /\ Js.hasInvalidEscape e = false) ->
  Js.split "/" (Js.join "/" l) = l /\ Js.hasInvalidEscape (Js.join "/" l) = false.
Proof.
  unfold Js.join.
  induction l as [|a l IH]; [congruence|].
  intros _ Hall. destruct (Hall a (or_introl eq_refl)) as [Ha1 Ha2].
  destruct l as [|b l].
  - cbn [String.concat]. split; [apply split_without_separator; exact Ha1 | exact Ha2].
  - change (String.concat "/" (a :: b :: l))
      with (a ++ String "/" (String.concat "/" (b :: l)))%string.
    destruct IH as [IH1 IH2]; [discriminate | intros e He; apply Hall; right; exact He |].
    rewrite split_at_separator by exact Ha1.
    rewrite hasInvalidEscape_at_separator by exact Ha2.
    rewrite IH1. split; [reflexivity | exact IH2].
Qed.

Lemma equals_refl p : Pointer.equals p p = true.
Proof.
  unfold Pointer.equals. induction (segments p) as [|segment l IH]; [reflexivity|].
  cbn [Pointer.segmentsEqb]. rewrite IH, andb_true_r.
  destruct segment as [n | s]; cbn [segmentEqb];
    [apply Z.eqb_refl | apply String.eqb_refl].
Qed.

(** X9. Where the round trip holds: on the pointers that satisfy the invariant
    and in whose keys neither [~] nor [/] occurs twice,
    [parse(toString(p))] returns a pointer equal to [p]. *)
Theorem roundtrip_without_repeated_reserved_character (p : JsonPointer) :
  validPointer p = true ->
  forallb reservedAtMostOnce (segments p) = true ->
  Pointer.parse (Pointer.toString p) = Ok p
  /\ (parsed <- Pointer.parse (Pointer.toString p) ;; Ok (Pointer.equals parsed p))
     = Ok true.
Proof.
  intros Hvalid Honce.
  assert (Hparse : Pointer.parse (Pointer.toString p) = Ok p);
    [|split; [exact Hparse | rewrite Hparse; cbn [bind]; now rewrite equals_refl]].
  - destruct p as [segs]. unfold validPointer in Hvalid. cbn [segments] in *.
    unfold Pointer.toString, Pointer.isRoot. cbn [segments].
    destruct segs as [|first rest]; [reflexivity|].
    cbn [List.length Nat.eqb].
    change ("/" ++ Js.join "/" (map Pointer.escapeSegment (first :: rest)))%string
      with (String "/" (Js.join "/" (map Pointer.escapeSegment (first :: rest)))).
    assert (Hinverse : forall segment, In segment (first :: rest) ->
               occurs "/" (Pointer.escapeSegment segment) = false
               /\ Js.hasInvalidEscape (Pointer.escapeSegment segment) = false
               /\ Pointer.unescapeSegment (Pointer.escapeSegment segment) = segment).
    { intros segment Hin. rewrite forallb_forall in Hvalid, Honce.
      apply escapeSegment_inverse; auto. }
    destruct (split_join (map Pointer.escapeSegment (first :: rest))) as [Hsplit Hescape].
    + discriminate.
    + intros e He. apply in_map_iff in He as [segment [<- Hin]].
      destruct (Hinverse segment Hin) as [H1 [H2 _]]. split; assumption.
    + unfold Pointer.parse.
      change (Js.hasInvalidEscape
                (String "/" (Js.join "/" (map Pointer.escapeSegment (first :: rest)))))
        with (Js.hasInvalidEscape
                (Js.join "/" (map Pointer.escapeSegment (first :: rest)))).
      rewrite Hescape. cbn [Ascii.eqb Bool.eqb negb]. rewrite Hsplit.
      f_equal. f_equal. rewrite map_map.
      rewrite <- (map_id (first :: rest)) at 2.
      apply map_ext_in. intros segment Hin. apply Hinverse. exact Hin.
Qed.

Lemma roundtrip_without_repeated_reserved_character_witness :
  let p := mkPointer [SegStr "a/b"; SegNum 10; SegStr "m~n"; SegStr ""] in
  validPointer p = true
  /\ forallb reservedAtMostOnce (segments p) = true
  /\ Pointer.toString p = "/a~1b/10/m~0n/"
  /\ Pointer.parse (Pointer.toString p) = Ok p.
Proof.
  intros p. split; [reflexivity|]. split; [reflexivity|]. split; [reflexivity|].
  exact (proj1 (roundtrip_without_repeated_reserved_character p eq_refl eq_refl)).
Defined.

(** ** The two revisions of [JsonPointer.get] *)

Lemma throwReferenceErrorAt_referenceErrorAt this i prefix suffix :
  match Pointer.referenceErrorAt this i prefix suffix with
  | Some e => Legacy.throwReferenceErrorAt this i prefix suffix = Throw e
  | None => False
  end.
Proof.
  unfold Pointer.referenceErrorAt, Legacy.throwReferenceErrorAt.
  destruct (Pointer.truncatedAt this (Z.of_nat i)); reflexivity.
Qed.

Ltac same_reference_error :=
  match goal with
  | |- context [Pointer.referenceErrorAt ?this ?i ?prefix ?suffix] =>
      let H := fresh "H" in
      pose proof (throwReferenceErrorAt_referenceErrorAt this i prefix suffix) as H;
      destruct (Pointer.referenceErrorAt this i prefix suffix); [exact H | destruct H]
  end.

Lemma getLoop_traverseLoop rest : forall this i current,
  Legacy.getLoop this i rest current
  = match Pointer.traverseLoop this i rest current with
    | (_, Some e) => Throw e
    | (entries, None) => Ok (finalValue current entries)
    end.
Proof.
  induction rest as [|segment rest IH]; intros this i current; [reflexivity|].
  cbn [Legacy.getLoop Pointer.traverseLoop].
  destruct current as [| | b | m | s | elements | properties | name |];
    try same_reference_error.
  - destruct segment as [n | s].
    + destruct (n >=? Json.lengthOf elements); [same_reference_error|].
      rewrite IH.
      destruct (Pointer.traverseLoop this (S i) rest (Json.arrayGet elements n))
        as [entries [e|]]; [reflexivity|].
      rewrite finalValue_cons. reflexivity.
    + destruct (String.eqb s "-"); same_reference_error.
  - destruct segment as [n | s]; [same_reference_error|].
    destruct (negb (Json.hasProperty properties s)); [same_reference_error|].
    rewrite IH.
    destruct (Pointer.traverseLoop this (S i) rest (Json.getProperty properties s))
      as [entries [e|]]; [reflexivity|].
    rewrite finalValue_cons. reflexivity.
  - destruct segment as [n | s]; [same_reference_error|].
    destruct (negb (Json.inPrototype s)); [same_reference_error|].
    rewrite IH.
    destruct (Pointer.traverseLoop this (S i) rest (Json.prototypeGet s))
      as [entries [e|]]; [reflexivity|].
    rewrite finalValue_cons. reflexivity.
Qed.

(** X1. The two revisions of [get] agree on every pointer and value: the
    loop of the earlier revision returns the value, or throws the error, that
    draining [traverse] does. *)
Theorem legacy_get_agrees_with_traversal (this : JsonPointer) (structure : JsonValue) :
  Legacy.get this structure = Pointer.get this structure.
Proof.
  unfold Legacy.get, Pointer.get, Pointer.traverse.
  rewrite getLoop_traverseLoop.
  destruct (Pointer.traverseLoop this 0 (segments this) structure) as [entries [e|]];
    [reflexivity|].
  change (snd (last ((None, structure) :: entries) (None, structure)))
    with (finalValue structure ((None, structure) :: entries)).
  rewrite finalValue_cons. reflexivity.
Qed.

(** ** What [traverse] yields *)

Lemma traverseLoop_segments rest : forall this i current entries,
  Pointer.traverseLoop this i rest current = (entries, None) ->
  map fst entries = map Some rest.
Proof.
  induction rest as [|segment rest IH]; intros this i current entries H.
  - simpl in H. inversion H; subst. reflexivity.
  - cbn [Pointer.traverseLoop] in H.
    destruct current as [| | b | m | s | elements | properties | name |];
      try (revert H; name_reference_error; discriminate).
    + destruct segment as [n | s].
      * destruct (n >=? Json.lengthOf elements);
          [revert H; name_reference_error; discriminate|].
        destruct (Pointer.traverseLoop this (S i) rest (Json.arrayGet elements n))
          as [es [e|]] eqn:E; [discriminate|].
        inversion H; subst. cbn [map fst]. f_equal. eapply IH. exact E.
      * destruct (String.eqb s "-"); revert H; name_reference_error; discriminate.
    + destruct segment as [n | s]; [revert H; name_reference_error; discriminate|].
      destruct (Json.hasProperty properties s); cbn [negb] in *;
        [|revert H; name_reference_error; discriminate].
      destruct (Pointer.traverseLoop this (S i) rest (Json.getProperty properties s))
        as [es [e|]] eqn:E; [discriminate|].
      inversion H; subst. cbn [map fst]. f_equal. eapply IH. exact E.
    + destruct segment as [n | s]; [revert H; name_reference_error; discriminate|].
      destruct (Json.inPrototype s); cbn [negb] in *;
        [|revert H; name_reference_error; discriminate].
      destruct (Pointer.traverseLoop this (S i) rest (Json.prototypeGet s))
        as [es [e|]] eqn:E; [discriminate|].
      inversion H; subst. cbn [map fst]. f_equal. eapply IH. exact E.
Qed.

Lemma finalValue_firstn entries : forall current k (d : Entry),
  (k <= List.length entries)%nat ->
  finalValue current (firstn k entries) = snd (nth k ((None, current) :: entries) d).
Proof.
  induction entries as [|entry entries IH]; intros current k d Hk.
  - simpl in Hk. replace k with 0%nat by lia. reflexivity.
  - destruct k as [|k]; [reflexivity|].
    cbn [firstn]. rewrite finalValue_cons.
    rewrite (IH (snd entry) k d) by (simpl in Hk; lia).
    destruct k; reflexivity.
Qed.

(** X2. A traversal that runs to completion yields the root entry and then
    one entry per segment, in order: the [k]-th entry carries the [k]-th
    segment, and its value is what [get] returns for the pointer truncated
    to its first [k] segments. *)
Theorem traverse_yields_one_entry_per_segment (this : JsonPointer) (root : JsonValue)
  (entries : list Entry) :
  Pointer.traverse this root = (entries, None) ->
  List.length entries = S (List.length (segments this))
  /\ map fst entries = None :: map Some (segments this)
  /\ forall k, (k <= List.length (segments this))%nat ->
       Pointer.get (mkPointer (firstn k (segments this))) root
       = Ok (snd (nth k entries (None, JUndefined))).
Proof.
  unfold Pointer.traverse.
  destruct (Pointer.traverseLoop this 0 (segments this) root) as [es [e|]] eqn:Hloop;
    [discriminate|].
  intros H. inversion H; subst entries. clear H.
  pose proof (traverseLoop_lookup (segments this) this 0%nat root) as Hlen.
  rewrite Hloop in Hlen. destruct Hlen as [_ Hlen].
  split; [cbn [List.length]; now rewrite Hlen|].
  split; [cbn [map fst]; f_equal; eapply traverseLoop_segments; exact Hloop|].
  intros k Hk. apply get_lookup. cbn [segments].
  rewrite (traverseLoop_prefix_lookup _ _ _ _ _ k Hloop).
  f_equal. apply finalValue_firstn. lia.
Qed.

Lemma traverse_yields_one_entry_per_segment_witness :
  let this := mkPointer [SegStr "foo"; SegNum 1] in
  let root := JObject [("foo", JArray [JString "bar"; JString "baz"])] in
  let entries : list Entry :=
    [(None, root);
     (Some (SegStr "foo"), JArray [JString "bar"; JString "baz"]);
     (Some (SegNum 1), JString "baz")] in
  Pointer.traverse this root = (entries, None)
  /\ map fst entries = None :: map Some (segments this).
Proof.
  intros this root entries. split; [reflexivity|].
  exact (proj1 (proj2 (traverse_yields_one_entry_per_segment this root entries eq_refl))).
Defined.

(** ** Equality *)

Lemma segmentEqb_eq a b : segmentEqb a b = true <-> a = b.
Proof.
  destruct a as [n | s], b as [m | t]; cbn [segmentEqb].
  - rewrite Z.eqb_eq. split; [intros ->; reflexivity | intros H; inversion H; reflexivity].
  - split; discriminate.
  - split; discriminate.
  - rewrite String.eqb_eq.
    split; [intros ->; reflexivity | intros H; inversion H; reflexivity].
Qed.

Lemma segmentsEqb_eq a : forall b, Pointer.segmentsEqb a b = true <-> a = b.
Proof.
  induction a as [|x a IH]; intros [|y b]; cbn [Pointer.segmentsEqb];
    try (split; [reflexivity | reflexivity]); try (split; discriminate).
  rewrite andb_true_iff, segmentEqb_eq, IH.
  split; [intros [-> ->]; reflexivity | intros H; inversion H; auto].
Qed.

(** X3. [equals] decides equality of pointers: it returns [true] exactly
    when the two pointers have the same segments, a number never being equal
    to a string; so it is reflexive, symmetric and transitive. *)
Theorem equals_decides_equality (p q r : JsonPointer) :
  (Pointer.equals p q = true <-> p = q)
  /\ Pointer.equals p p = true
  /\ Pointer.equals p q = Pointer.equals q p
  /\ (Pointer.equals p q = true -> Pointer.equals q r = true -> Pointer.equals p r = true)
  /\ (forall n key, Pointer.equals (mkPointer [SegNum n]) (mkPointer [SegStr key]) = false).
Proof.
  assert (Hiff : forall a b, Pointer.equals a b = true <-> a = b).
  { intros [a] [b]. unfold Pointer.equals. cbn [segments]. rewrite segmentsEqb_eq.
    split; [intros ->; reflexivity | intros H; inversion H; reflexivity]. }
  split; [apply Hiff|]. split; [apply Hiff; reflexivity|]. split; [|split].
  - destruct (Pointer.equals p q) eqn:E1, (Pointer.equals q p) eqn:E2; try reflexivity.
    + apply Hiff in E1. subst q. rewrite (proj2 (Hiff p p) eq_refl) in E2. discriminate.
    + apply Hiff in E2. subst q. rewrite (proj2 (Hiff p p) eq_refl) in E1. discriminate.
  - intros H1 H2. apply Hiff in H1. apply Hiff in H2. apply Hiff. congruence.
  - intros n key. reflexivity.
Qed.

(** ** Truncation and parents *)

(** X4. [truncatedAt] returns the prefix of the given depth for every depth
    from [0] to the depth of the pointer (the pointer itself at its own
    depth) and throws "Depth ... is out of bounds." for any other depth;
    [getParent] is the truncation one level up, and throws on the root. *)
Theorem truncatedAt_is_prefix (this : JsonPointer) (depth : Z) :
  (0 <= depth <= Pointer.getDepth this ->
   exists truncated,
     Pointer.truncatedAt this depth = Ok truncated
     /\ segments truncated = firstn (Z.to_nat depth) (segments this)
     /\ Pointer.getDepth truncated = depth
     /\ (depth = Pointer.getDepth this -> truncated = this))
  /\ (depth < 0 \/ depth > Pointer.getDepth this ->
      Pointer.truncatedAt this depth
      = Throw (mkError JsonPointerError
                 ("Depth " ++ Js.numberToString depth ++ " is out of bounds.")))
  /\ (Pointer.isRoot this = false ->
      Pointer.getParent this = Pointer.truncatedAt this (Pointer.getDepth this - 1))
  /\ (Pointer.isRoot this = true ->
      Pointer.getParent this
      = Throw (mkError JsonPointerError "Cannot get parent of root pointer.")).
Proof.
  split; [|split; [|split]].
  - intros Hdepth. unfold Pointer.getDepth in Hdepth.
    pose proof (truncatedAt_within this (Z.to_nat depth)) as Hwithin.
    rewrite Z2Nat.id in Hwithin by lia.
    eexists. split; [apply Hwithin; lia|]. cbn [segments]. split; [reflexivity|]. split.
    + unfold Pointer.getDepth. cbn [segments]. rewrite length_firstn. lia.
    + intros Hfull. unfold Pointer.getDepth in Hfull.
      replace (Z.to_nat depth) with (List.length (segments this)) by lia.
      rewrite firstn_all. destruct this; reflexivity.
  - intros Hdepth. unfold Pointer.truncatedAt.
    assert (H0 : 0 <= Pointer.getDepth this) by (unfold Pointer.getDepth; lia).
    replace (depth =? 0) with false by (symmetry; apply Z.eqb_neq; lia).
    destruct Hdepth as [Hneg | Hbig].
    + replace (depth <? 0) with true by (symmetry; apply Z.ltb_lt; lia). reflexivity.
    + replace (depth >? Pointer.getDepth this) with true
        by (symmetry; apply Z.gtb_lt; lia).
      rewrite orb_true_r. reflexivity.
  - intros Hroot. rewrite (getParent_nonroot this Hroot).
    pose proof (isRoot_false_nonempty this Hroot) as Hne.
    assert (Hlen : (0 < List.length (segments this))%nat)
      by (destruct (segments this); [congruence | simpl; lia]).
    unfold Pointer.getDepth.
    replace (Z.of_nat (List.length (segments this)) - 1)
      with (Z.of_nat (pred (List.length (segments this)))) by lia.
    rewrite truncatedAt_within by lia.
    rewrite removelast_firstn_len. reflexivity.
  - unfold Pointer.isRoot, Pointer.getParent. intros ->. reflexivity.
Qed.

(** ** Joining *)

(** X5. Joining two pointers that satisfy the invariant returns the pointer
    made of the segments of the first followed by those of the second, which
    satisfies the invariant; its depth is the sum of the depths and truncating
    it at the depth of the first gives the first back.  Joining with the root
    pointer returns the pointer as it is, whatever it holds. *)
Theorem joinedWith_concatenates (p q : JsonPointer) :
  validPointer p = true ->
  validPointer q = true ->
  let joined := mkPointer (segments p ++ segments q) in
  Pointer.joinedWith p (LikePointer q) = Ok joined
  /\ validPointer joined = true
  /\ Pointer.getDepth joined = Pointer.getDepth p + Pointer.getDepth q
  /\ Pointer.truncatedAt joined (Pointer.getDepth p) = Ok p
  /\ Pointer.joinedWith Pointer.root (LikePointer q) = Ok q
  /\ (forall any, Pointer.joinedWith any (LikePointer Pointer.root) = Ok any).
Proof.
  intros Hp Hq joined.
  assert (Hjoined : validPointer joined = true).
  { unfold validPointer, joined in *. cbn [segments]. rewrite forallb_app, Hp, Hq.
    reflexivity. }
  assert (Hjoin : forall a, validPointer a = true ->
            Pointer.joinedWith a (LikePointer q) = Ok (mkPointer (segments a ++ segments q))).
  { intros a Ha. unfold Pointer.joinedWith. cbn [Pointer.from bind].
    unfold Pointer.isRoot.
    destruct (segments q) as [|first rest] eqn:Hsegs; cbn [List.length Nat.eqb].
    - rewrite app_nil_r. destruct a; reflexivity.
    - unfold Pointer.fromSegments. rewrite checkSegments_valid; [reflexivity|].
      unfold validPointer in Ha, Hq. rewrite Hsegs in Hq.
      rewrite forallb_app, Ha, Hq. reflexivity. }
  split; [apply Hjoin; exact Hp|]. split; [exact Hjoined|]. split; [|split; [|split]].
  - unfold Pointer.getDepth, joined. cbn [segments]. rewrite length_app. lia.
  - unfold Pointer.getDepth.
    rewrite truncatedAt_within
      by (unfold joined; cbn [segments]; rewrite length_app; lia).
    unfold joined. cbn [segments].
    rewrite firstn_app, Nat.sub_diag, firstn_all. cbn [firstn]. rewrite app_nil_r.
    destruct p; reflexivity.
  - rewrite (Hjoin Pointer.root eq_refl). cbn [Pointer.root segments app].
    destruct q; reflexivity.
  - intros any. reflexivity.
Qed.

Lemma joinedWith_concatenates_witness :
  let p := mkPointer [SegStr "foo"; SegNum 0] in
  let q := mkPointer [SegStr "bar"] in
  validPointer p = true
  /\ validPointer q = true
  /\ Pointer.joinedWith p (LikePointer q)
     = Ok (mkPointer [SegStr "foo"; SegNum 0; SegStr "bar"]).
Proof.
  intros p q. split; [reflexivity|]. split; [reflexivity|].
  exact (proj1 (joinedWith_concatenates p q eq_refl eq_refl)).
Defined.

(** ** Construction from segments and numbers *)

Lemma normalizeSegment_valid_number n :
  0 <= n -> Pointer.normalizeSegment (SegNum n) = SegNum n.
Proof.
  intros Hn. unfold Pointer.normalizeSegment. cbn [segmentToString].
  destruct (numberToString_parseInt n Hn) as [-> ->]. reflexivity.
Qed.

Lemma normalizeSegment_number n : Pointer.normalizeSegment (SegNum n) = SegNum n.
Proof.
  destruct (Z.le_gt_cases 0 n) as [Hn | Hn].
  - apply normalizeSegment_valid_number. exact Hn.
  - unfold Pointer.normalizeSegment. cbn [segmentToString].
    destruct n as [|p|p]; try lia. reflexivity.
Qed.

Lemma normalizeSegment_idempotent segment :
  Pointer.normalizeSegment (Pointer.normalizeSegment segment)
  = Pointer.normalizeSegment segment.
Proof.
  destruct (Pointer.normalizeSegment segment) as [n | key] eqn:E.
  - apply normalizeSegment_number.
  - unfold Pointer.normalizeSegment. cbn [segmentToString].
    rewrite (normalizeSegment_key _ _ E). reflexivity.
Qed.

(** X6. What [from] accepts of a list of segments: it turns the keys made of
    digits into indices and leaves the rest alone, the result satisfies the
    invariant of pointers, and converting the segments of the result again
    returns the same pointer. *)
Theorem from_segments_is_a_normal_form (l : list JsonPointerSegment) (p : JsonPointer) :
  Pointer.from (LikeSegments l) = Ok p ->
  segments p = map Pointer.normalizeSegment l
  /\ Pointer.getDepth p = Z.of_nat (List.length l)
  /\ validPointer p = true
  /\ Pointer.from (LikeSegments (Pointer.getSegments p)) = Ok p
  /\ (forallb validSegment l = true -> p = mkPointer l).
Proof.
  intros H. pose proof (from_segments_establishes_invariant l p H) as Hvalid.
  pose proof H as Hfrom.
  cbn [Pointer.from] in Hfrom. destruct (fromSegments_in_range _ _ Hfrom) as [Hseg _].
  split; [exact Hseg|]. split; [|split; [exact Hvalid|split]].
  - unfold Pointer.getDepth. rewrite Hseg, length_map. reflexivity.
  - unfold Pointer.getSegments. rewrite (from_valid_segments _ Hvalid).
    destruct p; reflexivity.
  - intros Hl. rewrite (from_valid_segments l Hl) in H. inversion H. reflexivity.
Qed.

Lemma from_segments_is_a_normal_form_witness :
  Pointer.from (LikeSegments [SegStr "foo"; SegStr "007"; SegNum 2])
  = Ok (mkPointer [SegStr "foo"; SegNum 7; SegNum 2])
  /\ validPointer (mkPointer [SegStr "foo"; SegNum 7; SegNum 2]) = true.
Proof.
  split; [reflexivity|].
  exact (proj1 (proj2 (proj2 (from_segments_is_a_normal_form
                                [SegStr "foo"; SegStr "007"; SegNum 2]
                                (mkPointer [SegStr "foo"; SegNum 7; SegNum 2])
                                eq_refl)))).
Defined.

(** X7. What [from] rejects: a number that is negative or not a safe integer
    fails with a syntax error naming it; a list of segments holding such a
    number fails with a syntax error naming an out-of-range index of the
    list. *)
Theorem from_rejects_out_of_range (l : list JsonPointerSegment) (n : Z) :
  n < 0 \/ Pointer.MAX_SAFE_INTEGER < n ->
  Pointer.from (LikeNumber n)
  = Throw (mkError InvalidSyntaxError
             ("Invalid integer segment " ++ Js.quote ++ Js.numberToString n
                ++ Js.quote ++ "."))
  /\ (In (SegNum n) l ->
      exists m,
        (m < 0 \/ Pointer.MAX_SAFE_INTEGER < m)
        /\ In (SegNum m) (map Pointer.normalizeSegment l)
        /\ Pointer.from (LikeSegments l)
           = Throw (mkError InvalidSyntaxError
                      ("Invalid integer segment " ++ Js.quote ++ Js.numberToString m
                         ++ Js.quote ++ "."))).
Proof.
  intros Hout. split.
  - cbn [Pointer.from].
    destruct (fromSegments_rejects [SegNum n] n (or_introl eq_refl) Hout)
      as [m [[Hm | []] [_ Hthrow]]].
    inversion Hm; subst m. exact Hthrow.
  - intros Hin. cbn [Pointer.from].
    assert (Hin' : In (SegNum n) (map Pointer.normalizeSegment l)).
    { apply in_map_iff. exists (SegNum n). split; [apply normalizeSegment_number | exact Hin]. }
    destruct (fromSegments_rejects _ n Hin' Hout) as [m [Hm [Hmout Hthrow]]].
    exists m. split; [exact Hmout|]. split; [exact Hm | exact Hthrow].
Qed.

Lemma from_rejects_out_of_range_witness :
  (-1 < 0 \/ Pointer.MAX_SAFE_INTEGER < -1)
  /\ Pointer.from (LikeNumber (-1))
     = Throw (mkError InvalidSyntaxError
                ("Invalid integer segment " ++ Js.quote ++ "-1" ++ Js.quote ++ ".")).
Proof.
  split; [left; reflexivity|].
  exact (proj1 (from_rejects_out_of_range [] (-1) (or_introl eq_refl))).
Defined.

(** ** Parsing *)

Lemma split_length s : List.length (Js.split "/" s) = S (count "/" s).
Proof.
  induction s as [|c r IH]; [reflexivity|].
  cbn [Js.split count]. destruct (Ascii.eqb c "/").
  - cbn [List.length]. rewrite IH. reflexivity.
  - destruct (Js.split "/" r) as [|h t]; [discriminate|].
    cbn [List.length] in *. lia.
Qed.

(** X8. What [parse] returns: the root pointer for the empty string and for
    no other; otherwise a pointer with one segment per [/] of the string,
    whose indices are non-negative and whose keys are not strings of digits.
    What it throws is a syntax error: for an invalid escape sequence
    anywhere in the string, and only when there is none for a first character
    that is not [/]. *)
Theorem parse_depth_and_shape (path : string) :
  match Pointer.parse path with
  | Ok p =>
      Pointer.getDepth p = Z.of_nat (count "/" path)
      /\ forallb shapedSegment (segments p) = true
      /\ (Pointer.isRoot p = true <-> path = EmptyString)
  | Throw e =>
      errorClass e = InvalidSyntaxError
      /\ ((Js.hasInvalidEscape path = true
           /\ errorMessage e
              = ("Invalid escape sequence in " ++ Js.quote ++ path ++ Js.quote ++ ".")%string)
          \/ (Js.hasInvalidEscape path = false
              /\ (exists first rest, path = String first rest /\ first <> "/"%char)
              /\ errorMessage e
                 = ("A non-root pointer must start with a slash, actual "
                      ++ Js.quote ++ path ++ Js.quote ++ ".")%string))
  end.
Proof.
  destruct (Pointer.parse path) as [p | e] eqn:Hparse.
  - pose proof (parse_establishes_shape _ _ Hparse) as Hshape.
    split; [|split; [exact Hshape|]].
    + unfold Pointer.parse in Hparse. destruct path as [|first rest].
      * inversion Hparse; subst. reflexivity.
      * destruct (Js.hasInvalidEscape (String first rest)); [discriminate|].
        destruct (Ascii.eqb first "/") eqn:E; cbn [negb] in Hparse; [|discriminate].
        inversion Hparse; subst p. unfold Pointer.getDepth. cbn [segments].
        rewrite length_map, split_length. cbn [count]. rewrite E. reflexivity.
    + unfold Pointer.parse in Hparse. destruct path as [|first rest].
      * inversion Hparse; subst. split; reflexivity.
      * destruct (Js.hasInvalidEscape (String first rest)); [discriminate|].
        destruct (negb (Ascii.eqb first "/")); [discriminate|].
        inversion Hparse; subst p. unfold Pointer.isRoot. cbn [segments].
        rewrite length_map, split_length. split; discriminate.
  - unfold Pointer.parse in Hparse. destruct path as [|first rest]; [discriminate|].
    destruct (Js.hasInvalidEscape (String first rest)) eqn:Hescape.
    + inversion Hparse; subst e. split; [reflexivity|]. left. split; reflexivity.
    + destruct (Ascii.eqb first "/") eqn:E; cbn [negb] in Hparse; [discriminate|].
      inversion Hparse; subst e. split; [reflexivity|]. right.
      split; [reflexivity|]. split; [|reflexivity].
      exists first, rest. split; [reflexivity|].
      intros ->. discriminate.
Qed.

(** ** Writing, then reading *)

Lemma lookup_snoc pre : forall segment root,
  lookup (pre ++ [segment]) root
  = match lookup pre root with
    | Some parent => lookup [segment] parent
    | None => None
    end.
Proof.
  induction pre as [|s pre IH]; intros segment root; [reflexivity|].
  cbn [app]. cbn [lookup].
  destruct root as [| | b | m | str | elements | properties | name |]; try reflexivity;
    destruct s as [n | key]; try reflexivity.
  - destruct (n >=? Json.lengthOf elements); [reflexivity | apply IH].
  - destruct (Json.hasProperty properties key); [apply IH | reflexivity].
  - destruct (Json.inPrototype key); [apply IH | reflexivity].
Qed.

Lemma segments_snoc this :
  Pointer.isRoot this = false ->
  segments this = removelast (segments this) ++ [Pointer.lastSegment this].
Proof.
  intros Hroot. unfold Pointer.lastSegment.
  apply app_removelast_last. apply isRoot_false_nonempty. exact Hroot.
Qed.

Lemma arrayGet_arrayAssign_upto elements n v :
  0 <= n <= Json.lengthOf elements ->
  Json.arrayGet (Json.arrayAssign elements n v) n = v
  /\ n < Json.lengthOf (Json.arrayAssign elements n v).
Proof.
  intros Hn. destruct (Z.eq_dec n (Json.lengthOf elements)) as [-> | Hneq].
  - rewrite arrayAssign_at_length. unfold Json.lengthOf.
    rewrite arrayGet_nth by lia. rewrite Nat2Z.id, length_app.
    rewrite app_nth2 by lia. rewrite Nat.sub_diag. cbn [nth List.length]. split; [reflexivity | lia].
  - destruct (arrayGet_arrayAssign elements n v) as [Hget Hlen]; [lia|].
    rewrite Hget, Hlen. split; [reflexivity | lia].
Qed.

(** X10. What [set] wrote, [get] reads.  After a successful [set] through
    [-], the value is read at the index that was the length of the array.
    After a successful [set] of a pointer whose last segment is not [-], when
    the assignment created or updated an own property or an element, [get]
    of the same pointer returns the value set and [has] returns [true];
    otherwise (the parent is [Object.prototype], or the key is a [__proto__]
    that the parent inherits, whose setter ran) the own properties of the
    tree are as they were. *)
Theorem get_after_set (this : JsonPointer) (root value root' parent : JsonValue) :
  forallb nonNegativeSegment (segments this) = true ->
  Pointer.set this root value = Ok root' ->
  Pointer.get (mkPointer (removelast (segments this))) root = Ok parent ->
  if segmentEqb (Pointer.lastSegment this) (SegStr "-") then
    exists elements,
      parent = JArray elements
      /\ Pointer.get (mkPointer (removelast (segments this)
                                   ++ [SegNum (Json.lengthOf elements)])) root'
         = Ok value
  else if assignsOwnProperty parent (Pointer.lastSegment this) then
    Pointer.get this root' = Ok value /\ Pointer.has this root' = Ok true
  else root' = root.
Proof.
  intros Hvalid Hset Hget. unfold Pointer.set in Hset.
  destruct (Pointer.isRoot this) eqn:Hroot; [discriminate|].
  rewrite (getParent_nonroot this Hroot) in Hset. cbn [bind] in Hset.
  pose proof (forallb_removelast _ _ Hvalid) as Hparent.
  assert (Hlast : nonNegativeSegment (Pointer.lastSegment this) = true).
  { apply forallb_last; [apply isRoot_false_nonempty; exact Hroot | exact Hvalid]. }
  rewrite Hget in Hset. cbn [bind] in Hset.
  assert (Hread : forall replacement segment,
             ownStructure parent = true ->
             root' = Pointer.writeBack root (removelast (segments this)) replacement ->
             lookup [segment] replacement = Some value ->
             lookup (removelast (segments this) ++ [segment]) root' = Some value).
  { intros replacement segment Hown -> Hstep. rewrite lookup_snoc.
    apply get_lookup in Hget. cbn [segments] in Hget.
    rewrite (lookup_writeBack _ _ _ replacement Hparent Hget Hown). exact Hstep. }
  assert (Hhas : Pointer.get this root' = Ok value ->
                 Pointer.get this root' = Ok value /\ Pointer.has this root' = Ok true).
  { intros H. split; [exact H|]. unfold Pointer.has. rewrite H. reflexivity. }
  destruct parent as [| | b | m | str | elements | properties | name |]; try discriminate.
  - destruct (Pointer.lastSegment this) as [n | key] eqn:Hseg.
    + cbn [segmentEqb assignsOwnProperty]. apply Hhas. apply get_lookup.
      rewrite (segments_snoc this Hroot), Hseg.
      cbn [nonNegativeSegment] in Hlast. apply Z.leb_le in Hlast.
      destruct (n >? Json.lengthOf elements) eqn:Hn; [discriminate|].
      rewrite Z.gtb_ltb in Hn. apply Z.ltb_ge in Hn.
      injection Hset as Hroot'. cbn [segments] in *.
      eapply Hread; [reflexivity | symmetry; exact Hroot'|]. cbn [lookup].
      destruct (arrayGet_arrayAssign_upto elements n value) as [Hvalue Hlen]; [lia|].
      replace (n >=? Json.lengthOf (Json.arrayAssign elements n value)) with false
        by (symmetry; rewrite Z.geb_leb; apply Z.leb_gt; lia).
      rewrite Hvalue. reflexivity.
    + cbn [segmentEqb]. destruct (String.eqb key "-") eqn:Hkey; [|discriminate].
      exists elements. split; [reflexivity|]. apply get_lookup. cbn [segments] in *.
      injection Hset as Hroot'.
      eapply Hread; [reflexivity | symmetry; exact Hroot'|]. cbn [lookup].
      rewrite <- arrayAssign_at_length.
      destruct (arrayGet_arrayAssign_upto elements (Json.lengthOf elements) value)
        as [Hvalue Hlen]; [unfold Json.lengthOf; lia|].
      replace (Json.lengthOf elements
               >=? Json.lengthOf (Json.arrayAssign elements (Json.lengthOf elements) value))
        with false by (symmetry; rewrite Z.geb_leb; apply Z.leb_gt; lia).
      rewrite Hvalue. reflexivity.
  - destruct (Pointer.lastSegment this) as [n | key] eqn:Hseg; [discriminate|].
    cbn [segmentEqb assignsOwnProperty].
    destruct (String.eqb key "-") eqn:Hkey; [discriminate|].
    injection Hset as Hroot'. cbn [segments] in *.
    destruct (String.eqb key "__proto__" && negb (Json.hasOwnProperty properties key))
      eqn:Hsetter; cbn [negb].
    + subst root'. unfold Json.setProperty. rewrite Hsetter.
      apply get_lookup in Hget. cbn [segments] in Hget.
      apply (writeBack_same _ _ _ Hget).
    + apply Hhas. apply get_lookup. rewrite (segments_snoc this Hroot), Hseg.
      eapply Hread; [reflexivity | symmetry; exact Hroot'|]. cbn [lookup].
      destruct (setProperty_spec properties key value Hsetter) as [_ [-> ->]]. reflexivity.
  - destruct (Pointer.lastSegment this) as [n | key] eqn:Hseg; [discriminate|].
    cbn [segmentEqb assignsOwnProperty].
    destruct (String.eqb key "-") eqn:Hkey; [discriminate|].
    destruct (String.eqb key "__proto__" && Json.isObjectValue value); [discriminate|].
    injection Hset as Hroot'. symmetry. exact Hroot'.
Qed.

Lemma get_after_set_witness :
  let this := mkPointer [SegStr "foo"; SegStr "bar"] in
  let root := JObject [("foo", JObject [("baz", JNull)])] in
  let root' := JObject [("foo", JObject [("baz", JNull); ("bar", JNumber 1)])] in
  Pointer.set this root (JNumber 1) = Ok root'
  /\ Pointer.get (mkPointer [SegStr "foo"]) root = Ok (JObject [("baz", JNull)])
  /\ Pointer.get this root' = Ok (JNumber 1)
  /\ Pointer.has this root' = Ok true.
Proof.
  intros this root root'. split; [reflexivity|]. split; [reflexivity|].
  exact (get_after_set this root (JNumber 1) root' (JObject [("baz", JNull)])
           eq_refl eq_refl eq_refl).
Defined.

(** ** Removing *)

Lemma has_snoc this root :
  Pointer.isRoot this = false ->
  Pointer.has this root
  = Ok match lookup (removelast (segments this)) root with
       | Some parent =>
           match lookup [Pointer.lastSegment this] parent with
           | Some _ => true
           | None => false
           end
       | None => false
       end.
Proof.
  intros Hroot. unfold Pointer.has.
  assert (Hlookup : lookup (segments this) root
                    = match lookup (removelast (segments this)) root with
                      | Some parent => lookup [Pointer.lastSegment this] parent
                      | None => None
                      end).
  { rewrite (segments_snoc this Hroot) at 1. apply lookup_snoc. }
  destruct (Pointer.get this root) as [v | e] eqn:Hget.
  - apply get_lookup in Hget. rewrite Hget in Hlookup.
    destruct (lookup (removelast (segments this)) root) as [parent|]; [|discriminate].
    rewrite <- Hlookup. reflexivity.
  - assert (Hnone : lookup (segments this) root = None)
      by (apply get_throws_lookup; eauto).
    rewrite Hnone in Hlookup.
    destruct (lookup (removelast (segments this)) root) as [parent|]; [|reflexivity].
    rewrite <- Hlookup. reflexivity.
Qed.

Lemma hasOwnProperty_deleteProperty properties key :
  Json.hasOwnProperty (Json.deleteProperty properties key) key = false.
Proof.
  induction properties as [|[k w] t IH]; [reflexivity|].
  cbn [Json.deleteProperty]. destruct (String.eqb k key) eqn:E; [exact IH|].
  cbn [Json.hasOwnProperty]. rewrite E, IH. reflexivity.
Qed.

(** After the deletion the key is in the object only if the object inherits
    it, and then its value is the inherited one. *)
Lemma hasProperty_deleteProperty properties key :
  Json.hasProperty (Json.deleteProperty properties key) key = Json.inPrototype key.
Proof.
  unfold Json.hasProperty. rewrite hasOwnProperty_deleteProperty. reflexivity.
Qed.

(** X11. [unset] removes what [get] reads: on a pointer other than the root,
    when [get] returns a value [unset] returns that value, and when [get]
    throws [unset] returns [undefined] and leaves the structure as it is.
    After [unset] at a location whose parent is an object, the object has no
    own property of that key, and [has] returns [false] unless the key names
    a property of [Object.prototype], which the object still inherits: then
    [has] returns [true]. *)
Theorem unset_returns_what_get_reads (this : JsonPointer) (root : JsonValue) :
  Pointer.isRoot this = false ->
  match Pointer.get this root with
  | Ok v => exists root', Pointer.unset this root = Ok (v, root')
  | Throw _ => Pointer.unset this root = Ok (JUndefined, root)
  end
  /\ (forall properties returned root',
        forallb nonNegativeSegment (segments this) = true ->
        Pointer.get (mkPointer (removelast (segments this))) root = Ok (JObject properties) ->
        Pointer.unset this root = Ok (returned, root') ->
        match Pointer.lastSegment this with
        | SegNum _ => root' = root /\ Pointer.has this root' = Ok false
        | SegStr key =>
            Pointer.get (mkPointer (removelast (segments this))) root'
            = Ok (JObject (Json.deleteProperty properties key))
            /\ Json.hasOwnProperty (Json.deleteProperty properties key) key = false
            /\ Pointer.has this root' = Ok (Json.inPrototype key)
        end).
Proof.
  intros Hroot.
  assert (Hsnoc := segments_snoc this Hroot).
  split.
  - destruct (Pointer.get this root) as [v | e] eqn:Hget.
    + apply get_lookup in Hget. rewrite Hsnoc, lookup_snoc in Hget.
      unfold Pointer.unset. rewrite Hroot, (getParent_nonroot this Hroot). cbn [bind].
      destruct (lookup (removelast (segments this)) root) as [parent|] eqn:Hparent;
        [|discriminate].
      rewrite (proj2 (get_lookup (mkPointer (removelast (segments this))) root parent)
                 Hparent).
      cbn [bind tryCatch]. cbn [lookup] in Hget.
      destruct parent as [| | b | m | str | elements | properties | name |]; try discriminate;
        destruct (Pointer.lastSegment this) as [n | key]; try discriminate.
      * destruct (n >=? Json.lengthOf elements); [discriminate|].
        inversion Hget; subst v. eexists. reflexivity.
      * destruct (Json.hasProperty properties key); [|discriminate].
        inversion Hget; subst v. cbn [negb]. eexists. reflexivity.
      * destruct (Json.inPrototype key); [|discriminate].
        inversion Hget; subst v. cbn [negb]. eexists. reflexivity.
    + assert (Hnone : lookup (segments this) root = None)
        by (apply get_throws_lookup; eauto).
      rewrite Hsnoc, lookup_snoc in Hnone.
      unfold Pointer.unset. rewrite Hroot, (getParent_nonroot this Hroot). cbn [bind].
      destruct (lookup (removelast (segments this)) root) as [parent|] eqn:Hparent.
      * rewrite (proj2 (get_lookup (mkPointer (removelast (segments this))) root parent)
                   Hparent).
        cbn [bind tryCatch]. cbn [lookup] in Hnone.
        destruct parent as [| | b | m | str | elements | properties | name |]; try reflexivity;
          destruct (Pointer.lastSegment this) as [n | key]; try reflexivity.
        -- destruct (n >=? Json.lengthOf elements); [reflexivity | discriminate].
        -- destruct (Json.hasProperty properties key); [discriminate | reflexivity].
        -- destruct (Json.inPrototype key); [discriminate | reflexivity].
      * destruct (proj2 (get_throws_lookup (mkPointer (removelast (segments this))) root)
                    Hparent) as [e' He'].
        rewrite He'. reflexivity.
  - intros properties returned root' Hvalid Hparent Hunset.
    unfold Pointer.unset in Hunset.
    rewrite Hroot, (getParent_nonroot this Hroot) in Hunset. cbn [bind] in Hunset.
    rewrite Hparent in Hunset. cbn [bind tryCatch] in Hunset.
    pose proof (proj1 (get_lookup _ _ _) Hparent) as Hlookup. cbn [segments] in Hlookup.
    destruct (Pointer.lastSegment this) as [n | key] eqn:Hseg.
    + inversion Hunset; subst. split; [reflexivity|].
      rewrite (has_snoc _ _ Hroot), Hlookup, Hseg. reflexivity.
    + destruct (Json.hasProperty properties key) eqn:Hkey; cbn [negb] in Hunset;
        inversion Hunset; subst; clear Hunset.
      * pose proof (get_writeBack (mkPointer (removelast (segments this))) root
                      (JObject properties) (JObject (Json.deleteProperty properties key))
                      (forallb_removelast _ _ Hvalid) Hparent eq_refl) as Hget'.
        cbn [segments] in Hget'.
        split; [exact Hget'|]. split; [apply hasOwnProperty_deleteProperty|].
        apply get_lookup in Hget'. cbn [segments] in Hget'.
        rewrite (has_snoc _ _ Hroot), Hget', Hseg. cbn [lookup].
        rewrite hasProperty_deleteProperty.
        destruct (Json.inPrototype key); reflexivity.
      * destruct (hasProperty_false _ _ Hkey) as [Hown Hin].
        rewrite (deleteProperty_absent _ _ Hown).
        split; [exact Hparent|]. split; [exact Hown|].
        rewrite (has_snoc _ _ Hroot), Hlookup, Hseg. cbn [lookup].
        rewrite Hkey, Hin. reflexivity.
Qed.

Lemma unset_returns_what_get_reads_witness :
  let this := mkPointer [SegStr "foo"; SegStr "bar"] in
  let root := JObject [("foo", JObject [("bar", JNumber 1); ("baz", JNull)])] in
  Pointer.get this root = Ok (JNumber 1)
  /\ Pointer.unset this root = Ok (JNumber 1, JObject [("foo", JObject [("baz", JNull)])])
  /\ Pointer.has this (JObject [("foo", JObject [("baz", JNull)])]) = Ok false.
Proof.
  intros this root. split; [reflexivity|]. split; [reflexivity|].
  exact (proj2 (proj2 (proj2 (unset_returns_what_get_reads this root eq_refl)
                         [("bar", JNumber 1); ("baz", JNull)] (JNumber 1)
                         (JObject [("foo", JObject [("baz", JNull)])])
                         eq_refl eq_refl eq_refl))).
Defined.

(** ** The ancestor stack of a relative pointer *)

(** A base pointer that resolves yields one entry per segment. *)
Lemma get_traverseLoop base root v :
  Pointer.get base root = Ok v ->
  exists es,
    Pointer.traverseLoop base 0 (segments base) root = (es, None)
    /\ List.length es = List.length (segments base)
    /\ map fst es = map Some (segments base).
Proof.
  unfold Pointer.get, Pointer.traverse. intros Hget.
  destruct (Pointer.traverseLoop base 0 (segments base) root) as [es [e|]] eqn:Hloop;
    [discriminate|].
  exists es. split; [reflexivity|].
  pose proof (traverseLoop_lookup (segments base) base 0%nat root) as Hlen.
  rewrite Hloop in Hlen. split; [apply Hlen|].
  eapply traverseLoop_segments. exact Hloop.
Qed.

Lemma last_firstn {A : Type} (l : list A) : forall k d,
  (k < List.length l)%nat -> last (firstn (S k) l) d = nth k l d.
Proof.
  induction l as [|a l IH]; intros k d Hk; [simpl in Hk; lia|].
  destruct k as [|k].
  - destruct l; reflexivity.
  - simpl in Hk. specialize (IH k d ltac:(lia)).
    change (firstn (S (S k)) (a :: l)) with (a :: firstn (S k) l).
    destruct l as [|b l]; [simpl in Hk; lia|].
    change (last (a :: firstn (S k) (b :: l)) d) with (last (firstn (S k) (b :: l)) d).
    exact IH.
Qed.

(** The stack of a pointer without offset: the root entry and the entries of
    the segments of the base that are kept. *)
Lemma referenceStack_no_offset c rp root base es :
  Pointer.traverseLoop base 0 (segments base) root = (es, None) ->
  List.length es = List.length (segments base) ->
  RelativePointer.getParentIndexOffset rp = 0 ->
  0 <= RelativePointer.getParentIndex rp ->
  RelativePointer.referenceStack c rp root base
  = if RelativePointer.getParentIndex rp >? Pointer.getDepth base
    then throw JsonPointerError "The relative pointer is out of bounds."
    else Ok ((None, root)
               :: firstn (Z.to_nat (Pointer.getDepth base - RelativePointer.getParentIndex rp))
                    es).
Proof.
  intros Hloop Hlen Hoffset Hk.
  unfold RelativePointer.referenceStack, Pointer.traverse, Pointer.getDepth.
  rewrite Hloop, Hoffset. cbn [Z.eqb negb].
  change (@List.length Entry ((None, root) :: es)) with (S (List.length es)).
  rewrite Hlen.
  set (k := RelativePointer.getParentIndex rp) in *.
  destruct (k >? Z.of_nat (List.length (segments base))) eqn:Hbound.
  - rewrite Z.gtb_ltb in Hbound. apply Z.ltb_lt in Hbound.
    replace (k >=? Z.of_nat (S (List.length (segments base)))) with true
      by (symmetry; rewrite Z.geb_leb; apply Z.leb_le; lia).
    reflexivity.
  - rewrite Z.gtb_ltb in Hbound. apply Z.ltb_ge in Hbound.
    replace (k >=? Z.of_nat (S (List.length (segments base)))) with false
      by (symmetry; rewrite Z.geb_leb; apply Z.leb_gt; lia).
    replace (Z.to_nat (Z.of_nat (S (List.length (segments base))) - k - 1 + 1))
      with (S (Z.to_nat (Z.of_nat (List.length (segments base)) - k))) by lia.
    reflexivity.
Qed.

(** The entry on top of the stack that keeps [k] segments. *)
Lemma top_of_stack root (es : list Entry) k :
  (k <= List.length es)%nat ->
  RelativePointer.top ((None, root) :: firstn k es)
  = nth k ((None, root) :: es) (None, JUndefined).
Proof.
  intros Hk. unfold RelativePointer.top.
  change ((None, root) :: firstn k es) with (firstn (S k) ((None, root) :: es)).
  apply (@last_firstn Entry). simpl. lia.
Qed.

(** The entry of the [j]-th segment of a completed traversal. *)
Lemma stack_entry root (es : list Entry) l j d :
  map fst es = map Some l ->
  (j < List.length l)%nat ->
  nth j es (None, JUndefined)
  = (Some (nth j l d), finalValue root (firstn (S j) es)).
Proof.
  intros Hfst Hj.
  assert (Hlen : List.length es = List.length l).
  { pose proof (f_equal (@List.length _) Hfst) as H. rewrite !length_map in H. exact H. }
  rewrite (finalValue_firstn es root (S j) (None, JUndefined)) by lia.
  cbn [nth].
  assert (Hsegment : fst (nth j es (None, JUndefined)) = Some (nth j l d)).
  { unfold Entry in *. rewrite <- (map_nth fst es (None, JUndefined) j), Hfst. cbn [fst].
    rewrite (nth_indep (map Some l) None (Some d)) by (rewrite length_map; lia).
    apply (map_nth Some). }
  etransitivity; [apply surjective_pairing|].
  f_equal. exact Hsegment.
Qed.

(** ** Key pointers *)

(** X12. [get] through a key pointer without offset, against a base pointer
    that resolves in the root: it returns the segment of the base found
    [getParentIndex()] levels up; when that many levels up is the root it
    throws "The root value has no key." (a reference error in the first
    revision, a pointer error in the third); further up it throws "The
    relative pointer is out of bounds.". *)
Theorem key_pointer_reads_segment (rp : JsonRelativePointer) (base : JsonPointer)
  (root v : JsonValue) :
  validRelative rp = true ->
  RelativePointer.isKeyPointer rp = true ->
  RelativePointer.getParentIndexOffset rp = 0 ->
  Pointer.get base root = Ok v ->
  let k := RelativePointer.getParentIndex rp in
  let d := Pointer.getDepth base in
  (k < d ->
   let key := segmentValue (nth (Z.to_nat (d - k - 1)) (segments base) (SegStr "")) in
   RelativePointer.V1.get rp root base = Ok key
   /\ RelativePointer.V3.get rp root base = Ok key)
  /\ (k = d ->
      RelativePointer.V1.get rp root base
      = Throw (mkError InvalidReferenceError "The root value has no key.")
      /\ RelativePointer.V3.get rp root base
         = Throw (mkError JsonPointerError "The root value has no key."))
  /\ (d < k ->
      RelativePointer.V1.get rp root base
      = Throw (mkError JsonPointerError "The relative pointer is out of bounds.")
      /\ RelativePointer.V3.get rp root base
         = Throw (mkError JsonPointerError "The relative pointer is out of bounds.")).
Proof.
  intros Hrp Hkey Hoffset Hget k d.
  pose proof (getParentIndex_nonneg rp Hrp) as Hk. fold k in Hk.
  destruct (get_traverseLoop base root v Hget) as [es [Hloop [Hlen Hfst]]].
  assert (Hstack : forall c,
             RelativePointer.referenceStack c rp root base
             = if k >? d
               then throw JsonPointerError "The relative pointer is out of bounds."
               else Ok ((None, root) :: firstn (Z.to_nat (d - k)) es)).
  { intros c. apply referenceStack_no_offset; assumption. }
  unfold RelativePointer.V1.get, RelativePointer.V3.get,
    RelativePointer.V1.getReferenceStack, RelativePointer.V3.getReferenceStack.
  rewrite !Hstack, Hkey. unfold d, Pointer.getDepth in *.
  split; [|split].
  - intros Hlt. cbv zeta.
    replace (k >? Z.of_nat (List.length (segments base))) with false
      by (symmetry; rewrite Z.gtb_ltb; apply Z.ltb_ge; lia).
    cbn [bind]. rewrite top_of_stack by lia.
    replace (Z.to_nat (Z.of_nat (List.length (segments base)) - k))
      with (S (Z.to_nat (Z.of_nat (List.length (segments base)) - k - 1))) by lia.
    cbn [nth].
    rewrite (stack_entry root es (segments base) _ (SegStr "") Hfst) by lia.
    split; reflexivity.
  - intros Heq.
    replace (k >? Z.of_nat (List.length (segments base))) with false
      by (symmetry; rewrite Z.gtb_ltb; apply Z.ltb_ge; lia).
    replace (Z.to_nat (Z.of_nat (List.length (segments base)) - k)) with 0%nat by lia.
    split; reflexivity.
  - intros Hgt.
    replace (k >? Z.of_nat (List.length (segments base))) with true
      by (symmetry; rewrite Z.gtb_ltb; apply Z.ltb_lt; lia).
    split; reflexivity.
Qed.

Lemma key_pointer_reads_segment_witness :
  let rp := mkRelative [SegStr "1#"] in
  let base := mkPointer [SegStr "foo"; SegNum 1] in
  let root := JObject [("foo", JArray [JString "bar"; JString "baz"])] in
  RelativePointer.parse "1#" = Ok rp
  /\ Pointer.get base root = Ok (JString "baz")
  /\ RelativePointer.V1.get rp root base = Ok (JString "foo").
Proof.
  intros rp base root. split; [reflexivity|]. split; [reflexivity|].
  exact (proj1 (proj1 (key_pointer_reads_segment rp base root (JString "baz")
                         eq_refl eq_refl eq_refl eq_refl)
                  eq_refl)).
Defined.

(** ** Offsets *)

Lemma firstn_snoc {A : Type} (l : list A) : forall j d,
  (j < List.length l)%nat -> firstn (S j) l = firstn j l ++ [nth j l d].
Proof.
  induction l as [|a l IH]; intros j d Hj; [simpl in Hj; lia|].
  destruct j as [|j]; [reflexivity|].
  simpl in Hj. cbn [firstn nth app]. f_equal. apply IH. lia.
Qed.

(** The stack of a pointer with an offset: the entries above the one the
    offset applies to, then the entry of the sibling. *)
Lemma referenceStack_offset c rp root base es :
  Pointer.traverseLoop base 0 (segments base) root = (es, None) ->
  map fst es = map Some (segments base) ->
  RelativePointer.getParentIndexOffset rp <> 0 ->
  0 <= RelativePointer.getParentIndex rp <= Pointer.getDepth base ->
  let offset := RelativePointer.getParentIndexOffset rp in
  let j := Z.to_nat (Pointer.getDepth base - RelativePointer.getParentIndex rp - 1) in
  RelativePointer.referenceStack c rp root base
  = if RelativePointer.getParentIndex rp =? Pointer.getDepth base then
      throw c "An offset can only be applied to array elements."
    else
      match finalValue root (firstn j es), nth j (segments base) (SegStr "") with
      | JArray elements, SegNum index =>
          if (index + offset <? 0) || (index + offset >=? Json.lengthOf elements) then
            throw c "The element index is out of bounds."
          else
            Ok (((None, root) :: firstn j es)
                  ++ [(Some (SegNum (index + offset)),
                       Json.arrayGet elements (index + offset))])
      | _, _ => throw c "An offset can only be applied to array elements."
      end.
Proof.
  intros Hloop Hfst Hoffset Hk offset j.
  assert (Hlen : List.length es = List.length (segments base)).
  { pose proof (f_equal (@List.length _) Hfst) as H. rewrite !length_map in H. exact H. }
  unfold RelativePointer.referenceStack, Pointer.traverse.
  rewrite Hloop. cbv zeta.
  change (@List.length Entry ((None, root) :: es)) with (S (List.length es)).
  rewrite Hlen. fold offset. unfold Pointer.getDepth in *.
  set (k := RelativePointer.getParentIndex rp) in *.
  set (d := List.length (segments base)) in *.
  replace (k >=? Z.of_nat (S d)) with false
    by (symmetry; rewrite Z.geb_leb; apply Z.leb_gt; lia).
  replace (negb (offset =? 0)) with true
    by (symmetry; apply negb_true_iff; apply Z.eqb_neq; exact Hoffset).
  destruct (k =? Z.of_nat d) eqn:Hroot.
  - apply Z.eqb_eq in Hroot.
    replace (Z.of_nat (S d) - k - 1 - 1 <? 0) with true
      by (symmetry; apply Z.ltb_lt; lia).
    reflexivity.
  - apply Z.eqb_neq in Hroot.
    replace (Z.of_nat (S d) - k - 1 - 1 <? 0) with false
      by (symmetry; apply Z.ltb_ge; lia).
    unfold RelativePointer.entryAt.
    replace (Z.of_nat (S d) - k - 1 - 1 <? 0) with false
      by (symmetry; apply Z.ltb_ge; lia).
    replace (Z.of_nat (S d) - k - 1 <? 0) with false
      by (symmetry; apply Z.ltb_ge; lia).
    replace (Z.to_nat (Z.of_nat (S d) - k - 1 - 1)) with j by (unfold j; lia).
    replace (Z.to_nat (Z.of_nat (S d) - k - 1)) with (S j) by (unfold j; lia).
    pose proof (finalValue_firstn es root j (None, JUndefined)) as Hparent.
    pose proof (stack_entry root es (segments base) j (SegStr "") Hfst) as Hentry.
    unfold Entry in *. rewrite <- Hparent by (unfold j; lia).
    cbn [nth firstn].
    rewrite Hentry by (unfold j, d; lia).
    cbn [fst]. reflexivity.
Qed.

(** X13. [get] through a pointer with an offset that is not a key pointer,
    against a base pointer that resolves in the root: the offset applies to
    the segment of the base found [getParentIndex()] levels up.  When that
    segment is an index, the value read is that of the remainder pointer
    against the element of the same array at the index plus the offset, and an
    index outside the array fails with "The element index is out of bounds.".
    When it is a key, or when that many levels up is the root, [get] fails
    with "An offset can only be applied to array elements.". *)
Theorem offset_pointer_reads_sibling (rp : JsonRelativePointer) (base : JsonPointer)
  (root v : JsonValue) :
  validRelative rp = true ->
  RelativePointer.isKeyPointer rp = false ->
  RelativePointer.getParentIndexOffset rp <> 0 ->
  Pointer.get base root = Ok v ->
  RelativePointer.getParentIndex rp <= Pointer.getDepth base ->
  let k := RelativePointer.getParentIndex rp in
  let d := Pointer.getDepth base in
  let offset := RelativePointer.getParentIndexOffset rp in
  let j := Z.to_nat (d - k - 1) in
  let notAnElement :=
    Throw (mkError InvalidReferenceError "An offset can only be applied to array elements.") in
  (k = d -> RelativePointer.V1.get rp root base = notAnElement)
  /\ (forall key, k < d -> nth j (segments base) (SegStr "") = SegStr key ->
        RelativePointer.V1.get rp root base = notAnElement)
  /\ (forall index, k < d -> nth j (segments base) (SegStr "") = SegNum index ->
        exists elements,
          Pointer.get (mkPointer (firstn j (segments base))) root = Ok (JArray elements)
          /\ RelativePointer.V1.get rp root base
             = if (index + offset <? 0) || (index + offset >=? Json.lengthOf elements) then
                 Throw (mkError InvalidReferenceError "The element index is out of bounds.")
               else
                 Pointer.get (mkPointer (tl (relativeSegments rp)))
                   (Json.arrayGet elements (index + offset))).
Proof.
  intros Hrp Hkey Hoffset Hget Hbound k d offset j notAnElement.
  pose proof (getParentIndex_nonneg rp Hrp) as Hk.
  destruct (get_traverseLoop base root v Hget) as [es [Hloop [Hlen Hfst]]].
  pose proof (referenceStack_offset InvalidReferenceError rp root base es
                Hloop Hfst Hoffset (conj Hk Hbound)) as Hstack.
  cbv zeta in Hstack. fold k d offset j in Hstack.
  unfold RelativePointer.V1.get, RelativePointer.V1.getReferenceStack.
  rewrite Hstack.
  split; [|split].
  - intros Heq. rewrite (proj2 (Z.eqb_eq k d) Heq). reflexivity.
  - intros key Hlt Hsegment.
    replace (k =? d) with false by (symmetry; apply Z.eqb_neq; lia).
    rewrite Hsegment. destruct (finalValue root (firstn j es)); reflexivity.
  - intros index Hlt Hsegment.
    replace (k =? d) with false by (symmetry; apply Z.eqb_neq; lia).
    rewrite Hsegment.
    assert (Hj : (j < List.length (segments base))%nat)
      by (unfold j, d, Pointer.getDepth in *; lia).
    pose proof (traverseLoop_prefix_lookup _ _ _ _ _ j Hloop) as Hparent.
    pose proof (traverseLoop_prefix_lookup _ _ _ _ _ (S j) Hloop) as Hchild.
    rewrite (firstn_snoc (segments base) j (SegStr "") Hj), lookup_snoc in Hchild.
    rewrite Hparent, Hsegment in Hchild. cbn [lookup] in Hchild.
    destruct (finalValue root (firstn j es)) as [| | b | m | str | elements | properties | name |];
      try discriminate.
    exists elements. split; [apply get_lookup; exact Hparent|].
    destruct ((index + offset <? 0) || (index + offset >=? Json.lengthOf elements));
      [reflexivity|].
    cbn [bind]. unfold RelativePointer.top. rewrite last_last.
    rewrite Hkey, (getRemainderPointer_valid rp Hrp). reflexivity.
Qed.

Lemma offset_pointer_reads_sibling_witness :
  let rp := mkRelative [SegStr "0-1"; SegStr "id"] in
  let base := mkPointer [SegStr "items"; SegNum 1] in
  let first := JObject [("id", JNumber 7)] in
  let root := JObject [("items", JArray [first; JObject [("id", JNumber 8)]])] in
  RelativePointer.parse "0-1/id" = Ok rp
  /\ RelativePointer.getParentIndexOffset rp = -1
  /\ RelativePointer.V1.get rp root base = Ok (JNumber 7)
  /\ exists elements,
       Pointer.get (mkPointer [SegStr "items"]) root = Ok (JArray elements)
       /\ RelativePointer.V1.get rp root base
          = if (1 + -1 <? 0) || (1 + -1 >=? Json.lengthOf elements) then
              Throw (mkError InvalidReferenceError "The element index is out of bounds.")
            else Pointer.get (mkPointer [SegStr "id"]) (Json.arrayGet elements (1 + -1)).
Proof.
  intros rp base first root. split; [reflexivity|]. split; [reflexivity|].
  split; [reflexivity|].
  exact (proj2 (proj2 (offset_pointer_reads_sibling rp base root
                         (JObject [("id", JNumber 8)])
                         eq_refl eq_refl ltac:(discriminate) eq_refl ltac:(discriminate)))
           1 eq_refl eq_refl).
Defined.

(** ** The round trip of relative pointers *)

Lemma parse_joined pieces :
  pieces <> [] ->
  (forall e, In e pieces -> occurs "/" e = false /\ Js.hasInvalidEscape e = false) ->
  Pointer.parse (String "/" (Js.join "/" pieces))
  = Ok (mkPointer (map Pointer.unescapeSegment pieces)).
Proof.
  intros Hne Hall. destruct (split_join pieces Hne Hall) as [Hsplit Hescape].
  unfold Pointer.parse.
  change (Js.hasInvalidEscape (String "/" (Js.join "/" pieces)))
    with (Js.hasInvalidEscape (Js.join "/" pieces)).
  rewrite Hescape. cbn [Ascii.eqb Bool.eqb negb]. rewrite Hsplit. reflexivity.
Qed.

Lemma no_tilde_valid_escapes s : occurs "~" s = false -> Js.hasInvalidEscape s = false.
Proof.
  induction s as [|c r IH]; [reflexivity|].
  cbn [occurs Js.hasInvalidEscape]. intros H. apply orb_false_iff in H as [Hc Hr].
  rewrite Hc. auto.
Qed.

Lemma dropDigits_no_slash s :
  occurs "/" (Js.dropDigits s) = false -> occurs "/" s = false.
Proof.
  induction s as [|c r IH]; [reflexivity|].
  cbn [Js.dropDigits]. destruct (Js.isDigit c) eqn:Hc; [|auto].
  intros H. cbn [occurs]. rewrite (digit_not_slash c Hc). auto.
Qed.

(** A string of the origin grammar holds no [/]. *)
Lemma matchesOrigin_no_slash s : Js.matchesOrigin s = true -> occurs "/" s = false.
Proof.
  unfold Js.matchesOrigin. intros H. apply andb_true_iff in H as [_ H].
  apply dropDigits_no_slash.
  destruct (Js.dropDigits s) as [|c r]; [reflexivity|].
  assert (Hhash : forall t, Js.skipHash t = EmptyString -> occurs "/" t = false).
  { intros [|d [|d' t']]; cbn [Js.skipHash]; try reflexivity.
    - destruct (Ascii.eqb d "#") eqn:E; [|discriminate].
      apply Ascii.eqb_eq in E. subst d. reflexivity.
    - destruct (Ascii.eqb d "#"); discriminate. }
  unfold Js.skipOffset in H.
  destruct (Js.isSign c && Js.startsWithDigit r) eqn:E.
  - apply andb_true_iff in E as [Hc _]. cbn [occurs].
    destruct (sign_not_slash c Hc) as [-> _]. cbn [orb].
    apply dropDigits_no_slash. apply Hhash.
    destruct (Js.skipHash (Js.dropDigits r)); [reflexivity | discriminate].
  - apply Hhash. destruct (Js.skipHash (String c r)); [reflexivity | discriminate].
Qed.

(** The test of [parse] looks at the part of the string before its first
    [/] only. *)
Lemma matchesOriginPrefix_of_head s :
  Js.matchesOrigin (beforeSlash s) = true -> Js.matchesOriginPrefix s = true.
Proof.
  unfold Js.matchesOriginPrefix, Js.matchesOrigin.
  rewrite startsWithDigit_beforeSlash.
  rewrite dropDigits_beforeSlash, skipOffset_beforeSlash, skipHash_beforeSlash.
  intros H. apply andb_true_iff in H as [Hdigit Hrest]. rewrite Hdigit.
  destruct (Js.skipHash (Js.skipOffset (Js.dropDigits s))) as [|c r]; [reflexivity|].
  cbn [beforeSlash] in Hrest. cbn [andb].
  destruct (Ascii.eqb c "/"); [reflexivity | discriminate].
Qed.

Lemma beforeSlash_joined head rest :
  occurs "/" head = false -> beforeSlash (Js.join "/" (head :: rest)) = head.
Proof.
  intros Hhead. unfold Js.join.
  assert (Hself : forall s, occurs "/" s = false -> beforeSlash s = s).
  { induction s as [|c r IH]; [reflexivity|].
    cbn [occurs beforeSlash]. intros H. apply orb_false_iff in H as [Hc Hr].
    rewrite Hc, IH by exact Hr. reflexivity. }
  destruct rest as [|next rest]; [apply Hself; exact Hhead|].
  change (String.concat "/" (head :: next :: rest))
    with (head ++ String "/" (String.concat "/" (next :: rest)))%string.
  induction head as [|c r IH]; [reflexivity|].
  cbn [occurs] in Hhead. apply orb_false_iff in Hhead as [Hc Hr].
  change (String c r ++ String "/" (String.concat "/" (next :: rest)))%string
    with (String c (r ++ String "/" (String.concat "/" (next :: rest)))).
  cbn [beforeSlash]. rewrite Hc, IH by exact Hr. reflexivity.
Qed.

Lemma append_empty s : (s ++ "")%string = s.
Proof.
  induction s as [|c r IH]; [reflexivity|].
  change (String c r ++ "")%string with (String c (r ++ "")). rewrite IH. reflexivity.
Qed.

(** The origin token, read back. *)
Lemma unescapeSegment_origin first :
  validSegment first = true ->
  Js.matchesOrigin (segmentToString first) = true ->
  Pointer.unescapeSegment (segmentToString first) = first.
Proof.
  intros Hvalid Horigin. destruct first as [n | key].
  - cbn [validSegment] in Hvalid. apply andb_true_iff in Hvalid as [Hn _].
    apply Z.leb_le in Hn. cbn [segmentToString].
    unfold Pointer.unescapeSegment, Pointer.normalizeSegment. cbn [segmentToString].
    destruct (numberToString_parseInt n Hn) as [-> ->]. reflexivity.
  - cbn [validSegment] in Hvalid. apply negb_true_iff in Hvalid.
    cbn [segmentToString] in *.
    unfold Pointer.unescapeSegment, Pointer.normalizeSegment. cbn [segmentToString].
    rewrite Hvalid.
    pose proof (matchesOrigin_no_tilde _ Horigin) as Htilde.
    rewrite !replaceEscape_no_tilde by (rewrite ?replaceEscape_no_tilde; exact Htilde).
    reflexivity.
Qed.

(** X14. The round trip of relative pointers: on a relative pointer that
    satisfies the invariant and in whose keys after the origin neither [~]
    nor [/] occurs twice, [toString] returns the origin followed by the
    serialized remainder, and [parse] of that string returns the pointer. *)
Theorem relative_roundtrip (rp : JsonRelativePointer) :
  validRelative rp = true ->
  forallb reservedAtMostOnce (tl (relativeSegments rp)) = true ->
  let text :=
    (RelativePointer.origin rp
       ++ Pointer.toString (mkPointer (tl (relativeSegments rp))))%string in
  RelativePointer.toString rp = Ok text
  /\ RelativePointer.parse text = Ok rp
  /\ RelativePointer.from (RelativeString text) = Ok rp
  /\ (parsed <- RelativePointer.parse text ;; Ok (RelativePointer.equals parsed rp))
     = Ok true.
Proof.
  intros Hrp Honce text.
  assert (Hvalid : forallb validSegment (relativeSegments rp) = true).
  { unfold validRelative in Hrp. destruct (relativeSegments rp); [discriminate|].
    apply andb_true_iff in Hrp. tauto. }
  destruct (validRelative_shape rp Hrp) as [first [rest [Hseg [Horigin Hrest]]]].
  destruct rp as [segs]. cbn [relativeSegments] in *. subst segs.
  unfold text, RelativePointer.origin. cbn [relativeSegments tl] in *.
  assert (Hparse : RelativePointer.parse
                     (segmentToString first ++ Pointer.toString (mkPointer rest))
                   = Ok (mkRelative (first :: rest))).
  { set (pieces := segmentToString first :: map Pointer.escapeSegment rest).
    assert (Htext : (segmentToString first ++ Pointer.toString (mkPointer rest))%string
                    = Js.join "/" pieces).
    { unfold Pointer.toString, Pointer.isRoot, pieces. cbn [segments].
      destruct rest as [|next rest]; [apply append_empty|]. reflexivity. }
    rewrite Htext.
    assert (Hpieces : forall e, In e pieces ->
                        occurs "/" e = false /\ Js.hasInvalidEscape e = false).
    { intros e [<- | He].
      - split; [apply matchesOrigin_no_slash; exact Horigin|].
        apply no_tilde_valid_escapes, matchesOrigin_no_tilde. exact Horigin.
      - apply in_map_iff in He as [segment [<- Hin]].
        rewrite forallb_forall in Hrest, Honce.
        destruct (escapeSegment_inverse segment (Hrest _ Hin) (Honce _ Hin))
          as [H1 [H2 _]].
        split; assumption. }
    unfold RelativePointer.parse.
    rewrite matchesOriginPrefix_of_head
      by (unfold pieces; rewrite beforeSlash_joined;
          [exact Horigin | apply matchesOrigin_no_slash; exact Horigin]).
    cbn [negb]. change ("/" ++ Js.join "/" pieces)%string with (String "/" (Js.join "/" pieces)).
    rewrite (parse_joined pieces) by first [exact Hpieces | unfold pieces; discriminate].
    cbn [bind Pointer.getSegments segments].
    assert (Hback : map Pointer.unescapeSegment pieces = first :: rest).
    { unfold pieces. cbn [map]. f_equal.
      - apply unescapeSegment_origin; [|exact Horigin].
        cbn [forallb] in Hvalid. apply andb_true_iff in Hvalid. tauto.
      - rewrite map_map. rewrite <- (map_id rest) at 2.
        apply map_ext_in. intros segment Hin.
        rewrite forallb_forall in Hrest, Honce.
        apply (escapeSegment_inverse segment (Hrest _ Hin) (Honce _ Hin)). }
    rewrite Hback. unfold RelativePointer.fromSegments. cbn [List.length Nat.eqb].
    rewrite (from_valid_segments _ Hvalid). reflexivity. }
  split; [|split; [exact Hparse|split; [exact Hparse|]]].
  - unfold RelativePointer.toString. cbn [relativeSegments].
    rewrite (from_valid_segments rest Hrest). reflexivity.
  - rewrite Hparse. cbn [bind]. unfold RelativePointer.equals.
    rewrite (proj2 (segmentsEqb_eq _ _) eq_refl). reflexivity.
Qed.

Lemma relative_roundtrip_witness :
  let rp := mkRelative [SegStr "2+1"; SegStr "a/b"; SegNum 3] in
  validRelative rp = true
  /\ RelativePointer.toString rp = Ok "2+1/a~1b/3"
  /\ RelativePointer.parse "2+1/a~1b/3" = Ok rp.
Proof.
  intros rp. split; [reflexivity|]. split; [reflexivity|].
  exact (proj1 (proj2 (relative_roundtrip rp eq_refl eq_refl))).
Defined.

(** ** Relative pointers built from a number *)

Lemma digit_not_hash c : Js.isDigit c = true -> Ascii.eqb c "#" = false.
Proof.
  destruct c as [[] [] [] [] [] [] [] []]; vm_compute; intros H;
    (discriminate || reflexivity).
Qed.

(** A string of digits carries neither an offset nor a hash. *)
Lemma allDigits_plain_origin s :
  Js.allDigitChars s = true ->
  Js.execOffset s = None /\ Js.endsWith "#" s = false.
Proof.
  induction s as [|c r IH]; [split; reflexivity|].
  cbn [Js.allDigitChars]. intros H. apply andb_true_iff in H as [Hc Hr].
  destruct (IH Hr) as [IH1 IH2]. split.
  - cbn [Js.execOffset Js.offsetMatchAt]. unfold Js.isSign.
    destruct (digit_not_sign c Hc) as [-> ->]. cbn [orb andb]. exact IH1.
  - cbn [Js.endsWith]. destruct r as [|d r']; [apply digit_not_hash; exact Hc | exact IH2].
Qed.

Lemma joinedWith_valid a q :
  validPointer a = true -> validPointer q = true ->
  Pointer.joinedWith a (LikePointer q) = Ok (mkPointer (segments a ++ segments q)).
Proof.
  intros Ha Hq. unfold Pointer.joinedWith. cbn [Pointer.from bind].
  unfold Pointer.isRoot.
  destruct (segments q) as [|first rest] eqn:Hsegs; cbn [List.length Nat.eqb].
  - rewrite app_nil_r. destruct a; reflexivity.
  - unfold Pointer.fromSegments. rewrite checkSegments_valid; [reflexivity|].
    unfold validPointer in Ha, Hq. rewrite Hsegs in Hq.
    rewrite forallb_app, Ha, Hq. reflexivity.
Qed.

(** X15. A relative pointer built from a number: [from(n)], for a
    non-negative safe integer [n], is the pointer whose parent index is [n],
    without offset, that is not a key pointer and whose remainder is the root;
    it prints as the decimal notation of [n]; and resolving it against a base
    pointer truncates the base [n] levels up, failing with "The relative
    pointer is out of bounds." when the base is not that deep. *)
Theorem relative_from_number_goes_up (n : Z) (base : JsonPointer) :
  0 <= n <= Pointer.MAX_SAFE_INTEGER ->
  validPointer base = true ->
  let rp := mkRelative [SegNum n] in
  RelativePointer.from (RelativeNumber n) = Ok rp
  /\ RelativePointer.getParentIndex rp = n
  /\ RelativePointer.getParentIndexOffset rp = 0
  /\ RelativePointer.isKeyPointer rp = false
  /\ RelativePointer.getRemainderPointer rp = Ok Pointer.root
  /\ RelativePointer.toString rp = Ok (Js.numberToString n)
  /\ (n <= Pointer.getDepth base ->
      RelativePointer.resolve rp (LikePointer base)
      = Pointer.truncatedAt base (Pointer.getDepth base - n))
  /\ (Pointer.getDepth base < n ->
      RelativePointer.resolve rp (LikePointer base)
      = Throw (mkError JsonPointerError "The relative pointer is out of bounds.")).
Proof.
  intros Hn Hbase rp.
  destruct (numberToString_parseInt n (proj1 Hn)) as [Hdigits Hparse].
  assert (Hall : Js.allDigitChars (Js.numberToString n) = true).
  { unfold Js.isDigits in Hdigits.
    destruct (Js.numberToString n); [discriminate | exact Hdigits]. }
  destruct (allDigits_plain_origin _ Hall) as [Hexec Hhash].
  assert (Hsegment : validSegment (SegNum n) = true).
  { cbn [validSegment]. unfold Pointer.isSafeInteger, Pointer.MAX_SAFE_INTEGER in *.
    apply andb_true_iff. split; [apply Z.leb_le; lia|].
    apply andb_true_iff. split; apply Z.leb_le; lia. }
  assert (Hrp : validRelative rp = true).
  { unfold validRelative, rp. cbn [relativeSegments forallb segmentToString].
    rewrite (isDigits_matchesOrigin _ Hdigits), Hsegment. reflexivity. }
  assert (Hindex : RelativePointer.getParentIndex rp = n) by exact Hparse.
  assert (Hoffset : RelativePointer.getParentIndexOffset rp = 0).
  { unfold RelativePointer.getParentIndexOffset, RelativePointer.origin, rp.
    cbn [relativeSegments segmentToString]. rewrite Hexec. reflexivity. }
  assert (Hkey : RelativePointer.isKeyPointer rp = false) by exact Hhash.
  split; [|split; [exact Hindex|split; [exact Hoffset|split; [exact Hkey|split; [|split; [|split]]]]]].
  - cbn [RelativePointer.from]. unfold RelativePointer.fromSegments.
    cbn [List.length Nat.eqb].
    rewrite (from_valid_segments [SegNum n]) by (cbn [forallb]; rewrite Hsegment; reflexivity).
    reflexivity.
  - reflexivity.
  - unfold RelativePointer.toString, rp. cbn [relativeSegments segmentToString].
    cbn [Pointer.from map Pointer.fromSegments Pointer.checkSegments bind].
    unfold Pointer.toString. cbn [Pointer.isRoot segments List.length Nat.eqb].
    rewrite append_empty. reflexivity.
  - intros Hdepth.
    rewrite (resolve_within_bounds rp base Hrp)
      by (try assumption; try (rewrite Hindex; exact Hdepth);
          apply forallb_firstn; exact Hbase).
    rewrite Hindex. cbn [relativeSegments rp tl]. rewrite app_nil_r.
    unfold Pointer.getDepth in *.
    rewrite <- (truncatedAt_within base
                  (Z.to_nat (Z.of_nat (List.length (segments base)) - n))) by lia.
    rewrite Z2Nat.id by lia. reflexivity.
  - intros Hdepth. unfold RelativePointer.resolve.
    rewrite Hkey, Hoffset, Hindex. cbn [Z.eqb negb Pointer.from bind].
    unfold Pointer.getSegments, Pointer.getDepth in *.
    replace (n >? Z.of_nat (List.length (segments base))) with true
      by (symmetry; rewrite Z.gtb_ltb; apply Z.ltb_lt; lia).
    reflexivity.
Qed.

Lemma relative_from_number_goes_up_witness :
  let base := mkPointer [SegStr "foo"; SegNum 1; SegStr "bar"] in
  (0 <= 2 <= Pointer.MAX_SAFE_INTEGER)
  /\ RelativePointer.from (RelativeNumber 2) = Ok (mkRelative [SegNum 2])
  /\ (2 <= Pointer.getDepth base ->
      RelativePointer.resolve (mkRelative [SegNum 2]) (LikePointer base)
      = Pointer.truncatedAt base (Pointer.getDepth base - 2)).
Proof.
  intros base.
  assert (Hn : 0 <= 2 <= Pointer.MAX_SAFE_INTEGER) by (split; discriminate).
  split; [exact Hn|].
  split; [exact (proj1 (relative_from_number_goes_up 2 base Hn eq_refl))|].
  exact (proj1 (proj2 (proj2 (proj2 (proj2 (proj2 (proj2
           (relative_from_number_goes_up 2 base Hn eq_refl)))))))).
Defined.

(** ** Joining relative pointers *)

(** X16. Joining a relative pointer that is not a key pointer with a
    pointer appends the segments of the pointer and keeps the origin; and
    joining commutes with resolution: resolving the joined pointer against a
    base gives the pointer that joining the resolved pointer gives.  A key
    pointer cannot be joined. *)
Theorem relative_joinedWith_then_resolve (rp : JsonRelativePointer) (q base : JsonPointer) :
  validRelative rp = true ->
  validPointer q = true ->
  validPointer base = true ->
  let joined := mkRelative (relativeSegments rp ++ segments q) in
  (RelativePointer.isKeyPointer rp = true ->
   RelativePointer.joinedWith rp (LikePointer q)
   = Throw (mkError JsonPointerError "Cannot join a key pointer."))
  /\ (RelativePointer.isKeyPointer rp = false ->
      RelativePointer.joinedWith rp (LikePointer q) = Ok joined
      /\ validRelative joined = true
      /\ RelativePointer.origin joined = RelativePointer.origin rp
      /\ (RelativePointer.getParentIndexOffset rp = 0 ->
          RelativePointer.getParentIndex rp <= Pointer.getDepth base ->
          RelativePointer.resolve joined (LikePointer base)
          = (resolved <- RelativePointer.resolve rp (LikePointer base) ;;
             Pointer.joinedWith resolved (LikePointer q)))).
Proof.
  intros Hrp Hq Hbase joined.
  split; [intros Hkey; unfold RelativePointer.joinedWith; rewrite Hkey; reflexivity|].
  intros Hkey.
  assert (Hvalid : forallb validSegment (relativeSegments rp) = true).
  { unfold validRelative in Hrp. destruct (relativeSegments rp); [discriminate|].
    apply andb_true_iff in Hrp. tauto. }
  destruct (validRelative_shape rp Hrp) as [first [rest [Hseg [Horigin Hrest]]]].
  assert (Horiginjoined : RelativePointer.origin joined = RelativePointer.origin rp).
  { unfold RelativePointer.origin, joined. cbn [relativeSegments]. rewrite Hseg. reflexivity. }
  assert (Hjoined : validRelative joined = true).
  { unfold validRelative, joined. cbn [relativeSegments]. rewrite Hseg in *.
    cbn [app]. rewrite Horigin. cbn [andb].
    change (first :: rest ++ segments q) with ((first :: rest) ++ segments q).
    rewrite forallb_app, Hvalid. exact Hq. }
  split; [|split; [exact Hjoined|split; [exact Horiginjoined|]]].
  - unfold RelativePointer.joinedWith. rewrite Hkey. cbn [Pointer.from bind].
    unfold Pointer.isRoot, Pointer.getSegments, joined.
    destruct (segments q) as [|next more] eqn:Hsegs; cbn [List.length Nat.eqb].
    + rewrite app_nil_r. destruct rp; reflexivity.
    + unfold RelativePointer.fromSegments.
      replace (List.length (relativeSegments rp ++ next :: more) =? 0)%nat with false
        by (symmetry; apply Nat.eqb_neq; rewrite length_app; simpl; lia).
      rewrite from_valid_segments
        by (rewrite forallb_app, Hvalid; unfold validPointer in Hq;
            rewrite Hsegs in Hq; exact Hq).
      reflexivity.
  - intros Hoffset Hbound.
    assert (Hprefix : forallb validSegment
                        (firstn (Z.to_nat (Pointer.getDepth base
                                           - RelativePointer.getParentIndex rp))
                           (segments base)) = true)
      by (apply forallb_firstn; exact Hbase).
    rewrite (resolve_within_bounds rp base Hrp Hprefix Hkey Hoffset Hbound).
    cbn [bind].
    rewrite joinedWith_valid;
      [|unfold validPointer; cbn [segments]; rewrite forallb_app, Hprefix;
        rewrite Hseg; exact Hrest | exact Hq].
    assert (Hsame : RelativePointer.getParentIndex joined
                    = RelativePointer.getParentIndex rp)
      by (unfold RelativePointer.getParentIndex; rewrite Horiginjoined; reflexivity).
    rewrite (resolve_within_bounds joined base Hjoined).
    + rewrite Hsame. unfold joined. cbn [relativeSegments segments].
      rewrite Hseg. cbn [tl app]. rewrite app_assoc. reflexivity.
    + rewrite Hsame. exact Hprefix.
    + unfold RelativePointer.isKeyPointer in *. rewrite Horiginjoined. exact Hkey.
    + unfold RelativePointer.getParentIndexOffset in *. rewrite Horiginjoined. exact Hoffset.
    + rewrite Hsame. exact Hbound.
Qed.

Lemma relative_joinedWith_then_resolve_witness :
  let rp := mkRelative [SegNum 1; SegStr "bar"] in
  let q := mkPointer [SegStr "baz"] in
  let base := mkPointer [SegStr "foo"; SegStr "qux"] in
  RelativePointer.joinedWith rp (LikePointer q)
  = Ok (mkRelative [SegNum 1; SegStr "bar"; SegStr "baz"])
  /\ RelativePointer.resolve (mkRelative [SegNum 1; SegStr "bar"; SegStr "baz"])
       (LikePointer base)
     = Ok (mkPointer [SegStr "foo"; SegStr "bar"; SegStr "baz"]).
Proof.
  intros rp q base.
  split; [|reflexivity].
  exact (proj1 (proj2 (relative_joinedWith_then_resolve rp q base eq_refl eq_refl eq_refl)
                  eq_refl)).
Defined.

(** ** Writing below a location *)

(** Every error of a traversal is a reference error. *)
Lemma traverseLoop_error_class rest : forall this i current entries e,
  (i + List.length rest <= List.length (segments this))%nat ->
  Pointer.traverseLoop this i rest current = (entries, Some e) ->
  errorClass e = InvalidReferenceError.
Proof.
  induction rest as [|segment rest IH]; intros this i current entries e Hi H;
    [discriminate|].
  cbn [List.length] in Hi. cbn [Pointer.traverseLoop] in H.
  assert (Hclass : forall prefix suffix es,
             (es, Pointer.referenceErrorAt this i prefix suffix) = (entries, Some e) ->
             errorClass e = InvalidReferenceError).
  { intros prefix suffix es Heq. rewrite referenceErrorAt_within in Heq by lia.
    inversion Heq. reflexivity. }
  destruct current as [| | b | m | s | elements | properties | name |]; try (eapply Hclass; exact H).
  - destruct segment as [n | s].
    + destruct (n >=? Json.lengthOf elements); [eapply Hclass; exact H|].
      destruct (Pointer.traverseLoop this (S i) rest (Json.arrayGet elements n))
        as [es [e'|]] eqn:E; [|discriminate].
      inversion H; subst. eapply (IH this (S i)); [lia | exact E].
    + destruct (String.eqb s "-"); eapply Hclass; exact H.
  - destruct segment as [n | s]; [eapply Hclass; exact H|].
    destruct (negb (Json.hasProperty properties s)); [eapply Hclass; exact H|].
    destruct (Pointer.traverseLoop this (S i) rest (Json.getProperty properties s))
      as [es [e'|]] eqn:E; [|discriminate].
    inversion H; subst. eapply (IH this (S i)); [lia | exact E].
  - destruct segment as [n | s]; [eapply Hclass; exact H|].
    destruct (negb (Json.inPrototype s)); [eapply Hclass; exact H|].
    destruct (Pointer.traverseLoop this (S i) rest (Json.prototypeGet s))
      as [es [e'|]] eqn:E; [|discriminate].
    inversion H; subst. eapply (IH this (S i)); [lia | exact E].
Qed.

Lemma get_throws_class this root e :
  Pointer.get this root = Throw e -> errorClass e = InvalidReferenceError.
Proof.
  unfold Pointer.get, Pointer.traverse.
  destruct (Pointer.traverseLoop this 0 (segments this) root) as [es [e'|]] eqn:Hloop;
    [|discriminate].
  intros H. inversion H; subst e'.
  eapply (traverseLoop_error_class _ this 0%nat); [|exact Hloop]. simpl. lia.
Qed.

Lemma writeBack_app pre : forall root target post replacement,
  lookup pre root = Some target ->
  Pointer.writeBack root (pre ++ post) replacement
  = Pointer.writeBack root pre (Pointer.writeBack target post replacement).
Proof.
  induction pre as [|segment pre IH]; intros root target post replacement H.
  - simpl in H. inversion H; subst. reflexivity.
  - cbn [lookup app Pointer.writeBack] in *.
    destruct root as [| | b | m | s | elements | properties | name |]; try discriminate;
      destruct segment as [n | key]; try discriminate.
    + destruct (n >=? Json.lengthOf elements); [discriminate|].
      rewrite (IH _ _ _ _ H). reflexivity.
    + destruct (Json.hasProperty properties key); [|discriminate].
      destruct (Json.hasOwnProperty properties key) eqn:Hkey; [|reflexivity].
      destruct (getProperty_own _ _ Hkey) as [_ Hget]. rewrite Hget in H.
      rewrite (IH _ _ _ _ H). reflexivity.
    + reflexivity.
Qed.

Lemma last_app_nonempty {A : Type} (l l' : list A) (d : A) :
  l' <> [] -> last (l ++ l') d = last l' d.
Proof.
  intros Hne. induction l as [|a l IH]; [reflexivity|].
  cbn [app]. destruct (l ++ l') as [|b t] eqn:E.
  - destruct l; [simpl in E; congruence | discriminate].
  - change (last (a :: b :: t) d) with (last (b :: t) d). exact IH.
Qed.

(** The parent of a location below [pre], seen from the root and from the
    value at [pre]. *)
Lemma get_parent_app pre post root target :
  lookup pre root = Some target ->
  match Pointer.get (mkPointer post) target with
  | Ok parent => Pointer.get (mkPointer (pre ++ post)) root = Ok parent
  | Throw e =>
      exists e',
        Pointer.get (mkPointer (pre ++ post)) root = Throw e'
        /\ errorClass e' = errorClass e
  end.
Proof.
  intros Hpre.
  destruct (Pointer.get (mkPointer post) target) as [parent | e] eqn:Hget.
  - apply get_lookup. apply get_lookup in Hget. cbn [segments] in *.
    rewrite (lookup_app _ _ _ _ Hpre). exact Hget.
  - assert (Hnone : lookup post target = None)
      by (apply (proj1 (get_throws_lookup (mkPointer post) target)); eauto).
    destruct (proj2 (get_throws_lookup (mkPointer (pre ++ post)) root)) as [e' He'].
    { cbn [segments]. rewrite (lookup_app _ _ _ _ Hpre). exact Hnone. }
    exists e'. split; [exact He'|].
    rewrite (get_throws_class _ _ _ He'), (get_throws_class _ _ _ Hget). reflexivity.
Qed.

(** [set] below a location: the assignment made in the value at [pre],
    written back at [pre]; an error has the class it has there. *)
Lemma set_app pre post root target value :
  lookup pre root = Some target -> post <> [] ->
  match Pointer.set (mkPointer post) target value with
  | Ok target' =>
      Pointer.set (mkPointer (pre ++ post)) root value
      = Ok (Pointer.writeBack root pre target')
  | Throw e =>
      exists e',
        Pointer.set (mkPointer (pre ++ post)) root value = Throw e'
        /\ errorClass e' = errorClass e
  end.
Proof.
  intros Hpre Hpost.
  assert (Hroot : Pointer.isRoot (mkPointer post) = false)
    by (unfold Pointer.isRoot; cbn [segments]; destruct post; [congruence | reflexivity]).
  assert (Hroot' : Pointer.isRoot (mkPointer (pre ++ post)) = false).
  { unfold Pointer.isRoot. cbn [segments]. apply Nat.eqb_neq. rewrite length_app.
    destruct post; [congruence | simpl; lia]. }
  unfold Pointer.set. rewrite Hroot, Hroot'.
  rewrite (getParent_nonroot _ Hroot), (getParent_nonroot _ Hroot').
  cbn [bind segments]. unfold Pointer.lastSegment. cbn [segments].
  rewrite (removelast_app pre Hpost), (last_app_nonempty pre post _ Hpost).
  pose proof (get_parent_app pre (removelast post) root target Hpre) as Hparent.
  destruct (Pointer.get (mkPointer (removelast post)) target) as [parent | e].
  - rewrite Hparent. cbn [bind segments].
    destruct parent as [| | b | m | s | elements | properties | name |];
      try (eexists; split; reflexivity).
    + destruct (last post (SegStr "undefined")) as [n | key].
      * destruct (n >? Json.lengthOf elements); [eexists; split; reflexivity|].
        rewrite (writeBack_app _ _ _ _ _ Hpre). reflexivity.
      * destruct (String.eqb key "-"); [|eexists; split; reflexivity].
        rewrite (writeBack_app _ _ _ _ _ Hpre). reflexivity.
    + destruct (last post (SegStr "undefined")) as [n | key];
        [eexists; split; reflexivity|].
      destruct (String.eqb key "-"); [eexists; split; reflexivity|].
      rewrite (writeBack_app _ _ _ _ _ Hpre). reflexivity.
    + destruct (last post (SegStr "undefined")) as [n | key];
        [eexists; split; reflexivity|].
      destruct (String.eqb key "-"); [eexists; split; reflexivity|].
      destruct (String.eqb key "__proto__" && Json.isObjectValue value);
        [eexists; split; reflexivity|].
      rewrite (writeBack_same pre root target Hpre). reflexivity.
  - destruct Hparent as [e' [-> Hclass]]. cbn [bind]. eauto.
Qed.

(** [unset] below a location: the removal made in the value at [pre],
    written back at [pre]. *)
Lemma unset_app pre post root target :
  lookup pre root = Some target -> post <> [] ->
  Pointer.unset (mkPointer (pre ++ post)) root
  = (result <- Pointer.unset (mkPointer post) target ;;
     Ok (fst result, Pointer.writeBack root pre (snd result))).
Proof.
  intros Hpre Hpost.
  assert (Hroot : Pointer.isRoot (mkPointer post) = false)
    by (unfold Pointer.isRoot; cbn [segments]; destruct post; [congruence | reflexivity]).
  assert (Hroot' : Pointer.isRoot (mkPointer (pre ++ post)) = false).
  { unfold Pointer.isRoot. cbn [segments]. apply Nat.eqb_neq. rewrite length_app.
    destruct post; [congruence | simpl; lia]. }
  pose proof (writeBack_same pre root target Hpre) as Hsame.
  unfold Pointer.unset. rewrite Hroot, Hroot'.
  rewrite (getParent_nonroot _ Hroot), (getParent_nonroot _ Hroot').
  cbn [bind segments]. unfold Pointer.lastSegment. cbn [segments].
  rewrite (removelast_app pre Hpost), (last_app_nonempty pre post _ Hpost).
  pose proof (get_parent_app pre (removelast post) root target Hpre) as Hparent.
  destruct (Pointer.get (mkPointer (removelast post)) target) as [parent | e].
  - rewrite Hparent. cbn [bind tryCatch segments fst snd].
    destruct parent as [| | b | m | s | elements | properties | name |];
      cbn [bind fst snd]; rewrite ?Hsame; try reflexivity.
    + destruct (last post (SegStr "undefined")) as [n | key];
        cbn [bind fst snd]; rewrite ?Hsame; try reflexivity.
      destruct (n >=? Json.lengthOf elements); cbn [bind fst snd]; rewrite ?Hsame;
        [reflexivity|].
      rewrite (writeBack_app _ _ _ _ _ Hpre). reflexivity.
    + destruct (last post (SegStr "undefined")) as [n | key];
        cbn [bind fst snd]; rewrite ?Hsame; try reflexivity.
      destruct (negb (Json.hasProperty properties key)); cbn [bind fst snd];
        rewrite ?Hsame; [reflexivity|].
      rewrite (writeBack_app _ _ _ _ _ Hpre). reflexivity.
    + destruct (last post (SegStr "undefined")) as [n | key];
        cbn [bind fst snd]; rewrite ?Hsame; try reflexivity.
      destruct (negb (Json.inPrototype key)); cbn [bind fst snd];
        rewrite ?Hsame; reflexivity.
  - destruct Hparent as [e' [-> _]]. cbn [bind tryCatch fst snd]. rewrite Hsame.
    reflexivity.
Qed.

(** ** Writing through a relative pointer *)

Lemma stackPath_entries (es : list Entry) : forall l,
  map fst es = map Some l -> RelativePointer.stackPath es = l.
Proof.
  induction es as [|[segment value] es IH]; intros [|s l] H; try discriminate;
    [reflexivity|].
  cbn [map fst] in H. inversion H; subst.
  cbn [RelativePointer.stackPath]. f_equal. apply IH. assumption.
Qed.

(** The stack of a pointer without offset whose base resolves, by what the
    revisions of [set] and [unset] read of it. *)
Lemma resolved_stack c rp root base v :
  validRelative rp = true ->
  RelativePointer.getParentIndexOffset rp = 0 ->
  Pointer.get base root = Ok v ->
  RelativePointer.getParentIndex rp <= Pointer.getDepth base ->
  let m := Z.to_nat (Pointer.getDepth base - RelativePointer.getParentIndex rp) in
  exists stack,
    RelativePointer.referenceStack c rp root base = Ok stack
    /\ List.length stack = S m
    /\ RelativePointer.stackPath stack = firstn m (segments base)
    /\ lookup (firstn m (segments base)) root = Some (snd (RelativePointer.top stack))
    /\ (forall j, m = S j ->
          fst (RelativePointer.top stack) = Some (nth j (segments base) (SegStr ""))
          /\ RelativePointer.stackPath (removelast stack) = firstn j (segments base)
          /\ lookup (firstn j (segments base)) root
             = Some (snd (RelativePointer.entryAt stack
                            (Z.of_nat (List.length stack) - 2)))).
Proof.
  intros Hrp Hoffset Hget Hbound m.
  pose proof (getParentIndex_nonneg rp Hrp) as Hk.
  destruct (get_traverseLoop base root v Hget) as [es [Hloop [Hlen Hfst]]].
  assert (Hm : (m <= List.length es)%nat)
    by (unfold m, Pointer.getDepth in *; lia).
  assert (Hpath : forall n, RelativePointer.stackPath ((None, root) :: firstn n es)
                            = firstn n (segments base)).
  { intros n. cbn [RelativePointer.stackPath]. apply stackPath_entries.
    unfold Entry in *. rewrite <- !firstn_map, Hfst. reflexivity. }
  assert (Hvalue : forall n, (n <= List.length es)%nat ->
             lookup (firstn n (segments base)) root
             = Some (snd (nth n ((None, root) :: es) (None, JUndefined)))).
  { intros n Hn. rewrite (traverseLoop_prefix_lookup _ _ _ _ _ n Hloop).
    rewrite (finalValue_firstn es root n (None, JUndefined) Hn). reflexivity. }
  pose proof (referenceStack_no_offset c rp root base es Hloop Hlen Hoffset Hk) as Hstack.
  pose proof (top_of_stack root es m Hm) as Htop.
  exists ((None, root) :: firstn m es).
  unfold Entry in *.
  split; [|split; [|split; [|split]]].
  - rewrite Hstack.
    replace (RelativePointer.getParentIndex rp >? Pointer.getDepth base) with false
      by (symmetry; rewrite Z.gtb_ltb; apply Z.ltb_ge; lia).
    reflexivity.
  - cbn [List.length]. rewrite length_firstn. lia.
  - apply Hpath.
  - rewrite Htop. apply Hvalue. exact Hm.
  - intros j Hj. rewrite Hj in *. split; [|split].
    + rewrite Htop. cbn [nth].
      pose proof (stack_entry root es (segments base) j (SegStr "") Hfst) as Hentry.
      unfold Entry in *. rewrite Hentry by lia.
      reflexivity.
    + change ((None, root) :: firstn (S j) es)
        with (firstn (S (S j)) ((None, root) :: es)).
      rewrite removelast_firstn by (simpl; lia).
      apply Hpath.
    + cbn [List.length]. rewrite length_firstn.
      replace (Z.of_nat (S (Nat.min (S j) (List.length es))) - 2) with (Z.of_nat j) by lia.
      unfold RelativePointer.entryAt.
      replace (Z.of_nat j <? 0) with false by (symmetry; apply Z.ltb_ge; lia).
      rewrite Nat2Z.id, (Hvalue j) by lia.
      change ((None, root) :: firstn (S j) es)
        with (firstn (S (S j)) ((None, root) :: es)).
      unfold Entry in *. rewrite nth_firstn.
      replace (j <? S (S j))%nat with true by (symmetry; apply Nat.ltb_lt; lia).
      reflexivity.
Qed.

(** X17. [set] through a relative pointer without offset that is not a key
    pointer, against a base pointer that resolves in the root, is [set] of
    the resolved absolute pointer: when it succeeds the root is left as
    [set] of the absolute pointer leaves it, and when it throws, [set] of the
    absolute pointer throws an error of the same class. *)
Theorem relative_set_agrees_with_resolve (rp : JsonRelativePointer)
  (root value v : JsonValue) (base : JsonPointer) :
  validRelative rp = true ->
  forallb shapedSegment (segments base) = true ->
  arraysWithin Pointer.MAX_SAFE_INTEGER root = true ->
  RelativePointer.isKeyPointer rp = false ->
  RelativePointer.getParentIndexOffset rp = 0 ->
  Pointer.get base root = Ok v ->
  RelativePointer.getParentIndex rp <= Pointer.getDepth base ->
  exists absolute,
    RelativePointer.resolve rp (LikePointer base) = Ok absolute
    /\ match RelativePointer.V1.set rp root value base with
       | Ok root' => Pointer.set absolute root value = Ok root'
       | Throw e =>
           exists e',
             Pointer.set absolute root value = Throw e'
             /\ errorClass e' = errorClass e
       end.
Proof.
  intros Hrp Hbase Hroot Hkey Hoffset Hget Hbound.
  pose proof (getParentIndex_nonneg rp Hrp) as Hk.
  destruct (resolved_stack InvalidReferenceError rp root base v Hrp Hoffset Hget Hbound)
    as [stack [Hstack [Hlen [Hpath [Htop Hparent]]]]].
  cbv zeta in *.
  remember (Z.to_nat (Pointer.getDepth base - RelativePointer.getParentIndex rp)) as m
    eqn:Hm.
  assert (Hprefix : forallb validSegment (firstn m (segments base)) = true).
  { eapply lookup_shaped_valid; [|exact Hroot|exact Htop].
    apply forallb_firstn. exact Hbase. }
  destruct (validRelative_shape rp Hrp) as [first [rest [Hseg [_ Hrest]]]].
  eexists. split;
    [apply resolve_within_bounds; try assumption; rewrite <- Hm; exact Hprefix|].
  rewrite <- Hm, Hseg. cbn [tl].
  unfold RelativePointer.V1.set, RelativePointer.V1.getReferenceStack.
  rewrite Hkey, Hstack. cbn [bind].
  rewrite (getRemainderPointer_valid rp Hrp), Hseg. cbn [bind tl].
  unfold Pointer.isRoot. cbn [segments].
  destruct rest as [|next rest]; cbn [List.length Nat.eqb negb].
  - rewrite app_nil_r, Hlen.
    destruct m as [|j].
    + cbn [Nat.ltb Nat.leb firstn]. eexists. split; reflexivity.
    + replace (S (S j) <? 2)%nat with false by (symmetry; apply Nat.ltb_ge; lia).
      destruct (Hparent j eq_refl) as [Hsegment [Hpath' Hstructure]].
      unfold RelativePointer.setThroughParent. rewrite Hsegment, Hpath'.
      assert (Hj : (j < List.length (segments base))%nat)
        by (unfold Pointer.getDepth in *; lia).
      rewrite (firstn_snoc (segments base) j (SegStr "") Hj) in *.
      rewrite forallb_app in Hprefix. apply andb_true_iff in Hprefix as [_ Hlast].
      rewrite (from_valid_segments _ Hlast). cbn [bind].
      pose proof (set_app (firstn j (segments base)) [nth j (segments base) (SegStr "")]
                    root _ value Hstructure ltac:(discriminate)) as Hset.
      destruct (Pointer.set (mkPointer [nth j (segments base) (SegStr "")])
                  (snd (RelativePointer.entryAt stack (Z.of_nat (List.length stack) - 2)))
                  value) as [structure' | e]; exact Hset.
  - unfold RelativePointer.setThroughRemainder. rewrite Hpath.
    pose proof (set_app (firstn m (segments base)) (next :: rest) root _ value
                  Htop ltac:(discriminate)) as Hset.
    destruct (Pointer.set (mkPointer (next :: rest)) (snd (RelativePointer.top stack)) value)
      as [target' | e]; exact Hset.
Qed.

Lemma relative_set_agrees_with_resolve_witness :
  let rp := mkRelative [SegNum 1; SegStr "baz"] in
  let root := JObject [("foo", JObject [("bar", JNull)])] in
  let base := mkPointer [SegStr "foo"; SegStr "bar"] in
  let root' := JObject [("foo", JObject [("bar", JNull); ("baz", JBool true)])] in
  RelativePointer.V1.set rp root (JBool true) base = Ok root'
  /\ exists absolute,
       RelativePointer.resolve rp (LikePointer base) = Ok absolute
       /\ match RelativePointer.V1.set rp root (JBool true) base with
          | Ok root' => Pointer.set absolute root (JBool true) = Ok root'
          | Throw e =>
              exists e',
                Pointer.set absolute root (JBool true) = Throw e'
                /\ errorClass e' = errorClass e
          end.
Proof.
  intros rp root base root'. split; [reflexivity|].
  exact (relative_set_agrees_with_resolve rp root (JBool true) JNull base
           eq_refl eq_refl eq_refl eq_refl eq_refl eq_refl ltac:(discriminate)).
Defined.

(** X18. [unset] through a relative pointer without offset that is not a
    key pointer, against a base pointer that resolves in the root, returns
    what [unset] of the resolved absolute pointer returns and leaves the root
    as it leaves it.  When the resolved pointer is the root both throw "Cannot
    unset the root value.", the relative pointer as a pointer error and the
    absolute pointer as a reference error. *)
Theorem relative_unset_agrees_with_resolve (rp : JsonRelativePointer)
  (root v : JsonValue) (base : JsonPointer) :
  validRelative rp = true ->
  forallb shapedSegment (segments base) = true ->
  arraysWithin Pointer.MAX_SAFE_INTEGER root = true ->
  RelativePointer.isKeyPointer rp = false ->
  RelativePointer.getParentIndexOffset rp = 0 ->
  Pointer.get base root = Ok v ->
  RelativePointer.getParentIndex rp <= Pointer.getDepth base ->
  exists absolute,
    RelativePointer.resolve rp (LikePointer base) = Ok absolute
    /\ if Pointer.isRoot absolute then
         RelativePointer.V1.unset rp root base
         = Throw (mkError JsonPointerError "Cannot unset the root value.")
         /\ Pointer.unset absolute root
            = Throw (mkError InvalidReferenceError "Cannot unset the root value.")
       else RelativePointer.V1.unset rp root base = Pointer.unset absolute root.
Proof.
  intros Hrp Hbase Hroot Hkey Hoffset Hget Hbound.
  pose proof (getParentIndex_nonneg rp Hrp) as Hk.
  destruct (resolved_stack InvalidReferenceError rp root base v Hrp Hoffset Hget Hbound)
    as [stack [Hstack [Hlen [Hpath [Htop Hparent]]]]].
  cbv zeta in *.
  remember (Z.to_nat (Pointer.getDepth base - RelativePointer.getParentIndex rp)) as m
    eqn:Hm.
  assert (Hprefix : forallb validSegment (firstn m (segments base)) = true).
  { eapply lookup_shaped_valid; [|exact Hroot|exact Htop].
    apply forallb_firstn. exact Hbase. }
  destruct (validRelative_shape rp Hrp) as [first [rest [Hseg [_ Hrest]]]].
  eexists. split;
    [apply resolve_within_bounds; try assumption; rewrite <- Hm; exact Hprefix|].
  rewrite <- Hm, Hseg. cbn [tl].
  unfold RelativePointer.V1.unset, RelativePointer.V1.getReferenceStack.
  rewrite Hkey, Hstack. cbn [bind].
  rewrite (getRemainderPointer_valid rp Hrp), Hseg. cbn [bind tl].
  unfold Pointer.isRoot. cbn [segments].
  destruct rest as [|next rest]; cbn [List.length Nat.eqb negb].
  - rewrite app_nil_r, Hlen.
    destruct m as [|j].
    + cbn [Nat.ltb Nat.leb firstn List.length Nat.eqb]. split; reflexivity.
    + replace (S (S j) <? 2)%nat with false by (symmetry; apply Nat.ltb_ge; lia).
      destruct (Hparent j eq_refl) as [Hsegment [Hpath' Hstructure]].
      unfold RelativePointer.unsetThroughParent. rewrite Hsegment, Hpath'.
      assert (Hj : (j < List.length (segments base))%nat)
        by (unfold Pointer.getDepth in *; lia).
      rewrite (firstn_snoc (segments base) j (SegStr "") Hj) in *.
      rewrite forallb_app in Hprefix. apply andb_true_iff in Hprefix as [_ Hlast].
      rewrite (from_valid_segments _ Hlast). cbn [bind].
      replace (List.length (firstn j (segments base) ++ [nth j (segments base) (SegStr "")])
               =? 0)%nat with false
        by (symmetry; apply Nat.eqb_neq; rewrite length_app; simpl; lia).
      rewrite (unset_app (firstn j (segments base)) [nth j (segments base) (SegStr "")]
                 root _ Hstructure ltac:(discriminate)).
      reflexivity.
  - replace (List.length (firstn m (segments base) ++ next :: rest) =? 0)%nat with false
      by (symmetry; apply Nat.eqb_neq; rewrite length_app; simpl; lia).
    unfold RelativePointer.unsetThroughRemainder. rewrite Hpath.
    rewrite (unset_app (firstn m (segments base)) (next :: rest) root _
               Htop ltac:(discriminate)).
    reflexivity.
Qed.

Lemma relative_unset_agrees_with_resolve_witness :
  let rp := mkRelative [SegNum 1; SegStr "bar"] in
  let root := JObject [("foo", JObject [("bar", JNull); ("baz", JBool true)])] in
  let base := mkPointer [SegStr "foo"; SegStr "baz"] in
  RelativePointer.V1.unset rp root base
  = Ok (JNull, JObject [("foo", JObject [("baz", JBool true)])])
  /\ exists absolute,
       RelativePointer.resolve rp (LikePointer base) = Ok absolute
       /\ if Pointer.isRoot absolute then
            RelativePointer.V1.unset rp root base
            = Throw (mkError JsonPointerError "Cannot unset the root value.")
            /\ Pointer.unset absolute root
               = Throw (mkError InvalidReferenceError "Cannot unset the root value.")
          else RelativePointer.V1.unset rp root base = Pointer.unset absolute root.
Proof.
  intros rp root base. split; [reflexivity|].
  exact (relative_unset_agrees_with_resolve rp root (JBool true) base
           eq_refl eq_refl eq_refl eq_refl eq_refl eq_refl ltac:(discriminate)).
Defined.

(** ** Assignment into an object *)

Lemma defineProperty_other properties key other v :
  String.eqb other key = false ->
  Json.hasOwnProperty (Json.defineProperty properties key v) other
  = Json.hasOwnProperty properties other
  /\ Json.getOwnProperty (Json.defineProperty properties key v) other
     = Json.getOwnProperty properties other.
Proof.
  intros Hother.
  assert (Hkey : String.eqb key other = false)
    by (rewrite String.eqb_sym; exact Hother).
  induction properties as [|[k w] t [IH1 IH2]].
  - cbn [Json.defineProperty Json.hasOwnProperty Json.getOwnProperty]. rewrite Hkey.
    split; reflexivity.
  - cbn [Json.defineProperty]. destruct (String.eqb k key) eqn:E.
    + apply String.eqb_eq in E. subst k.
      cbn [Json.hasOwnProperty Json.getOwnProperty]. rewrite Hkey. split; reflexivity.
    + cbn [Json.hasOwnProperty Json.getOwnProperty]. rewrite IH1, IH2. split; reflexivity.
Qed.

Lemma setProperty_other properties key other v :
  String.eqb other key = false ->
  Json.hasOwnProperty (Json.setProperty properties key v) other
  = Json.hasOwnProperty properties other
  /\ Json.hasProperty (Json.setProperty properties key v) other
     = Json.hasProperty properties other
  /\ Json.getProperty (Json.setProperty properties key v) other
     = Json.getProperty properties other.
Proof.
  intros Hother. unfold Json.setProperty.
  destruct (String.eqb key "__proto__" && negb (Json.hasOwnProperty properties key));
    [split; [|split]; reflexivity|].
  destruct (defineProperty_other properties key other v Hother) as [Hhas Hget].
  unfold Json.hasProperty, Json.getProperty. rewrite Hhas, Hget.
  split; [|split]; reflexivity.
Qed.

(** X19. [set] when the parent of the location is an object: an index, and
    the segment [-], fail with a plain error that expects an array.  The key
    [__proto__], when the object has no own property of that name, runs the
    setter that the object inherits: the call returns, and no own property
    is created.  Any other key (and [__proto__] when the object has it as an
    own property) sets that own property of the object and leaves every
    other property of it as it was. *)
Theorem set_into_object (this : JsonPointer) (root value : JsonValue)
  (properties : list (string * JsonValue)) :
  Pointer.isRoot this = false ->
  forallb nonNegativeSegment (segments this) = true ->
  Pointer.get (mkPointer (removelast (segments this))) root = Ok (JObject properties) ->
  let parentPointer := mkPointer (removelast (segments this)) in
  let expectsArray :=
    Throw (mkError PlainError
             ("Expected array at " ++ (Js.quote ++ Pointer.toString parentPointer ++ Js.quote)
                ++ ", got object.")) in
  match Pointer.lastSegment this with
  | SegNum _ => Pointer.set this root value = expectsArray
  | SegStr key =>
      if String.eqb key "-" then Pointer.set this root value = expectsArray
      else if String.eqb key "__proto__" && negb (Json.hasOwnProperty properties key) then
        Pointer.set this root value = Ok root
      else
        exists root' properties',
          Pointer.set this root value = Ok root'
          /\ Pointer.get parentPointer root' = Ok (JObject properties')
          /\ Json.hasOwnProperty properties' key = true
          /\ Json.getProperty properties' key = value
          /\ forall other, String.eqb other key = false ->
               Json.hasOwnProperty properties' other = Json.hasOwnProperty properties other
               /\ Json.hasProperty properties' other = Json.hasProperty properties other
               /\ Json.getProperty properties' other = Json.getProperty properties other
  end.
Proof.
  intros Hroot Hvalid Hget parentPointer expectsArray.
  pose proof (forallb_removelast _ _ Hvalid) as Hparent.
  unfold Pointer.set. rewrite Hroot, (getParent_nonroot this Hroot).
  cbn [bind]. fold parentPointer. fold parentPointer in Hget. rewrite Hget. cbn [bind].
  destruct (Pointer.lastSegment this) as [n | key]; [reflexivity|].
  destruct (String.eqb key "-"); [reflexivity|].
  destruct (String.eqb key "__proto__" && negb (Json.hasOwnProperty properties key))
    eqn:Hsetter.
  - unfold Json.setProperty. rewrite Hsetter. f_equal.
    apply writeBack_same. apply get_lookup in Hget. exact Hget.
  - exists (Pointer.writeBack root (segments parentPointer)
              (JObject (Json.setProperty properties key value))),
           (Json.setProperty properties key value).
    split; [reflexivity|].
    split; [eapply get_writeBack; [exact Hparent | exact Hget | reflexivity]|].
    destruct (setProperty_spec properties key value Hsetter) as [Hown [_ Hvalue]].
    split; [exact Hown|]. split; [exact Hvalue|].
    intros other Hother. apply setProperty_other. exact Hother.
Qed.

Lemma set_into_object_witness :
  let this := mkPointer [SegStr "foo"; SegNum 0] in
  let root := JObject [("foo", JObject [("bar", JNull)])] in
  Pointer.get (mkPointer [SegStr "foo"]) root = Ok (JObject [("bar", JNull)])
  /\ Pointer.set this root (JBool true)
     = Throw (mkError PlainError
                ("Expected array at " ++ (Js.quote ++ "/foo" ++ Js.quote) ++ ", got object.")).
Proof.
  intros this root. split; [reflexivity|].
  exact (set_into_object this root (JBool true) [("bar", JNull)] eq_refl eq_refl eq_refl).
Defined.

(** ** The origin token *)

Lemma scan_digits digits rest :
  Js.allDigitChars digits = true -> Js.startsWithDigit rest = false ->
  Js.digitPrefix (digits ++ rest) = digits /\ Js.dropDigits (digits ++ rest) = rest.
Proof.
  intros Hdigits Hrest. induction digits as [|c r IH].
  - cbn [append]. destruct rest as [|d t]; [split; reflexivity|].
    cbn [Js.startsWithDigit] in Hrest. cbn [Js.digitPrefix Js.dropDigits].
    rewrite Hrest. split; reflexivity.
  - cbn [Js.allDigitChars] in Hdigits. apply andb_true_iff in Hdigits as [Hc Hr].
    destruct (IH Hr) as [IH1 IH2].
    change (String c r ++ rest)%string with (String c (r ++ rest)).
    cbn [Js.digitPrefix Js.dropDigits]. rewrite Hc, IH1, IH2. split; reflexivity.
Qed.

Lemma isDigits_allDigitChars s :
  Js.isDigits s = true ->
  Js.allDigitChars s = true /\ exists c r, s = String c r /\ Js.isDigit c = true.
Proof.
  destruct s as [|c r]; [discriminate|]. unfold Js.isDigits. intros H.
  split; [exact H|]. cbn [Js.allDigitChars] in H. apply andb_true_iff in H as [Hc _].
  eauto.
Qed.

Lemma parseInt_digits_then digits rest :
  Js.isDigits digits = true -> Js.startsWithDigit rest = false ->
  Js.parseInt (digits ++ rest) = Js.parseInt digits.
Proof.
  intros Hdigits Hrest.
  destruct (isDigits_allDigitChars _ Hdigits) as [Hall [c [r [-> Hc]]]].
  destruct (scan_digits _ rest Hall Hrest) as [Hprefix _].
  change (String c r ++ rest)%string with (String c (r ++ rest)) in *.
  unfold Js.parseInt. destruct (digit_not_sign c Hc) as [-> ->].
  rewrite Hprefix, digitPrefix_allDigits by exact Hall. reflexivity.
Qed.

Lemma execOffset_skips_digits digits rest :
  Js.allDigitChars digits = true ->
  Js.execOffset (digits ++ rest) = Js.execOffset rest.
Proof.
  induction digits as [|c r IH]; [reflexivity|].
  cbn [Js.allDigitChars]. intros H. apply andb_true_iff in H as [Hc Hr].
  change (String c r ++ rest)%string with (String c (r ++ rest)).
  cbn [Js.execOffset Js.offsetMatchAt]. unfold Js.isSign.
  destruct (digit_not_sign c Hc) as [-> ->]. cbn [orb andb]. apply IH. exact Hr.
Qed.

Lemma startsWithDigit_app digits rest :
  Js.isDigits digits = true -> Js.startsWithDigit (digits ++ rest) = true.
Proof.
  intros H. destruct (isDigits_allDigitChars _ H) as [_ [c [r [-> Hc]]]]. exact Hc.
Qed.

Lemma endsWith_app c a b :
  b <> EmptyString -> Js.endsWith c (a ++ b) = Js.endsWith c b.
Proof.
  intros Hb. induction a as [|d r IH]; [reflexivity|].
  change (String d r ++ b)%string with (String d (r ++ b)).
  cbn [Js.endsWith]. destruct (r ++ b)%string as [|e t] eqn:E; [|exact IH].
  destruct r; [simpl in E; congruence | discriminate].
Qed.

(** X20. How the accessors read the origin token.  On a token made of a
    string of digits, a sign, a string of digits and an optional [#],
    [getParentIndex] is the first number, [getParentIndexOffset] the second
    with its sign, and [isKeyPointer] tells whether the [#] is there; the
    token matches the grammar of the origin.  Without sign and offset the
    offset is [0]. *)
Theorem origin_accessors (parent offset : string) (negative keyed : bool)
  (rest : list JsonPointerSegment) :
  Js.isDigits parent = true ->
  Js.isDigits offset = true ->
  let sign := if negative then "-" else "+" in
  let hash := if keyed then "#" else "" in
  let withOffset := mkRelative (SegStr (parent ++ sign ++ offset ++ hash) :: rest) in
  let withoutOffset := mkRelative (SegStr (parent ++ hash) :: rest) in
  Js.matchesOrigin (RelativePointer.origin withOffset) = true
  /\ RelativePointer.getParentIndex withOffset = Js.parseInt parent
  /\ RelativePointer.getParentIndexOffset withOffset
     = (if negative then - Js.parseInt offset else Js.parseInt offset)
  /\ RelativePointer.isKeyPointer withOffset = keyed
  /\ Js.matchesOrigin (RelativePointer.origin withoutOffset) = true
  /\ RelativePointer.getParentIndex withoutOffset = Js.parseInt parent
  /\ RelativePointer.getParentIndexOffset withoutOffset = 0
  /\ RelativePointer.isKeyPointer withoutOffset = keyed.
Proof.
  intros Hparent Hoffset sign hash withOffset withoutOffset.
  destruct (isDigits_allDigitChars _ Hparent) as [Hpall [pc [pr [Hpshape Hpc]]]].
  destruct (isDigits_allDigitChars _ Hoffset) as [Hoall [oc [or [Hoshape Hoc]]]].
  assert (Hhash : Js.startsWithDigit hash = false) by (unfold hash; destruct keyed; reflexivity).
  assert (Hskip : Js.skipHash hash = EmptyString) by (unfold hash; destruct keyed; reflexivity).
  assert (Hnone : Js.execOffset hash = None) by (unfold hash; destruct keyed; reflexivity).
  destruct (scan_digits offset hash Hoall Hhash) as [Hoprefix Hodrop].
  assert (Hvalue : Js.parseInt offset = Js.digitsValue offset).
  { rewrite Hoshape in *. unfold Js.parseInt. destruct (digit_not_sign oc Hoc) as [-> ->].
    rewrite digitPrefix_allDigits by exact Hoall. reflexivity. }
  assert (Htail : exists s, Js.isSign s = true
                    /\ (sign ++ offset ++ hash)%string = String s (offset ++ hash)
                    /\ Js.parseInt (String s offset)
                       = if negative then - Js.parseInt offset else Js.parseInt offset).
  { unfold sign. destruct negative.
    - exists "-"%char. split; [reflexivity|]. split; [reflexivity|].
      unfold Js.parseInt at 1. cbn [Ascii.eqb Bool.eqb].
      rewrite digitPrefix_allDigits, Hvalue by exact Hoall. reflexivity.
    - exists "+"%char. split; [reflexivity|]. split; [reflexivity|].
      unfold Js.parseInt at 1. cbn [Ascii.eqb Bool.eqb].
      rewrite digitPrefix_allDigits, Hvalue by exact Hoall. reflexivity. }
  destruct Htail as [s [Hs [Htail Hsigned]]].
  assert (Hnotdigit : Js.startsWithDigit (String s (offset ++ hash)) = false).
  { cbn [Js.startsWithDigit]. destruct (Js.isDigit s) eqn:E; [|reflexivity].
    destruct (digit_not_sign s E) as [H1 H2]. unfold Js.isSign in Hs.
    rewrite H1, H2 in Hs. discriminate. }
  unfold RelativePointer.getParentIndex, RelativePointer.getParentIndexOffset,
    RelativePointer.isKeyPointer, RelativePointer.origin, withOffset, withoutOffset.
  cbn [relativeSegments segmentToString]. rewrite Htail.
  destruct (scan_digits parent _ Hpall Hnotdigit) as [_ Hpdrop].
  destruct (scan_digits parent hash Hpall Hhash) as [_ Hpdrop'].
  split; [|split; [|split; [|split; [|split; [|split; [|split]]]]]].
  - unfold Js.matchesOrigin. rewrite (startsWithDigit_app _ _ Hparent), Hpdrop.
    cbn [Js.skipOffset]. rewrite Hs, (startsWithDigit_app _ _ Hoffset). cbn [andb].
    rewrite Hodrop, Hskip. reflexivity.
  - apply parseInt_digits_then; assumption.
  - rewrite (execOffset_skips_digits _ _ Hpall).
    cbn [Js.execOffset Js.offsetMatchAt].
    rewrite Hs, (startsWithDigit_app _ _ Hoffset). cbn [andb].
    rewrite Hodrop, Hskip, Hoprefix. exact Hsigned.
  - rewrite endsWith_app by discriminate.
    change (String s (offset ++ hash)) with (String s "" ++ (offset ++ hash))%string.
    unfold hash. destruct keyed.
    + rewrite (endsWith_app _ (String s "")) by (rewrite Hoshape; discriminate).
      rewrite endsWith_app by discriminate. reflexivity.
    + rewrite append_empty, endsWith_app by (rewrite Hoshape; discriminate).
      apply (allDigits_plain_origin _ Hoall).
  - unfold Js.matchesOrigin. rewrite (startsWithDigit_app _ _ Hparent), Hpdrop'.
    unfold hash. destruct keyed; reflexivity.
  - apply parseInt_digits_then; assumption.
  - rewrite (execOffset_skips_digits _ _ Hpall), Hnone. reflexivity.
  - unfold hash. destruct keyed.
    + rewrite endsWith_app by discriminate. reflexivity.
    + rewrite append_empty. apply (allDigits_plain_origin _ Hpall).
Qed.

Lemma origin_accessors_witness :
  let rp := mkRelative [SegStr "12-3#"] in
  RelativePointer.parse "12-3#" = Ok rp
  /\ RelativePointer.getParentIndex rp = 12
  /\ RelativePointer.getParentIndexOffset rp = -3
  /\ RelativePointer.isKeyPointer rp = true.
Proof.
  intros rp. split; [reflexivity|].
  pose proof (origin_accessors "12" "3" true true [] eq_refl eq_refl) as H.
  exact (conj (proj1 (proj2 H))
           (conj (proj1 (proj2 (proj2 H))) (proj1 (proj2 (proj2 (proj2 H)))))).
Defined.

(** ** Equality and existence through relative pointers *)

(** X21. [equals] on relative pointers decides equality: it returns [true]
    exactly when the two pointers have the same segments, the origin
    included; so it is reflexive, symmetric and transitive, and two pointers
    that differ in the origin only are not equal. *)
Theorem relative_equals_decides_equality (p q r : JsonRelativePointer) :
  (RelativePointer.equals p q = true <-> p = q)
  /\ RelativePointer.equals p p = true
  /\ RelativePointer.equals p q = RelativePointer.equals q p
  /\ (RelativePointer.equals p q = true -> RelativePointer.equals q r = true ->
      RelativePointer.equals p r = true)
  /\ (RelativePointer.equals p q = true ->
      RelativePointer.origin p = RelativePointer.origin q
      /\ RelativePointer.getRemainderPointer p = RelativePointer.getRemainderPointer q).
Proof.
  assert (Hiff : forall a b, RelativePointer.equals a b = true <-> a = b).
  { intros [a] [b]. unfold RelativePointer.equals. cbn [relativeSegments].
    rewrite segmentsEqb_eq.
    split; [intros ->; reflexivity | intros H; inversion H; reflexivity]. }
  split; [apply Hiff|]. split; [apply Hiff; reflexivity|]. split; [|split].
  - destruct (RelativePointer.equals p q) eqn:E1, (RelativePointer.equals q p) eqn:E2;
      try reflexivity.
    + apply Hiff in E1. subst q. rewrite (proj2 (Hiff p p) eq_refl) in E2. discriminate.
    + apply Hiff in E2. subst q. rewrite (proj2 (Hiff p p) eq_refl) in E1. discriminate.
  - intros H1 H2. apply Hiff in H1. apply Hiff in H2. apply Hiff. congruence.
  - intros H. apply Hiff in H. subst q. split; reflexivity.
Qed.

(** X22. [has] through a relative pointer never throws, and returns [true]
    exactly when [get] returns.  For a pointer without offset that is not a
    key pointer, against a base pointer that resolves in the root, it returns
    what [has] of the resolved absolute pointer returns. *)
Theorem relative_has_agrees_with_resolve (rp : JsonRelativePointer)
  (root : JsonValue) (base : JsonPointer) :
  (exists b, RelativePointer.V1.has rp root base = Ok b)
  /\ (RelativePointer.V1.has rp root base = Ok true
      <-> exists v, RelativePointer.V1.get rp root base = Ok v)
  /\ (forall v,
        validRelative rp = true ->
        forallb shapedSegment (segments base) = true ->
        arraysWithin Pointer.MAX_SAFE_INTEGER root = true ->
        RelativePointer.isKeyPointer rp = false ->
        RelativePointer.getParentIndexOffset rp = 0 ->
        Pointer.get base root = Ok v ->
        RelativePointer.getParentIndex rp <= Pointer.getDepth base ->
        exists absolute,
          RelativePointer.resolve rp (LikePointer base) = Ok absolute
          /\ RelativePointer.V1.has rp root base = Pointer.has absolute root).
Proof.
  split; [|split].
  - unfold RelativePointer.V1.has, tryCatch, bind.
    destruct (RelativePointer.V1.get rp root base); eauto.
  - unfold RelativePointer.V1.has, tryCatch, bind.
    destruct (RelativePointer.V1.get rp root base) as [v | e].
    + split; eauto.
    + split; [discriminate | intros [v H]; discriminate].
  - intros v Hrp Hbase Hroot Hkey Hoffset Hget Hbound.
    destruct (resolved_stack InvalidReferenceError rp root base v Hrp Hoffset Hget Hbound)
      as [stack [Hstack [_ [_ [Htop _]]]]].
    cbv zeta in *.
    assert (Hprefix : forallb validSegment
                        (firstn (Z.to_nat (Pointer.getDepth base
                                           - RelativePointer.getParentIndex rp))
                           (segments base)) = true).
    { eapply lookup_shaped_valid; [|exact Hroot|exact Htop].
      apply forallb_firstn. exact Hbase. }
    eexists. split; [apply resolve_within_bounds; assumption|].
    unfold RelativePointer.V1.has, RelativePointer.V1.get,
      RelativePointer.V1.getReferenceStack, Pointer.has.
    rewrite Hstack. cbn [bind].
    destruct (RelativePointer.top stack) as [segment value].
    rewrite Hkey, (getRemainderPointer_valid rp Hrp). cbn [bind snd] in *.
    pose proof (get_parent_app _ (tl (relativeSegments rp)) root value Htop) as Hsame.
    destruct (Pointer.get (mkPointer (tl (relativeSegments rp))) value) as [w | e].
    + rewrite Hsame. reflexivity.
    + destruct Hsame as [e' [-> _]]. reflexivity.
Qed.

Lemma relative_has_agrees_with_resolve_witness :
  let rp := mkRelative [SegNum 1; SegStr "bar"] in
  let root := JObject [("foo", JObject [("bar", JNull)])] in
  let base := mkPointer [SegStr "foo"; SegStr "bar"] in
  RelativePointer.V1.has rp root base = Ok true
  /\ exists absolute,
       RelativePointer.resolve rp (LikePointer base) = Ok absolute
       /\ RelativePointer.V1.has rp root base = Pointer.has absolute root.
Proof.
  intros rp root base. split; [reflexivity|].
  exact (proj2 (proj2 (relative_has_agrees_with_resolve rp root base)) JNull
           eq_refl eq_refl eq_refl eq_refl eq_refl eq_refl ltac:(discriminate)).
Defined.

(** ** Parents of relative pointers *)

(** X23. [getParent] of a relative pointer drops the last segment and keeps
    the origin; it throws on a pointer that holds the origin only.  It
    commutes with resolution: resolving the parent against a base gives the
    parent of the resolved pointer. *)
Theorem relative_getParent_commutes_with_resolve (rp : JsonRelativePointer)
  (base : JsonPointer) :
  validRelative rp = true ->
  validPointer base = true ->
  RelativePointer.isKeyPointer rp = false ->
  RelativePointer.getParentIndexOffset rp = 0 ->
  RelativePointer.getParentIndex rp <= Pointer.getDepth base ->
  if (List.length (relativeSegments rp) <? 2)%nat then
    RelativePointer.getParent rp
    = Throw (mkError JsonPointerError "Cannot get the parent of a unresolved segment.")
  else
    exists parent,
      RelativePointer.getParent rp = Ok parent
      /\ relativeSegments parent = removelast (relativeSegments rp)
      /\ validRelative parent = true
      /\ RelativePointer.origin parent = RelativePointer.origin rp
      /\ RelativePointer.resolve parent (LikePointer base)
         = (resolved <- RelativePointer.resolve rp (LikePointer base) ;;
            Pointer.getParent resolved).
Proof.
  intros Hrp Hbase Hkey Hoffset Hbound.
  unfold RelativePointer.getParent.
  destruct (List.length (relativeSegments rp) <? 2)%nat eqn:Hlen; [reflexivity|].
  apply Nat.ltb_ge in Hlen.
  assert (Hvalid : forallb validSegment (relativeSegments rp) = true).
  { unfold validRelative in Hrp. destruct (relativeSegments rp); [discriminate|].
    apply andb_true_iff in Hrp. tauto. }
  destruct (validRelative_shape rp Hrp) as [first [rest [Hseg [Horigin Hrest]]]].
  rewrite Hseg in *.
  destruct rest as [|next rest]; [simpl in Hlen; lia|].
  set (parent := mkRelative (removelast (first :: next :: rest))).
  assert (Hshape : relativeSegments parent = first :: removelast (next :: rest))
    by reflexivity.
  assert (Horiginparent : RelativePointer.origin parent = RelativePointer.origin rp).
  { unfold RelativePointer.origin. rewrite Hshape, Hseg. reflexivity. }
  assert (Hparent : validRelative parent = true).
  { unfold validRelative. rewrite Hshape, Horigin. cbn [andb].
    change (first :: removelast (next :: rest)) with (removelast (first :: next :: rest)).
    apply forallb_removelast. exact Hvalid. }
  assert (Hindex : RelativePointer.getParentIndex parent = RelativePointer.getParentIndex rp)
    by (unfold RelativePointer.getParentIndex; rewrite Horiginparent; reflexivity).
  assert (Hprefix : forallb validSegment
                      (firstn (Z.to_nat (Pointer.getDepth base
                                         - RelativePointer.getParentIndex rp))
                         (segments base)) = true)
    by (apply forallb_firstn; exact Hbase).
  exists parent.
  split; [reflexivity|]. split; [reflexivity|]. split; [exact Hparent|].
  split; [exact Horiginparent|].
  rewrite (resolve_within_bounds rp base Hrp Hprefix Hkey Hoffset Hbound). cbn [bind].
  rewrite (resolve_within_bounds parent base Hparent).
  - rewrite Hindex, Hshape, Hseg. cbn [tl].
    rewrite getParent_nonroot.
    + cbn [segments]. rewrite removelast_app by discriminate. reflexivity.
    + unfold Pointer.isRoot. cbn [segments]. apply Nat.eqb_neq.
      rewrite length_app. simpl. lia.
  - rewrite Hindex. exact Hprefix.
  - unfold RelativePointer.isKeyPointer in *. rewrite Horiginparent. exact Hkey.
  - unfold RelativePointer.getParentIndexOffset in *. rewrite Horiginparent. exact Hoffset.
  - rewrite Hindex. exact Hbound.
Qed.

Lemma relative_getParent_commutes_with_resolve_witness :
  let rp := mkRelative [SegNum 1; SegStr "bar"; SegNum 0] in
  let base := mkPointer [SegStr "foo"; SegStr "qux"] in
  exists parent,
    RelativePointer.getParent rp = Ok parent
    /\ relativeSegments parent = [SegNum 1; SegStr "bar"]
    /\ validRelative parent = true
    /\ RelativePointer.origin parent = RelativePointer.origin rp
    /\ RelativePointer.resolve parent (LikePointer base)
       = (resolved <- RelativePointer.resolve rp (LikePointer base) ;;
          Pointer.getParent resolved).
Proof.
  intros rp base.
  exact (relative_getParent_commutes_with_resolve rp base
           eq_refl eq_refl eq_refl eq_refl ltac:(discriminate)).
Defined.

(** ** The revisions of [JsonRelativePointer.unset] *)

(** X24. The first and third revisions of [unset].  Both refuse a key
    pointer, with different messages.  When the ancestor stack resolves to at
    least two entries, the third revision leaves the root as the first leaves
    it (and returns nothing).  When the stack resolves to a single entry the
    third throws "Cannot unset the root value." whatever the remainder
    pointer is, where the first throws only if the remainder is the root. *)
Theorem unset_revisions_agree_unless_single_entry (rp : JsonRelativePointer)
  (root : JsonValue) (base : JsonPointer) :
  (RelativePointer.isKeyPointer rp = true ->
   RelativePointer.V1.unset rp root base
   = Throw (mkError JsonPointerError "Cannot write to a key.")
   /\ RelativePointer.V3.unset rp root base
      = Throw (mkError JsonPointerError "Cannot write to a key pointer."))
  /\ (forall stack,
        RelativePointer.isKeyPointer rp = false ->
        RelativePointer.V1.getReferenceStack rp root base = Ok stack ->
        (2 <= List.length stack)%nat ->
        RelativePointer.V3.unset rp root base
        = (result <- RelativePointer.V1.unset rp root base ;; Ok (snd result)))
  /\ (forall stack,
        RelativePointer.isKeyPointer rp = false ->
        RelativePointer.V1.getReferenceStack rp root base = Ok stack ->
        (List.length stack < 2)%nat ->
        RelativePointer.V3.unset rp root base
        = Throw (mkError JsonPointerError "Cannot unset the root value.")
        /\ (forall remainderPointer,
              RelativePointer.getRemainderPointer rp = Ok remainderPointer ->
              Pointer.isRoot remainderPointer = false ->
              RelativePointer.V1.unset rp root base
              = RelativePointer.unsetThroughRemainder root stack remainderPointer)).
Proof.
  split; [|split].
  - intros Hkey. unfold RelativePointer.V1.unset, RelativePointer.V3.unset.
    rewrite Hkey. split; reflexivity.
  - intros stack Hkey Hstack Hlen.
    pose proof (referenceStack_ok_any_class _ JsonPointerError _ _ _ _ Hstack) as Hstack3.
    unfold RelativePointer.V1.getReferenceStack in Hstack.
    unfold RelativePointer.V1.unset, RelativePointer.V3.unset,
      RelativePointer.V1.getReferenceStack, RelativePointer.V3.getReferenceStack.
    rewrite Hkey, Hstack, Hstack3. cbn [bind].
    replace (List.length stack <? 2)%nat with false by (symmetry; apply Nat.ltb_ge; lia).
    destruct (RelativePointer.getRemainderPointer rp) as [remainderPointer | e];
      [|reflexivity].
    cbn [bind]. destruct (negb (Pointer.isRoot remainderPointer)); reflexivity.
  - intros stack Hkey Hstack Hlen.
    pose proof (referenceStack_ok_any_class _ JsonPointerError _ _ _ _ Hstack) as Hstack3.
    unfold RelativePointer.V1.getReferenceStack in Hstack.
    unfold RelativePointer.V1.unset, RelativePointer.V3.unset,
      RelativePointer.V1.getReferenceStack, RelativePointer.V3.getReferenceStack.
    rewrite Hkey, Hstack, Hstack3. cbn [bind].
    replace (List.length stack <? 2)%nat with true by (symmetry; apply Nat.ltb_lt; lia).
    split; [reflexivity|].
    intros remainderPointer Hremainder Hnonroot.
    rewrite Hremainder. cbn [bind]. rewrite Hnonroot. reflexivity.
Qed.

Lemma unset_revisions_agree_unless_single_entry_witness :
  let rp := mkRelative [SegNum 0; SegStr "foo"] in
  let root := JObject [("foo", JNumber 1)] in
  RelativePointer.V1.unset rp root Pointer.root = Ok (JNumber 1, JObject [])
  /\ RelativePointer.V3.unset rp root Pointer.root
     = Throw (mkError JsonPointerError "Cannot unset the root value.").
Proof.
  intros rp root. split; [reflexivity|].
  exact (proj1 (proj2 (proj2 (unset_revisions_agree_unless_single_entry
                                rp root Pointer.root))
                  [(None, root)] eq_refl eq_refl (le_n 2))).
Defined.

(** ** What a traversal throws *)

Lemma traverseLoop_error_entries rest : forall this i current entries e,
  Pointer.traverseLoop this i rest current = (entries, Some e) ->
  (List.length entries < List.length rest)%nat.
Proof.
  induction rest as [|segment rest IH]; intros this i current entries e H;
    [discriminate|].
  cbn [Pointer.traverseLoop] in H. cbn [List.length].
  assert (Hfirst : forall error, ([], error) = (entries, Some e) ->
                     (List.length entries < S (List.length rest))%nat).
  { intros error Heq. inversion Heq. simpl. lia. }
  destruct current as [| | b | m | s | elements | properties | name |];
    try (eapply Hfirst; exact H).
  - destruct segment as [n | s].
    + destruct (n >=? Json.lengthOf elements); [eapply Hfirst; exact H|].
      destruct (Pointer.traverseLoop this (S i) rest (Json.arrayGet elements n))
        as [es [e'|]] eqn:E; [|discriminate].
      inversion H; subst. cbn [List.length]. apply IH in E. lia.
    + destruct (String.eqb s "-"); eapply Hfirst; exact H.
  - destruct segment as [n | s]; [eapply Hfirst; exact H|].
    destruct (negb (Json.hasProperty properties s)); [eapply Hfirst; exact H|].
    destruct (Pointer.traverseLoop this (S i) rest (Json.getProperty properties s))
      as [es [e'|]] eqn:E; [|discriminate].
    inversion H; subst. cbn [List.length]. apply IH in E. lia.
  - destruct segment as [n | s]; [eapply Hfirst; exact H|].
    destruct (negb (Json.inPrototype s)); [eapply Hfirst; exact H|].
    destruct (Pointer.traverseLoop this (S i) rest (Json.prototypeGet s))
      as [es [e'|]] eqn:E; [|discriminate].
    inversion H; subst. cbn [List.length]. apply IH in E. lia.
Qed.

(** X25. A traversal throws nothing but reference errors: the error that
    ends [traverse], and so every error of [get], is an
    [InvalidReferenceError]; a traversal that throws has yielded the root
    entry and, in all, at most as many entries as the pointer has segments;
    [get] then throws the same error and [has] returns [false].  [get] of the
    root pointer returns the value itself. *)
Theorem traversal_throws_only_reference_errors (this : JsonPointer) (root : JsonValue) :
  (forall entries e,
     Pointer.traverse this root = (entries, Some e) ->
     errorClass e = InvalidReferenceError
     /\ (1 <= List.length entries <= List.length (segments this))%nat
     /\ Pointer.get this root = Throw e
     /\ Pointer.has this root = Ok false)
  /\ (forall e, Pointer.get this root = Throw e -> errorClass e = InvalidReferenceError)
  /\ (Pointer.isRoot this = true -> Pointer.get this root = Ok root).
Proof.
  split; [|split].
  - intros entries e Htraverse.
    assert (Hget : Pointer.get this root = Throw e)
      by (unfold Pointer.get; rewrite Htraverse; reflexivity).
    split; [exact (get_throws_class _ _ _ Hget)|]. split; [|split; [exact Hget|]].
    + unfold Pointer.traverse in Htraverse.
      destruct (Pointer.traverseLoop this 0 (segments this) root) as [es error] eqn:Hloop.
      inversion Htraverse; subst. cbn [List.length].
      apply traverseLoop_error_entries in Hloop. lia.
    + unfold Pointer.has. rewrite Hget. reflexivity.
  - intros e. apply get_throws_class.
  - unfold Pointer.isRoot, Pointer.get, Pointer.traverse.
    destruct (segments this); [reflexivity | discriminate].
Qed.

Lemma traversal_throws_only_reference_errors_witness :
  let this := mkPointer [SegStr "foo"; SegStr "bar"] in
  let root := JObject [("foo", JNumber 1)] in
  let e := mkError InvalidReferenceError
             ("Cannot read value at " ++ Js.quote ++ "/foo" ++ Js.quote ++ ".") in
  Pointer.traverse this root = ([(None, root); (Some (SegStr "foo"), JNumber 1)], Some e)
  /\ Pointer.get this root = Throw e
  /\ Pointer.has this root = Ok false.
Proof.
  intros this root e. split; [reflexivity|].
  exact (proj2 (proj2 (proj1 (traversal_throws_only_reference_errors this root)
                         [(None, root); (Some (SegStr "foo"), JNumber 1)] e eq_refl))).
Defined.

(** ** Construction of relative pointers *)

Lemma checkSegments_throws_syntax l e :
  Pointer.checkSegments l = Throw e -> errorClass e = InvalidSyntaxError.
Proof.
  induction l as [|[n | s] l IH]; cbn [Pointer.checkSegments]; [discriminate| |exact IH].
  destruct ((n <? 0) || negb (Pointer.isSafeInteger n)); [|exact IH].
  intros H. inversion H. reflexivity.
Qed.

Lemma pointer_from_segments_throws_syntax l e :
  Pointer.from (LikeSegments l) = Throw e -> errorClass e = InvalidSyntaxError.
Proof.
  cbn [Pointer.from]. unfold Pointer.fromSegments.
  destruct (Pointer.checkSegments (map Pointer.normalizeSegment l)) as [u | e'] eqn:E;
    [discriminate|].
  cbn [bind]. intros H. inversion H; subst. eapply checkSegments_throws_syntax. exact E.
Qed.

Lemma relative_fromSegments_throws_syntax l e :
  RelativePointer.fromSegments l = Throw e -> errorClass e = InvalidSyntaxError.
Proof.
  unfold RelativePointer.fromSegments.
  destruct (List.length l =? 0)%nat; [intros H; inversion H; reflexivity|].
  destruct (Pointer.from (LikeSegments l)) as [p | e'] eqn:E; [discriminate|].
  cbn [bind]. intros H. inversion H; subst.
  eapply pointer_from_segments_throws_syntax. exact E.
Qed.

Lemma pointer_parse_throws_syntax path e :
  Pointer.parse path = Throw e -> errorClass e = InvalidSyntaxError.
Proof.
  unfold Pointer.parse. destruct path as [|first rest]; [discriminate|].
  destruct (Js.hasInvalidEscape (String first rest)); [intros H; inversion H; reflexivity|].
  destruct (negb (Ascii.eqb first "/")); [intros H; inversion H; reflexivity|discriminate].
Qed.

(** X26. Every way [from] builds a relative pointer (from a number, from a
    list of segments, from a string) either returns a pointer that satisfies
    the invariant (an origin token of the grammar, indices that are safe
    non-negative integers, no key made of digits) or throws a syntax error.
    In particular [parse] rejects an index above the largest safe integer,
    which [JsonPointer.parse] lets through. *)
Theorem relative_constructors_establish_invariant (path : JsonRelativePointerLike) :
  match path with
  | LikeRelative p => RelativePointer.from path = Ok p
  | _ =>
      match RelativePointer.from path with
      | Ok rp =>
          validRelative rp = true
          /\ Js.matchesOrigin (RelativePointer.origin rp) = true
          /\ 0 <= RelativePointer.getParentIndex rp
      | Throw e => errorClass e = InvalidSyntaxError
      end
  end
  /\ (forall text p n,
        Pointer.parse ("/" ++ text) = Ok p ->
        In (SegNum n) (segments p) -> Pointer.MAX_SAFE_INTEGER < n ->
        exists e,
          RelativePointer.parse text = Throw e /\ errorClass e = InvalidSyntaxError).
Proof.
  assert (Hok : forall rp, validRelative rp = true ->
            validRelative rp = true
            /\ Js.matchesOrigin (RelativePointer.origin rp) = true
            /\ 0 <= RelativePointer.getParentIndex rp).
  { intros rp Hrp. split; [exact Hrp|]. split; [|apply getParentIndex_nonneg; exact Hrp].
    destruct (validRelative_shape rp Hrp) as [first [rest [Hseg [Horigin _]]]].
    unfold RelativePointer.origin. rewrite Hseg. exact Horigin. }
  assert (Hparse : forall text e,
            RelativePointer.parse text = Throw e -> errorClass e = InvalidSyntaxError).
  { intros text e. unfold RelativePointer.parse.
    destruct (negb (Js.matchesOriginPrefix text)); [intros H; inversion H; reflexivity|].
    destruct (Pointer.parse ("/" ++ text)) as [p | e'] eqn:E.
    - cbn [bind]. apply relative_fromSegments_throws_syntax.
    - cbn [bind]. intros H. inversion H; subst.
      eapply pointer_parse_throws_syntax. exact E. }
  split.
  - destruct path as [p | n | s | l]; [reflexivity| | |].
    + destruct (RelativePointer.from (RelativeNumber n)) as [rp | e] eqn:E.
      * apply Hok. eapply relative_from_number_establishes_invariant. exact E.
      * cbn [RelativePointer.from] in E. eapply relative_fromSegments_throws_syntax. exact E.
    + destruct (RelativePointer.from (RelativeString s)) as [rp | e] eqn:E.
      * apply Hok. eapply relative_parse_establishes_invariant. exact E.
      * eapply Hparse. exact E.
    + destruct (RelativePointer.from (RelativeSegments l)) as [rp | e] eqn:E.
      * apply Hok. eapply relative_from_segments_establishes_invariant. exact E.
      * cbn [RelativePointer.from] in E. destruct l as [|first rest].
        -- eapply relative_fromSegments_throws_syntax. exact E.
        -- destruct (negb (Js.matchesOrigin (segmentToString first)));
             [inversion E; reflexivity|].
           eapply relative_fromSegments_throws_syntax. exact E.
  - intros text p n Hpointer Hin Hn.
    destruct (RelativePointer.parse text) as [rp | e] eqn:E; [|eauto].
    exfalso.
    pose proof (relative_parse_establishes_invariant _ _ E) as Hrp.
    unfold RelativePointer.parse in E.
    destruct (negb (Js.matchesOriginPrefix text)); [discriminate|].
    rewrite Hpointer in E. cbn [bind] in E.
    unfold RelativePointer.fromSegments, Pointer.getSegments in E.
    destruct (List.length (segments p) =? 0)%nat; [discriminate|].
    destruct (Pointer.from (LikeSegments (segments p))) as [q | e'] eqn:Hfrom;
      [|discriminate].
    cbn [bind] in E. inversion E; subst rp. clear E.
    cbn [Pointer.from] in Hfrom.
    destruct (fromSegments_in_range _ _ Hfrom) as [_ Hrange].
    assert (Hin' : In (SegNum n) (map Pointer.normalizeSegment (segments p))).
    { apply in_map_iff. exists (SegNum n). split; [apply normalizeSegment_number | exact Hin]. }
    specialize (Hrange n Hin'). lia.
Qed.

Lemma relative_constructors_establish_invariant_witness :
  let text := "0/9007199254740992" in
  Pointer.parse ("/" ++ text) = Ok (mkPointer [SegNum 0; SegNum 9007199254740992])
  /\ exists e, RelativePointer.parse text = Throw e /\ errorClass e = InvalidSyntaxError.
Proof.
  intros text. split; [reflexivity|].
  exact (proj2 (relative_constructors_establish_invariant (RelativeString text))
           text (mkPointer [SegNum 0; SegNum 9007199254740992]) 9007199254740992
           eq_refl (or_intror (or_introl eq_refl)) eq_refl).
Defined.

(** ** Index pointers *)

Lemma occurs_count c s : occurs c s = true -> (1 <= count c s)%nat.
Proof.
  induction s as [|d r IH]; [discriminate|].
  cbn [occurs count]. destruct (Ascii.eqb d c); [lia|]. cbn [orb]. intros H.
  apply IH in H. lia.
Qed.

Lemma last_split s : last (Js.split "/" s) EmptyString = afterLastSlash s.
Proof.
  induction s as [|c r IH]; [reflexivity|].
  cbn [Js.split afterLastSlash occurs].
  destruct (Ascii.eqb c "/") eqn:Hc; cbn [orb].
  - pose proof (split_length r) as Hlen.
    destruct (Js.split "/" r) as [|h t]; [discriminate|]. exact IH.
  - destruct (occurs "/" r) eqn:Hr.
    + pose proof (split_length r) as Hlen. apply occurs_count in Hr.
      destruct (Js.split "/" r) as [|h [|h' t]]; cbn [List.length] in Hlen; try lia.
      exact IH.
    + rewrite (split_without_separator r Hr). reflexivity.
Qed.

Lemma last_map_nonempty {A B : Type} (f : A -> B) (l : list A) (d : A) (d' : B) :
  l <> [] -> last (map f l) d' = f (last l d).
Proof.
  induction l as [|a l IH]; [congruence|]. intros _.
  destruct l as [|b l]; [reflexivity|].
  change (last (map f (b :: l)) d' = f (last (b :: l) d)).
  apply IH. discriminate.
Qed.

(** X27. [isIndex] of a parsed pointer tells whether the text after the
    last [/] of the string is a string of digits; the root pointer is not an
    index pointer. *)
Theorem isIndex_of_parsed (path : string) (p : JsonPointer) :
  Pointer.parse path = Ok p ->
  Pointer.isIndex p = Js.isDigits (afterLastSlash path)
  /\ (Pointer.isIndex p = true ->
      Pointer.isRoot p = false
      /\ Pointer.lastSegment p = SegNum (Js.parseInt (afterLastSlash path)))
  /\ Pointer.isIndex Pointer.root = false.
Proof.
  intros Hparse.
  assert (Hsegment : forall text,
            match Pointer.unescapeSegment text with
            | SegNum n => Js.isDigits text = true /\ n = Js.parseInt text
            | SegStr _ => Js.isDigits text = false
            end).
  { intros text. unfold Pointer.unescapeSegment, Pointer.normalizeSegment.
    cbn [segmentToString]. destruct (Js.isDigits text); [split; reflexivity | reflexivity]. }
  unfold Pointer.parse in Hparse. destruct path as [|first rest].
  - inversion Hparse; subst p. split; [reflexivity|]. split; [discriminate | reflexivity].
  - destruct (Js.hasInvalidEscape (String first rest)); [discriminate|].
    destruct (Ascii.eqb first "/") eqn:Hfirst; cbn [negb] in Hparse; [|discriminate].
    apply Ascii.eqb_eq in Hfirst. subst first.
    inversion Hparse; subst p. clear Hparse.
    assert (Hne : Js.split "/" rest <> []).
    { pose proof (split_length rest) as Hlen. destruct (Js.split "/" rest); [discriminate|].
      discriminate. }
    change (afterLastSlash (String "/" rest)) with (afterLastSlash rest).
    rewrite <- last_split.
    unfold Pointer.isIndex, Pointer.lastSegment, Pointer.isRoot. cbn [segments].
    assert (Hmapped : map Pointer.unescapeSegment (Js.split "/" rest) <> []).
    { destruct (Js.split "/" rest); [congruence | discriminate]. }
    rewrite (last_map_nonempty Some _ (SegStr "undefined") None Hmapped).
    rewrite (last_map_nonempty Pointer.unescapeSegment _ EmptyString (SegStr "undefined") Hne).
    specialize (Hsegment (last (Js.split "/" rest) EmptyString)).
    destruct (Pointer.unescapeSegment (last (Js.split "/" rest) EmptyString)) as [n | key].
    + destruct Hsegment as [-> ->]. split; [reflexivity|]. split; [|reflexivity].
      intros _. split; [|reflexivity].
      rewrite length_map. destruct (Js.split "/" rest); [congruence | reflexivity].
    + rewrite Hsegment. split; [reflexivity|]. split; [discriminate | reflexivity].
Qed.

Lemma isIndex_of_parsed_witness :
  Pointer.parse "/foo/12" = Ok (mkPointer [SegStr "foo"; SegNum 12])
  /\ Pointer.isIndex (mkPointer [SegStr "foo"; SegNum 12]) = Js.isDigits "12".
Proof.
  split; [reflexivity|].
  exact (proj1 (isIndex_of_parsed "/foo/12" (mkPointer [SegStr "foo"; SegNum 12]) eq_refl)).
Defined.

(** ** The two revisions of [JsonPointer.from] *)

Lemma legacy_unescapeSegment_same segment :
  Legacy.unescapeSegment segment = Pointer.unescapeSegment segment.
Proof.
  unfold Legacy.unescapeSegment, Pointer.unescapeSegment, Pointer.normalizeSegment.
  cbn [segmentToString]. destruct (Js.isDigits segment); reflexivity.
Qed.

(** X28. The two revisions of [from].  They agree on strings and on
    numbers, and on every list of segments none of whose keys is a string of
    digits.  A key made of digits is kept as a key by the earlier revision and
    turned into an index by the later one; so against an array the pointer of
    the later revision reads the element, where that of the earlier fails as
    on any key. *)
Theorem from_revisions_differ_on_digit_keys (l : list JsonPointerSegment) :
  (forall path, Legacy.from (LikeString path) = Pointer.from (LikeString path))
  /\ (forall n, Legacy.from (LikeNumber n) = Pointer.from (LikeNumber n))
  /\ ((forall key, In (SegStr key) l -> Js.isDigits key = false) ->
      Legacy.from (LikeSegments l) = Pointer.from (LikeSegments l))
  /\ (forall key elements,
        Js.isDigits key = true ->
        Js.parseInt key < Json.lengthOf elements ->
        Json.lengthOf elements <= Pointer.MAX_SAFE_INTEGER ->
        Legacy.from (LikeSegments [SegStr key]) = Ok (mkPointer [SegStr key])
        /\ Pointer.from (LikeSegments [SegStr key])
           = Ok (mkPointer [SegNum (Js.parseInt key)])
        /\ Pointer.get (mkPointer [SegNum (Js.parseInt key)]) (JArray elements)
           = Ok (Json.arrayGet elements (Js.parseInt key))
        /\ Pointer.get (mkPointer [SegStr key]) (JArray elements)
           = Throw (mkError InvalidReferenceError
                      ("Expected an object at " ++ Js.quote ++ "" ++ Js.quote
                         ++ ", got an array."))).
Proof.
  split; [|split; [|split]].
  - intros path. cbn [Legacy.from Pointer.from].
    unfold Legacy.parse, Pointer.parse. destruct path as [|first rest]; [reflexivity|].
    destruct (Js.hasInvalidEscape (String first rest)); [reflexivity|].
    destruct (negb (Ascii.eqb first "/")); [reflexivity|].
    f_equal. f_equal. apply map_ext. apply legacy_unescapeSegment_same.
  - reflexivity.
  - intros Hkeys. cbn [Legacy.from Pointer.from]. f_equal.
    rewrite <- (map_id l) at 1. apply map_ext_in. intros [n | key] Hin.
    + symmetry. apply normalizeSegment_number.
    + unfold Pointer.normalizeSegment. cbn [segmentToString].
      rewrite (Hkeys key Hin). reflexivity.
  - intros key elements Hdigits Hlt Hmax.
    assert (Hn : 0 <= Js.parseInt key)
      by (apply parseInt_nonneg, isDigits_starts_with_digit, Hdigits).
    assert (Hdash : String.eqb key "-" = false).
    { destruct (String.eqb key "-") eqn:E; [|reflexivity].
      apply String.eqb_eq in E. subst key. discriminate. }
    split; [reflexivity|]. split; [|split].
    + cbn [Pointer.from map]. unfold Pointer.normalizeSegment. cbn [segmentToString].
      rewrite Hdigits. unfold Pointer.fromSegments. cbn [Pointer.checkSegments].
      replace (Js.parseInt key <? 0) with false by (symmetry; apply Z.ltb_ge; lia).
      unfold Pointer.isSafeInteger.
      replace (- Pointer.MAX_SAFE_INTEGER <=? Js.parseInt key) with true
        by (symmetry; apply Z.leb_le; unfold Pointer.MAX_SAFE_INTEGER; lia).
      replace (Js.parseInt key <=? Pointer.MAX_SAFE_INTEGER) with true
        by (symmetry; apply Z.leb_le; lia).
      reflexivity.
    + unfold Pointer.get, Pointer.traverse. cbn [segments Pointer.traverseLoop].
      replace (Js.parseInt key >=? Json.lengthOf elements) with false
        by (symmetry; rewrite Z.geb_leb; apply Z.leb_gt; lia).
      reflexivity.
    + unfold Pointer.get, Pointer.traverse. cbn [segments Pointer.traverseLoop].
      rewrite Hdash. reflexivity.
Qed.

Lemma from_revisions_differ_on_digit_keys_witness :
  Legacy.from (LikeSegments [SegStr "1"]) = Ok (mkPointer [SegStr "1"])
  /\ Pointer.from (LikeSegments [SegStr "1"]) = Ok (mkPointer [SegNum 1])
  /\ Pointer.get (mkPointer [SegNum 1]) (JArray [JNull; JBool true]) = Ok (JBool true).
Proof.
  pose proof (proj2 (proj2 (proj2 (from_revisions_differ_on_digit_keys [])))
                "1" [JNull; JBool true] eq_refl eq_refl ltac:(discriminate)) as H.
  exact (conj (proj1 H) (conj (proj1 (proj2 H)) (proj1 (proj2 (proj2 H))))).
Defined.
